(** * evm-bully: the transaction replayer, embedded and verified

    A shallow embedding of the Go sources

      - [replayer] : [traverse], [startTxGenerator], [Replay], [showTx],
        [procTxResult];
      - [nearapi/utils] : [ExponentialBackoff], [PublicKeyFromEd25519];
      - [command] : [determineTestnet], [getTxnId], [prettyPrintResponse];
      - [replayer/neard] : [build], [initDaemon], [editGenesis], [Setup];

    followed by the theorems that relate them to the design document,
    and by further theorems on what the code does.

    Conventions.  Go's [int] is the 64-bit two's-complement integer of the
    platforms the tool is built for and is a [Z] wrapped by [int_wrap];
    [uint64] is a [Z] wrapped by [uint64_wrap].  A function that returns
    [(T, error)] returns a [Res T], which also has a case for a run-time
    panic.  Whatever a function writes (standard output, the log, calls to
    the target ledger, sleeps) is returned as a list of [Event]s, oldest
    first.  A value sent over the generator's channel is an element of the
    list the generator returns. *)

From Stdlib Require Import ZArith Lia Ascii String DecimalString Floats.
From stdpp Require Import gmap strings list fin_maps sorting.

Local Open Scope Z_scope.

(* ================================================================== *)
(** * Machine integers *)

Definition int_wrap (z : Z) : Z := (z + 2 ^ 63) mod 2 ^ 64 - 2 ^ 63.
Definition uint64_wrap (z : Z) : Z := z mod 2 ^ 64.

(** [len(x)] as an [int]. *)
Definition len {A} (l : list A) : Z := Z.of_nat (length l).

(* ================================================================== *)
(** * Strings: [fmt.Sprintf], [strconv.FormatUint], [hex.EncodeToString] *)

Definition bytes := list Byte.byte.

Definition nl : string := String (Ascii.ascii_of_nat 10) "".

(** Base-10 text of an integer, as [%d] and [strconv.FormatUint(_, 10)]
    print it. *)
Definition decimal (z : Z) : string := NilZero.string_of_int (Z.to_int z).
Definition FormatUint (n : Z) : string := NilZero.string_of_uint (N.to_uint (Z.to_N n)).

Inductive FmtArg :=
| ArgInt (z : Z)
| ArgStr (s : string).

(** [fmt.Sprintf] for the two verbs the sources use.  A verb without an
    operand, or with one of the other kind, prints Go's error marker. *)
Fixpoint Sprintf (format : string) (args : list FmtArg) : string :=
  match format with
  | EmptyString => ""
  | String "%"%char (String "d"%char rest) =>
      match args with
      | ArgInt z :: args' => decimal z +:+ Sprintf rest args'
      | ArgStr s :: args' => "%!d(string=" +:+ s +:+ ")" +:+ Sprintf rest args'
      | [] => "%!d(MISSING)" +:+ Sprintf rest []
      end
  | String "%"%char (String "s"%char rest) =>
      match args with
      | ArgStr s :: args' => s +:+ Sprintf rest args'
      | ArgInt z :: args' => "%!s(int=" +:+ decimal z +:+ ")" +:+ Sprintf rest args'
      | [] => "%!s(MISSING)" +:+ Sprintf rest []
      end
  | String c rest => String c (Sprintf rest args)
  end.

Definition hex_digit (n : N) : Ascii.ascii :=
  match n with
  | 0 => "0" | 1 => "1" | 2 => "2" | 3 => "3" | 4 => "4" | 5 => "5"
  | 6 => "6" | 7 => "7" | 8 => "8" | 9 => "9" | 10 => "a" | 11 => "b"
  | 12 => "c" | 13 => "d" | 14 => "e" | _ => "f"
  end%N%char.

(** The [digits] lowest hexadecimal digits of [n], most significant first. *)
Fixpoint hex_fixed (digits : nat) (n : N) : string :=
  match digits with
  | O => ""
  | S d => hex_fixed d (n / 16) +:+ String (hex_digit (n mod 16)) ""
  end.

(** [hex.EncodeToString]. *)
Definition EncodeToString (bs : bytes) : string :=
  String.concat "" (map (fun b => hex_fixed 2 (Byte.to_N b)) bs).

(* ================================================================== *)
(** * Errors, results, events *)

(** An [error] is either made by this repository ([errors.New],
    [fmt.Errorf]) or handed over by a collaborator (the chain database,
    the RLP encoder, the ledger client, the JSON encoder). *)
Inductive error :=
| errorString (msg : string)
| external (msg : string).

Definition errors_New (msg : string) : error := errorString msg.
Definition Errorf (format : string) (args : list FmtArg) : error :=
  errorString (Sprintf format args).

Inductive Res (A : Type) :=
| Ok (a : A)
| Fail (e : error)
| Panic (msg : string).
Arguments Ok {A} a.
Arguments Fail {A} e.
Arguments Panic {A} msg.

(* ================================================================== *)
(** * The source chain *)

(** [common.Hash]: 32 bytes, read as a big-endian number. *)
Abbreviation Hash := N.
Definition Hash_Hex (h : Hash) : string := "0x" +:+ hex_fixed 64 h.

(** [types.Transaction], by the accessors [showTx] reads. *)
Record Transaction := {
  Nonce : Z;                 (* uint64 *)
  GasPrice : Z;              (* *big.Int *)
  TxGas : Z;                 (* uint64, [tx.Gas()] *)
  To : option bytes;         (* *common.Address, nil for a creation *)
  Value : Z;                 (* *big.Int *)
  Data : bytes
}.

(** [types.Block], by the accessors the replayer reads. *)
Record Block := {
  ParentHash : Hash;
  Transactions : list Transaction
}.

(** The chain database: blocks are stored under their number and hash. *)
Abbreviation Database := (gmap (N * N) Block).

(** [rawdb.ReadBlock]; [None] is Go's [nil]. *)
Definition ReadBlock (db : Database) (hash : Hash) (number : Z) : option Block :=
  db !! (Z.to_N number, hash).

(* ================================================================== *)
(** * The target ledger's data *)

(** [near.FunctionCall] and [near.Action]. *)
Record FunctionCall := {
  fc_MethodName : string;
  fc_Args : bytes;
  fc_Gas : Z;                (* uint64 *)
  fc_Deposit : Z             (* big.Int *)
}.

Record Action := {
  Enum : Z;                  (* uint8 *)
  action_FunctionCall : FunctionCall
}.

(** What a run does to the outside, in the order it does it. *)
Inductive Event :=
| Stdout (text : string)                        (* [fmt.Println], [fmt.Printf] *)
| LogInfo (text : string)                       (* [log.Info] *)
| Sleep (nanoseconds : Z)                       (* [time.Sleep] *)
| Invoke                                        (* a call of the retried closure *)
| CallFunction (contract method : string) (args : bytes) (gas deposit : Z)
                                                (* [Account.FunctionCall] *)
| SendTransaction (contract : string) (actions : list Action).
                                                (* [Account.SignAndSendTransaction] *)

Definition Println (s : string) : Event := Stdout (s +:+ nl).
Definition Printf (format : string) (args : list FmtArg) : Event :=
  Stdout (Sprintf format args).

(* ================================================================== *)
(** * Effects: what is written, and how a call ends *)

(** A computation that emits events and then returns, fails or panics. *)
Definition M (A : Type) : Type := (list Event * Res A)%type.

Definition ret {A} (a : A) : M A := ([], Ok a).
Definition fail {A} (e : error) : M A := ([], Fail e).
Definition panic {A} (msg : string) : M A := ([], Panic msg).
Definition emit (ev : Event) : M unit := ([ev], Ok tt).

Definition bind {A B} (m : M A) (k : A -> M B) : M B :=
  match m with
  | (evs, Ok a) => let '(evs', r) := k a in (evs ++ evs', r)
  | (evs, Fail e) => (evs, Fail e)
  | (evs, Panic msg) => (evs, Panic msg)
  end.

Notation "x <- m ;; k" := (bind m (fun x => k))
  (at level 100, m at next level, right associativity).
Notation "m >> k" := (bind m (fun _ => k))
  (at level 100, right associativity).

(** [if cond { body }] for a body that only emits. *)
Definition when (cond : bool) (body : M unit) : M unit :=
  if cond then body else ret tt.

(** A Go call returning [(T, error)], made by a collaborator. *)
Definition lift {A} (r : error + A) : M A :=
  match r with
  | inl e => fail e
  | inr a => ret a
  end.

Definition nonempty (s : string) : bool := negb (String.eqb s "").

(** [err.Error()]. *)
Definition error_text (e : error) : string :=
  match e with
  | errorString msg => msg
  | external msg => msg
  end.

(* ================================================================== *)
(** * Response payloads: [map[string]interface{}] *)

(** The values [encoding/json] decodes into an [interface{}]. *)
#[warnings="-register-all"]
Inductive JSON :=
| JNull                                   (* nil *)
| JBool (b : bool)
| JNumber (x : float)                     (* float64 *)
| JString (s : string)
| JArray (items : list JSON)              (* []interface{} *)
| JObject (fields : gmap string JSON).    (* map[string]interface{} *)

Definition Payload := gmap string JSON.

(** [m[key] != nil] for a [map[string]interface{}]: a missing key reads
    as [nil], and so does a JSON [null]. *)
Definition not_nil (m : gmap string JSON) (key : string) : bool :=
  match m !! key with
  | None | Some JNull => false
  | Some _ => true
  end.

(** The dynamic type of an [interface{}] read from a decoded map, as the
    run time prints it in the message of a failed type assertion; a
    missing key reads as [nil]. *)
Definition dynamic_type (v : option JSON) : string :=
  match v with
  | None | Some JNull => "nil"
  | Some (JBool _) => "bool"
  | Some (JNumber _) => "float64"
  | Some (JString _) => "string"
  | Some (JArray _) => "[]interface {}"
  | Some (JObject _) => "map[string]interface {}"
  end.

(** [getTxnId] of [command/util.go]. *)
Definition getTxnId (res : Payload) : string :=
  match res !! "transaction" with
  | Some (JObject tx) =>
      match tx !! "hash" with
      | Some (JString hash) => hash
      | _ => ""
      end
  | _ => ""
  end.

(** [prettyPrintResponse] of [command/util.go]; the replayer calls it as
    [utils.PrettyPrintResponse]. *)
Definition PrettyPrintResponse (res : Payload) : M unit :=
  let txnId := getTxnId res in
  when (nonempty txnId)
    (emit (Printf ("Transaction Id %s" +:+ nl) [ArgStr txnId])).

(* ================================================================== *)
(** * Replay steps and configuration *)

(** [Tx]: one value on the generator's channel.  The consumer reads the
    fields in this order: [Error], then [MethodName], then [Comment]. *)
Record Tx := {
  Comment : string;
  Error : option error;
  MethodName : string;
  Args : bytes;
  EthTx : option Transaction
}.

Definition commentTx (text : string) : Tx :=
  {| Comment := text; Error := None; MethodName := ""; Args := []; EthTx := None |}.
Definition errorTx (e : error) : Tx :=
  {| Comment := ""; Error := Some e; MethodName := ""; Args := []; EthTx := None |}.

(** The fields of [Replayer] read by the generator and the consumer. *)
Record Replayer := {
  Gas : Z;                   (* uint64 *)
  Testnet : string;
  Skip : bool;               (* skip empty blocks *)
  Batch : bool;              (* batch transactions *)
  BatchSize : Z;             (* int *)
  StartBlock : Z;            (* int *)
  StartTx : Z;               (* int *)
  BreakBlock : Z;            (* int *)
  BreakTx : Z                (* int *)
}.

(** What the replayer calls but does not define in the files at hand:
    the other files of its package, go-ethereum's encoder, near-api-go. *)
Class Collaborators := {
  Account : Type;                                         (* *near.Account *)
  Genesis : Type;                                         (* *core.Genesis *)
  BlockContext : Type;
  getGenesisBlock : string -> Genesis;
  beginChainTx : Replayer -> Account -> string -> Genesis -> Tx;
  getBlockContext : Block -> error + BlockContext;
  beginBlockTx : Account -> string -> Z -> BlockContext -> Tx;
  MarshalBinary : Transaction -> error + bytes;           (* tx.MarshalBinary() *)
  FormatNearAmount : string -> error + string;            (* utils.FormatNearAmount *)
  MarshalIndent : gmap string JSON -> error + string      (* json.MarshalIndent(_, "", "  ") *)
}.

(** The ledger behind an account: each call may change it. *)
Class LedgerClient := {
  Ledger : Type;
  Account_FunctionCall :
    Ledger -> string -> string -> bytes -> Z -> Z -> Ledger * (error + Payload);
  Account_SignAndSendTransaction :
    Ledger -> string -> list Action -> Ledger * (error + Payload)
}.

(* ================================================================== *)
(** * Chain Indexer: [traverse] *)

(** [blocks[i], blocks[j] = blocks[j], blocks[i]]; an index out of range
    panics in Go, the loop below never produces one. *)
Definition swap (blocks : list Hash) (i j : nat) : list Hash :=
  match blocks !! i, blocks !! j with
  | Some x, Some y => <[i := y]> (<[j := x]> blocks)
  | _, _ => blocks
  end.

(** [for i, j := 0, len(blocks)-1; i < j; i, j = i+1, j-1 { swap }].
    The loop runs at most [len(blocks)] times, which [fuel] counts. *)
Fixpoint reverse_loop (fuel : nat) (i j : Z) (blocks : list Hash) : list Hash :=
  match fuel with
  | O => blocks
  | S fuel' =>
      if i <? j
      then reverse_loop fuel' (i + 1) (j - 1) (swap blocks (Z.to_nat i) (Z.to_nat j))
      else blocks
  end.

Definition reverse_blocks (blocks : list Hash) : list Hash :=
  reverse_loop (length blocks) 0 (len blocks - 1) blocks.

(** The body of [for blockHeight > 0 { ... }].  [n] is [blockHeight]; the
    loop ends when it reaches 0.  [txCount] is a [uint64]. *)
Fixpoint traverse_loop (db : Database) (n : nat) (b : Block)
    (blocks : list Hash) (txCount : Z) : M (list Hash * Z) :=
  match n with
  | O => ret (blocks, txCount)
  | S n' =>
      let blockHash := ParentHash b in
      let blockHeight := Z.of_nat n' in
      match ReadBlock db blockHash blockHeight with
      | None =>
          fail (Errorf "cannot read block at height %d with hash %s"
                  [ArgInt blockHeight; ArgStr (Hash_Hex blockHash)])
      | Some b' =>
          emit (LogInfo (Sprintf "read block at height %d with hash %s"
                           [ArgInt blockHeight; ArgStr (Hash_Hex blockHash)])) >>
          traverse_loop db n' b' (blocks ++ [blockHash])
            (uint64_wrap (txCount + len (Transactions b')))
      end
  end.

(** [traverse(db, b, blockHeight)]: walk backwards from block [b] at
    [blockHeight] and return the hashes, genesis first. *)
Definition traverse (db : Database) (b : Block) (blockHeight : Z) : M (list Hash) :=
  walked <- traverse_loop db (Z.to_nat blockHeight) b [] 0 ;;
  let '(blocks, txCount) := walked in
  let blocks := reverse_blocks blocks in
  emit (LogInfo (Sprintf "total number of transactions: %d" [ArgInt txCount])) >>
  ret blocks.

(* ================================================================== *)
(** * Replay Step Generator: [startTxGenerator] *)

(** The place in the two nested loops where a value is sent. *)
Inductive Origin :=
| AtGenesis                              (* before the loop over blocks *)
| AtBlock (blockHeight : Z)              (* in the loop over blocks *)
| AtTx (blockHeight i : Z).              (* in the loop over a block's transactions *)

(** How the goroutine ends: it runs into [close(c)], it returns without
    closing the channel, or it panics. *)
Inductive GenEnd :=
| Closed
| Returned
| Crashed (msg : string).

(** How the loop over a block's transactions is left. *)
Inductive LoopExit :=
| Next                                   (* the range is exhausted *)
| BreakOuter                             (* [break outer] *)
| Return                                 (* [return] *)
| Crash (msg : string).

Definition Sends := list (Origin * Tx).

(** [c <- x], followed by the rest of the run. *)
Definition send {E} (x : Origin * Tx) (rest : Sends * E) : Sends * E :=
  (x :: fst rest, snd rest).

Section Generator.
Context `{Collaborators}.
Variables (r : Replayer) (a : Account) (evmContract : string) (db : Database).

Definition submitTx (blockHeight i : Z) (tx : Transaction) (rlp : bytes)
    (amount : string) : Tx :=
  {| Comment := Sprintf "submit(%d, tx=%d, tx_size=%d, gas=%sⓃ)"
                  [ArgInt blockHeight; ArgInt i; ArgInt (len rlp); ArgStr amount];
     Error := None;
     MethodName := "submit";
     Args := rlp;
     EthTx := Some tx |}.

(** [for i, tx := range b.Transactions() { ... }], from index [i] on. *)
Fixpoint txLoop (blockHeight i : Z) (txs : list Transaction) : Sends * LoopExit :=
  match txs with
  | [] => ([], Next)
  | tx :: txs' =>
      if negb (BreakBlock r =? 0) && (blockHeight =? BreakBlock r) && (i =? BreakTx r)
      then
        ([(AtTx blockHeight i,
           commentTx (Sprintf "breaking at transaction %d (in block %d)"
                        [ArgInt i; ArgInt blockHeight]))], BreakOuter)
      else if (blockHeight =? StartBlock r) && (i <? StartTx r)
      then
        send (AtTx blockHeight i,
              commentTx (Sprintf "skipping transaction %d (in block %d)"
                           [ArgInt i; ArgInt blockHeight]))
             (txLoop blockHeight (i + 1) txs')
      else
        match MarshalBinary tx with
        | inl err => ([(AtTx blockHeight i, errorTx err)], Return)
        | inr rlp =>
            if uint64_wrap (BatchSize r) =? 0
            then ([], Crash "runtime error: integer divide by zero")
            else
              match FormatNearAmount
                      (FormatUint (Gas r / uint64_wrap (BatchSize r))) with
              | inl err => ([(AtTx blockHeight i, errorTx err)], Return)
              | inr amount =>
                  send (AtTx blockHeight i, submitTx blockHeight i tx rlp amount)
                       (txLoop blockHeight (i + 1) txs')
              end
        end
  end.

(** [for blockHeight, blockHash := range blocks { ... }], from index
    [blockHeight] on, up to and including [close(c)]. *)
Fixpoint blockLoop (blockHeight : Z) (blocks : list Hash) : Sends * GenEnd :=
  match blocks with
  | [] => ([], Closed)
  | blockHash :: blocks' =>
      if negb (BreakBlock r =? 0) && (BreakTx r =? 0) && (blockHeight =? BreakBlock r)
      then
        ([(AtBlock blockHeight,
           commentTx (Sprintf "breaking block %d" [ArgInt blockHeight]))], Closed)
      else if blockHeight <? StartBlock r
      then
        send (AtBlock blockHeight,
              commentTx (Sprintf "skipping block %d" [ArgInt blockHeight]))
             (blockLoop (blockHeight + 1) blocks')
      else
        match ReadBlock db blockHash (uint64_wrap blockHeight) with
        | None =>
            ([(AtBlock blockHeight,
               errorTx (Errorf "cannot read block at height %d with hash %s"
                          [ArgInt blockHeight; ArgStr (Hash_Hex blockHash)]))],
             Returned)
        | Some b =>
            match getBlockContext b with
            | inl err => ([(AtBlock blockHeight, errorTx err)], Returned)
            | inr ctx =>
                send (AtBlock blockHeight,
                      if negb (Skip r) || (0 <? len (Transactions b))
                      then beginBlockTx a evmContract (Gas r) ctx
                      else commentTx
                             (Sprintf "begin_block() skipped for empty block %d"
                                [ArgInt blockHeight]))
                  (match txLoop blockHeight 0 (Transactions b) with
                   | (sent, Next) =>
                       (sent ++ fst (blockLoop (blockHeight + 1) blocks'),
                        snd (blockLoop (blockHeight + 1) blocks'))
                   | (sent, BreakOuter) => (sent, Closed)
                   | (sent, Return) => (sent, Returned)
                   | (sent, Crash msg) => (sent, Crashed msg)
                   end)
            end
        end
  end.

(** The goroutine started by [startTxGenerator]. *)
Definition generate (blocks : list Hash) : Sends * GenEnd :=
  send (AtGenesis, beginChainTx r a evmContract (getGenesisBlock (Testnet r)))
       (blockLoop 0 blocks).

(** The channel as its reader finds it: its capacity, the values sent
    over it in order, and how the sending goroutine ended. *)
Record Channel := {
  capacity : Z;
  sent : Sends;
  ending : GenEnd
}.

(** [r.startTxGenerator(a, evmContract, db, blocks)].  [make] panics on
    a negative size (and on one beyond what can be allocated, a limit of
    the platform that is left out here). *)
Definition startTxGenerator (blocks : list Hash) : Res Channel :=
  let size := int_wrap (10 * BatchSize r) in
  if size <? 0
  then Panic "makechan: size out of range"
  else Ok {| capacity := size;
             sent := fst (generate blocks);
             ending := snd (generate blocks) |}.

End Generator.

(** The steps a reader of the channel receives. *)
Definition received (s : Sends) : list Tx := map snd s.

(* ================================================================== *)
(** * Result Verifier: [showTx], [procTxResult] *)

Section Verifier.
Context `{Collaborators}.

Definition showTx (tx : Transaction) : M unit :=
  match MarshalBinary tx with
  | inl err => panic (error_text err)               (* marshalled before *)
  | inr rlp =>
      emit (Println "transaction:") >>
      emit (Println ("0x" +:+ EncodeToString rlp)) >>
      emit (Printf ("nonce: %d" +:+ nl) [ArgInt (Nonce tx)]) >>
      emit (Printf ("gasPrice: %s" +:+ nl) [ArgStr (decimal (GasPrice tx))]) >>
      emit (Printf ("gasLimit: %d" +:+ nl) [ArgInt (TxGas tx)]) >>
      match To tx with
      | Some to => emit (Printf ("to: 0x%s" +:+ nl) [ArgStr (EncodeToString to)])
      | None => emit (Println "to: contract creation")
      end >>
      emit (Printf ("value: %s" +:+ nl) [ArgStr (decimal (Value tx))]) >>
      when (0 <? len (Data tx))
        (emit (Println "data:") >>
         emit (Println ("0x" +:+ EncodeToString (Data tx))))
  end.

Definition procTxResult (batch : bool) (tx : option Transaction)
    (txResult : Payload) : M unit :=
  PrettyPrintResponse txResult >>
  match txResult !! "status" with
  | Some (JObject status) =>
      jsn <- lift (MarshalIndent status) ;;
      emit (Println jsn) >>
      if not_nil status "Failure"
      then
        match negb batch, tx with
        | true, Some tx =>
            (* print last failing transaction if possible *)
            showTx tx
        | _, _ => ret tt
        end >>
        fail (errors_New "replayer: transaction failed")
      else ret tt
  | other =>
      (* txResult["status"].(map[string]interface{}): the message of the
         failed assertion names the dynamic type of the value *)
      panic ("interface conversion: interface {} is " +:+ dynamic_type other
             +:+ ", not map[string]interface {}")
  end.

End Verifier.

(* ================================================================== *)
(** * Batch Submitter: [Replay] *)

Section Submitter.
Context `{Collaborators} `{LedgerClient}.
Variables (r : Replayer) (evmContract : string).

(** A remote call: it is recorded, and the ledger answers. *)
Definition FunctionCallM (ledger : Ledger) (methodName : string) (args : bytes)
    (gas amount : Z) : M (Ledger * Payload) :=
  emit (CallFunction evmContract methodName args gas amount) >>
  match Account_FunctionCall ledger evmContract methodName args gas amount with
  | (_, inl err) => fail err
  | (ledger', inr txResult) => ret (ledger', txResult)
  end.

Definition SignAndSendTransactionM (ledger : Ledger) (batch : list Action)
  : M (Ledger * Payload) :=
  emit (SendTransaction evmContract batch) >>
  match Account_SignAndSendTransaction ledger evmContract batch with
  | (_, inl err) => fail err
  | (ledger', inr txResult) => ret (ledger', txResult)
  end.

(** [near.Action{Enum: 2, FunctionCall: ...}] as batch mode builds it. *)
Definition batchAction (tx : Tx) (gas : Z) : Action :=
  {| Enum := 2;
     action_FunctionCall :=
       {| fc_MethodName := MethodName tx;
          fc_Args := Args tx;
          fc_Gas := gas;
          fc_Deposit := 0 |} |}.

(** [for tx := range c { ... }] over the values [c] received until the
    channel is closed; returns the ledger and the batch left over. *)
Fixpoint Replay_range (c : list Tx) (ledger : Ledger) (batch : list Action)
  : M (Ledger * list Action) :=
  match c with
  | [] => ret (ledger, batch)
  | tx :: c' =>
      match Error tx with
      | Some err => fail err
      | None =>
          if nonempty (MethodName tx)
          then
            if negb (Batch r)
            then
              (* no tx batching *)
              when (nonempty (Comment tx)) (emit (Println (Comment tx))) >>
              answer <- FunctionCallM ledger (MethodName tx) (Args tx) (Gas r) 0 ;;
              procTxResult (Batch r) (EthTx tx) (snd answer) >>
              Replay_range c' (fst answer) batch
            else
              (* batch mode *)
              when (nonempty (Comment tx))
                (emit (Println ("batching: " +:+ Comment tx))) >>
              if uint64_wrap (BatchSize r) =? 0
              then panic "runtime error: integer divide by zero"
              else
                let batch :=
                  batch ++ [batchAction tx (Gas r / uint64_wrap (BatchSize r))] in
                if len batch =? BatchSize r
                then
                  emit (Println "running batch") >>
                  answer <- SignAndSendTransactionM ledger batch ;;
                  procTxResult (Batch r) (EthTx tx) (snd answer) >>
                  Replay_range c' (fst answer) []       (* batch = batch[:0] *)
                else Replay_range c' ledger batch       (* batch not full yet *)
          else
            when (nonempty (Comment tx)) (emit (Println (Comment tx))) >>
            Replay_range c' ledger batch
      end
  end.

(** [Replay] from [// process transactions] on: [c] stands for the
    channel [startTxGenerator] returns and holds the values received
    from it.  Finding the cache directory, opening the database, the
    optional setup and loading the account come before it and are the
    work of collaborators; the calls deferred there (closing the
    database, stopping the daemon) run when [Replay] returns or panics,
    after what is embedded here. *)
Definition Replay (c : list Tx) (ledger : Ledger) : M unit :=
  (* make([]near.Action, 0, r.BatchSize): panics on a negative capacity;
     the platform's allocation limit is left out, as for the channel *)
  if BatchSize r <? 0 then panic "runtime error: makeslice: cap out of range" else
  state <- Replay_range c ledger [] ;;
  let '(ledger, batch) := state in
  (* process last batch, if not empty *)
  if 0 <? len batch
  then
    emit (Println "running last batch") >>
    answer <- SignAndSendTransactionM ledger batch ;;
    procTxResult (Batch r) None (snd answer)
  else ret tt.

End Submitter.

(* ================================================================== *)
(** * Retry Helper: [ExponentialBackoff] *)

(** [float64(n)] for an [int]: the nearest double, ties to even. *)
Definition float64_of_int (n : Z) : float :=
  if n =? - 2 ^ 63 then PrimFloat.opp (Z.ldexp PrimFloat.one 63)
  else if n <? 0 then PrimFloat.opp (PrimFloat.of_uint63 (Uint63.of_Z (- n)))
  else PrimFloat.of_uint63 (Uint63.of_Z n).

(** [int(x)] for a [float64]: the fraction is dropped.  The language
    leaves the result open when [x] is outside [int]; amd64 yields the
    smallest [int], and so does this definition. *)
Definition int_of_float64 (x : float) : Z :=
  match Prim2SF x with
  | S754_zero _ => 0
  | S754_finite s m e =>
      let magnitude := if e <? 0 then Z.shiftr (Z.pos m) (- e)
                       else Z.shiftl (Z.pos m) e in
      let n := if s then - magnitude else magnitude in
      if (- 2 ^ 63 <=? n) && (n <? 2 ^ 63) then n else - 2 ^ 63
  | S754_infinity _ | S754_nan => - 2 ^ 63
  end.

(** [time.Duration(waitTime) * time.Millisecond], in nanoseconds. *)
Definition milliseconds (waitTime : Z) : Z := int_wrap (waitTime * 1000000).

(** The wait time after one more failure:
    [int(float64(waitTime) * waitBackoff)]. *)
Definition backoff (waitTime : Z) (waitBackoff : float) : Z :=
  int_of_float64 (PrimFloat.mul (float64_of_int waitTime) waitBackoff).

(** [getResult]: a closure; calling it may change what it closes over. *)
Class GetResult := {
  Remote : Type;
  fn : Remote -> Remote * (error + Payload)
}.

Section Retry.
Context `{GetResult}.

(** [for i := 0; i < retryNumber; i++ { ... }] with [attempts] rounds
    to go, followed by the [return] after the loop.  The state of the
    remote side is returned next to the run. *)
Fixpoint ExponentialBackoff_loop (attempts : nat) (waitTime : Z)
    (waitBackoff : float) (remote : Remote) : Remote * M Payload :=
  match attempts with
  | O => (remote, fail (errors_New "utils: exponential backoff failed"))
  | S attempts' =>
      match fn remote with
      | (remote', inr res) => (remote', emit Invoke >> ret res)
      | (remote', inl err) =>
          let rest :=
            ExponentialBackoff_loop attempts' (backoff waitTime waitBackoff)
              waitBackoff remote' in
          (fst rest,
           emit Invoke >>
           (* print error and continue *)
           emit (Println (error_text err)) >>
           emit (Sleep (milliseconds waitTime)) >>
           snd rest)
      end
  end.

Definition ExponentialBackoff (startWaitTime retryNumber : Z)
    (waitBackoff : float) (remote : Remote) : Remote * M Payload :=
  ExponentialBackoff_loop (Z.to_nat retryNumber) startWaitTime waitBackoff remote.

End Retry.

(* ================================================================== *)
(** * Command-line options: [determineTestnet] *)

(** [testnetFlags] of [command/util.go]. *)
Record testnetFlags := {
  goerli : bool;
  rinkeby : bool;
  ropsten : bool
}.

(** [f.determineTestnet()]. *)
Definition determineTestnet (f : testnetFlags) : error + string :=
  if negb (goerli f) && negb (rinkeby f) && negb (ropsten f)
  then inl (errors_New "one of the options -goerli, -rinkeby, or -ropsten is mandatory")
  else if goerli f && rinkeby f
  then inl (errors_New "the options -goerli and -rinkeby exclude each other")
  else if goerli f && ropsten f
  then inl (errors_New "the options -goerli and -ropsten exclude each other")
  else if rinkeby f && ropsten f
  then inl (errors_New "the options -rinkeby and -ropsten exclude each other")
  else if rinkeby f then inr "rinkeby"
  else if ropsten f then inr "ropsten"
  else (* use Görli as the default *) inr "goerli".

(* ================================================================== *)
(** * Keys: [PublicKeyFromEd25519] *)

(** The builtin [copy(dst, src)], as the array [dst] it leaves behind:
    the first [min(len(dst), len(src))] elements are overwritten. *)
Definition copy {A} (dst src : list A) : list A :=
  take (length dst) src ++ drop (length src) dst.

Module utils.

(** All supported key types. *)
Definition ED25519 : Z := 0.

Record PublicKey := {
  KeyType : Z;               (* uint8 *)
  Data : bytes               (* [32]byte *)
}.

(** [var pubKey PublicKey] starts from the zero value. *)
Definition PublicKeyFromEd25519 (pk : bytes) : PublicKey :=
  {| KeyType := ED25519;
     Data := copy (replicate 32 Byte.x00) pk |}.

End utils.

(* ================================================================== *)
(** * The master account of [Replay]'s setup *)

(** [strings.Split(s, sep)] for a separator of one character: the pieces
    of [s] between the separators; there is always at least one. *)
Fixpoint Split (s : string) (sep : Ascii.ascii) : list string :=
  match s with
  | EmptyString => [""]
  | String c rest =>
      if Ascii.eqb c sep then "" :: Split rest sep
      else
        match Split rest sep with
        | piece :: pieces => String c piece :: pieces
        | [] => [String c ""]
        end
  end.

(** [strings.Join(elems, sep)]. *)
Definition Join (elems : list string) (sep : string) : string :=
  String.concat sep elems.

(** [strings.Join(strings.Split(r.AccountID, ".")[1:], ".")]: the
    [MasterAccount] of the account [Replay] creates during setup.
    Slicing [[1:]] panics on an empty slice. *)
Definition MasterAccount (accountID : string) : Res string :=
  match Split accountID "." with
  | [] => Panic "runtime error: slice bounds out of range [1:0]"
  | _ :: labels => Ok (Join labels ".")
  end.

(* ================================================================== *)
(** * The local daemon: [build], [initDaemon], [editGenesis], [Setup] *)

Module neard.

(** What a [map[string]interface{}] of this package holds: the values
    [encoding/json] decodes, and the [int]s the code stores. *)
#[warnings="-register-all"]
Inductive Any :=
| ANil
| ABool (b : bool)
| AFloat64 (x : float)
| AInt (n : Z)
| AString (s : string)
| ASlice (items : list Any)
| AMap (fields : gmap string Any).

Definition type_name (v : Any) : string :=
  match v with
  | ANil => "nil"
  | ABool _ => "bool"
  | AFloat64 _ => "float64"
  | AInt _ => "int"
  | AString _ => "string"
  | ASlice _ => "[]interface {}"
  | AMap _ => "map[string]interface {}"
  end.

(** What the package asks of the system, in the order it asks. *)
Inductive Call :=
| Info (text : string)                              (* [log.Info] *)
| Getwd                                             (* [os.Getwd] *)
| Chdir (dir : string)                              (* [os.Chdir] *)
| Head                                              (* [git.Head] *)
| UserHomeDir                                       (* [os.UserHomeDir] *)
| Exists (path : string)                            (* [file.Exists] *)
| RemoveAll (path : string)                         (* [os.RemoveAll] *)
| Rename (oldpath newpath : string)                 (* [os.Rename] *)
| Run (name : string) (args : list string)          (* [exec.Command(name, args...).Run()] *)
| Copy (src dst : string)                           (* [file.Copy] *)
| ReadFile (name : string)                          (* [os.ReadFile] *)
| WriteFile (name : string) (data : bytes) (perm : Z).   (* [os.WriteFile] *)

(** The system the package runs on: each call may change it, and
    answers with an error or a result.  The two JSON functions and
    [filepath.Join] depend on their arguments only. *)
Class Host := {
  World : Type;
  filepath_Join : list string -> string;
  os_Getwd : World -> World * (error + string);
  os_Chdir : World -> string -> World * option error;
  git_Head : World -> World * (error + string);
  os_UserHomeDir : World -> World * (error + string);
  file_Exists : World -> string -> World * (error + bool);
  os_RemoveAll : World -> string -> World * option error;
  os_Rename : World -> string -> string -> World * option error;
  cmd_Run : World -> string -> list string -> World * option error;
  file_Copy : World -> string -> string -> World * option error;
  os_ReadFile : World -> string -> World * (error + bytes);
  os_WriteFile : World -> string -> bytes -> Z -> World * option error;
  json_Unmarshal : bytes -> error + gmap string Any;
  json_MarshalIndent : gmap string Any -> error + bytes
}.

Section Daemon.
Context `{Host}.

(** A computation on the system: the calls it makes, the system it
    leaves, and how it ends. *)
Definition Sys (A : Type) : Type := World -> list Call * World * Res A.

Definition sys_ret {A} (a : A) : Sys A := fun w => ([], w, Ok a).

Definition sys_bind {A B} (m : Sys A) (k : A -> Sys B) : Sys B :=
  fun w =>
    match m w with
    | (calls, w', Ok a) => let '(calls', w'', r) := k a w' in (calls ++ calls', w'', r)
    | (calls, w', Fail e) => (calls, w', Fail e)
    | (calls, w', Panic msg) => (calls, w', Panic msg)
    end.

(** A call that returns [(T, error)], and one that returns [error];
    [if err != nil { return err }] follows each of them. *)
Definition ask {A} (c : Call) (op : World -> World * (error + A)) : Sys A :=
  fun w =>
    match op w with
    | (w', inl err) => ([c], w', Fail err)
    | (w', inr a) => ([c], w', Ok a)
    end.

Definition tell (c : Call) (op : World -> World * option error) : Sys unit :=
  fun w =>
    match op w with
    | (w', Some err) => ([c], w', Fail err)
    | (w', None) => ([c], w', Ok tt)
    end.

Definition info (text : string) : Sys unit := fun w => ([Info text], w, Ok tt).

(** A pure step that fails or panics. *)
Definition now {A} (r : Res A) : Sys A := fun w => ([], w, r).

End Daemon.

Notation "'let*' x ':=' m 'in' k" := (sys_bind m (fun x => k))
  (at level 10, x name, m at level 100, k at level 200, only parsing).

(** [m[key].(map[string]interface{})]: a type assertion without the
    second result panics when the value is of another type or missing. *)
Definition assert_map (m : gmap string Any) (key : string) : Res (gmap string Any) :=
  match m !! key with
  | Some (AMap fields) => Ok fields
  | Some v =>
      Panic ("interface conversion: interface {} is " +:+ type_name v
             +:+ ", not map[string]interface {}")
  | None => Panic "interface conversion: interface {} is nil, not map[string]interface {}"
  end.

Record NEARDaemon := {
  head : string
}.

Section Setup.
Context `{Host}.

Definition build (release : bool) : Sys unit :=
  let args := ["build";
               "--package"; "neard";
               "--features"; "protocol_feature_evm,nightly_protocol_features"] in
  let args := if release then args ++ ["--release"] else args in
  tell (Run "cargo" args) (fun w => cmd_Run w "cargo" args).

Definition initDaemon (release : bool) (localDir : string) : Sys unit :=
  let name := if release
              then filepath_Join ["."; "target"; "release"; "neard"]
              else filepath_Join ["."; "target"; "debug"; "neard"] in
  let args := ["--home=" +:+ localDir; "--verbose=true"; "init"] in
  tell (Run name args) (fun w => cmd_Run w name args).

(** [editGenesis(localDir)].  The three maps are references into
    [jsn], so the two assignments change [jsn] itself. *)
Definition editGenesis (localDir : string) : Sys unit :=
  let filename := filepath_Join [localDir; "genesis.json"] in
  let backup := filepath_Join [localDir; "genesis_old.json"] in
  let* _ := tell (Copy filename backup) (fun w => file_Copy w filename backup) in
  (* read file *)
  let* data := ask (ReadFile filename) (fun w => os_ReadFile w filename) in
  (* unmarshal *)
  let* jsn := now (match json_Unmarshal data with
                   | inl err => Fail err
                   | inr jsn => Ok jsn
                   end) in
  (* "runtime_config" -> "wasm_config" -> "limit_config" *)
  let* runtimeConfig := now (assert_map jsn "runtime_config") in
  let* wasmConfig := now (assert_map runtimeConfig "wasm_config") in
  let* limitConfig := now (assert_map wasmConfig "limit_config") in
  (* change default values *)
  let limitConfig := <["max_gas_burnt" := AInt 800000000000000]> limitConfig in
  let limitConfig := <["max_total_prepaid_gas" := AInt 800000000000000]> limitConfig in
  let wasmConfig := <["limit_config" := AMap limitConfig]> wasmConfig in
  let runtimeConfig := <["wasm_config" := AMap wasmConfig]> runtimeConfig in
  let jsn := <["runtime_config" := AMap runtimeConfig]> jsn in
  (* marshal *)
  let* data := now (match json_MarshalIndent jsn with
                    | inl err => Fail err
                    | inr data => Ok data
                    end) in
  (* write file *)
  tell (WriteFile filename data 420) (fun w => os_WriteFile w filename data 420 (* 0644 *)).

Definition Setup (release : bool) : Sys NEARDaemon :=
  let* _ := info "setup neard" in
  (* get cwd *)
  let* cwd := ask Getwd os_Getwd in
  (* switch to nearcore directory *)
  let nearDir := filepath_Join [cwd; ".."; "nearcore"] in
  let* _ := tell (Chdir nearDir) (fun w => os_Chdir w nearDir) in
  (* get current HEAD *)
  let* head := ask Head git_Head in
  let* _ := info (Sprintf "head=%s" [ArgStr head]) in
  (* backup .near/local, if it exists *)
  let* home := ask UserHomeDir os_UserHomeDir in
  let localDir := filepath_Join [home; ".near"; "local"] in
  let* exists_ := ask (Exists localDir) (fun w => file_Exists w localDir) in
  let* _ := (if exists_ : bool
      then
        let localOld := localDir +:+ "_old" in
        let* _ := info (Sprintf "mv %s %s" [ArgStr localDir; ArgStr localOld]) in
        (* remove old backup directory *)
        let* _ := tell (RemoveAll localOld) (fun w => os_RemoveAll w localOld) in
        (* move *)
        tell (Rename localDir localOld) (fun w => os_Rename w localDir localOld)
      else
        info (Sprintf "directory '%s' does not exist" [ArgStr localDir])) in
  (* make sure neard is build *)
  let* _ := build release in
  (* initialize neard *)
  let* _ := initDaemon release localDir in
  (* edit genesis.json *)
  let* _ := editGenesis localDir in
  (* switch back to original directory *)
  let* _ := tell (Chdir cwd) (fun w => os_Chdir w cwd) in
  sys_ret {| head := head |}.

Definition Stop (n : NEARDaemon) : Sys unit := info "stop neard".

End Setup.

(** The value found by following [path] from [v] through nested maps. *)
Fixpoint get_path (path : list string) (v : Any) : option Any :=
  match path with
  | [] => Some v
  | key :: path' =>
      match v with
      | AMap fields =>
          match fields !! key with
          | Some v' => get_path path' v'
          | None => None
          end
      | _ => None
      end
  end.

(** Where [genesis.json] keeps the limits. *)
Definition limit_config : list string :=
  ["runtime_config"; "wasm_config"; "limit_config"].

(** A path that neither leads to one of the two limits nor passes
    through them or above them. *)
Definition untouched (path : list string) : Prop :=
  forall key, key = "max_gas_burnt" \/ key = "max_total_prepaid_gas" ->
    ~ path `prefix_of` limit_config ++ [key]
    /\ ~ (limit_config ++ [key]) `prefix_of` path.

(** The calls, the system left and the outcome of a run. *)
Definition calls `{Host} {A} (run : list Call * World * Res A) : list Call := fst (fst run).
Definition world `{Host} {A} (run : list Call * World * Res A) : World := snd (fst run).
Definition outcome `{Host} {A} (run : list Call * World * Res A) : Res A := snd run.

(** The profile cargo builds and the directory it builds into. *)
Definition profile (release : bool) : string := if release then "release" else "debug".

End neard.

(* ================================================================== *)
(** * Vocabulary of the design document *)

(** ** Chain Indexer *)

(** The sequence the document describes: read the parent hash, step one
    height down, repeat until height 0.  Highest block first. *)
Fixpoint parent_walk (db : Database) (b : Block) (n : nat) : list Hash :=
  match n with
  | O => []
  | S n' =>
      ParentHash b ::
      match ReadBlock db (ParentHash b) (Z.of_nat n') with
      | Some parent => parent_walk db parent n'
      | None => []
      end
  end.

(** Block [b] at height [n] has its ancestors stored down to height 0. *)
Fixpoint linked (db : Database) (b : Block) (n : nat) : Prop :=
  match n with
  | O => True
  | S n' =>
      exists parent, ReadBlock db (ParentHash b) (Z.of_nat n') = Some parent
                     /\ linked db parent n'
  end.

(** A block is identified by its hash: the database holds a hash under
    one number only. *)
Definition hash_names_height (db : Database) : Prop :=
  forall (h : Hash) (n m : N), is_Some (db !! (n, h)) -> is_Some (db !! (m, h)) -> n = m.

(** A chain of height [H] with a valid parent-pointer chain to genesis. *)
Record ValidChain (db : Database) (b : Block) (H : Z) : Prop := {
  height_in_range : 0 <= H < 2 ^ 64;
  ancestors_stored : linked db b (Z.to_nat H);
  hashes_name_heights : hash_names_height db
}.

(** ** Replay steps *)

(** The three cases of a replay step, told apart as the consumer does:
    [Error] first, then [MethodName]. *)
Inductive StepKind := KError | KSubmission | KComment.

Definition kind (t : Tx) : StepKind :=
  match Error t with
  | Some _ => KError
  | None => if nonempty (MethodName t) then KSubmission else KComment
  end.

(** The order on (block height, transaction index) pairs. *)
Definition lex_lt (p q : Z * Z) : Prop :=
  fst p < fst q \/ (fst p = fst q /\ snd p < snd q).
Definition lex_le (p q : Z * Z) : Prop :=
  fst p < fst q \/ (fst p = fst q /\ snd p <= snd q).

(** The block height a value was sent at, if it was sent in the loop. *)
Definition origin_height (o : Origin) : option Z :=
  match o with
  | AtGenesis => None
  | AtBlock h => Some h
  | AtTx h _ => Some h
  end.



(** The configuration [r] with its batching flag set to [batch]. *)
Definition with_Batch (batch : bool) (r : Replayer) : Replayer :=
  {| Gas := Gas r; Testnet := Testnet r; Skip := Skip r; Batch := batch;
     BatchSize := BatchSize r; StartBlock := StartBlock r; StartTx := StartTx r;
     BreakBlock := BreakBlock r; BreakTx := BreakTx r |}.

(** The collaborators cannot fail on this chain: every block the
    generator asks for is stored, has a context and encodes. *)
Record Flawless `{Collaborators} (r : Replayer) (db : Database) (blocks : list Hash)
  : Prop := {
  blocks_stored :
    forall j hash, blocks !! j = Some hash -> StartBlock r <= Z.of_nat j ->
      is_Some (ReadBlock db hash (uint64_wrap (Z.of_nat j)));
  contexts_exist : forall b, exists ctx, getBlockContext b = inr ctx;
  transactions_encode : forall tx, exists rlp, MarshalBinary tx = inr rlp
}.

(** ** Physical submissions *)

(** The batches a run hands to the ledger, in order. *)
Fixpoint sent_batches (evs : list Event) : list (list Action) :=
  match evs with
  | [] => []
  | SendTransaction _ actions :: evs' => actions :: sent_batches evs'
  | _ :: evs' => sent_batches evs'
  end.

(** The single calls a run makes, in order. *)
Fixpoint single_calls (evs : list Event) : list (string * bytes) :=
  match evs with
  | [] => []
  | CallFunction _ method args _ _ :: evs' => (method, args) :: single_calls evs'
  | _ :: evs' => single_calls evs'
  end.

(** The steps of a stream that ask for a submission. *)
Definition submissions (c : list Tx) : list Tx :=
  List.filter (fun t => nonempty (MethodName t)) c.

(** What the consumer may do with the configured gas: a single call
    carries all of it and no deposit, a batched action carries its share
    and no deposit. *)
Definition action_funded (r : Replayer) (act : Action) : Prop :=
  Enum act = 2
  /\ fc_Gas (action_FunctionCall act) = Gas r / uint64_wrap (BatchSize r)
  /\ fc_Deposit (action_FunctionCall act) = 0.

Definition event_funded (r : Replayer) (ev : Event) : Prop :=
  match ev with
  | CallFunction _ _ _ gas deposit => Batch r = false /\ gas = Gas r /\ deposit = 0
  | SendTransaction _ actions => Batch r = true /\ Forall (action_funded r) actions
  | _ => True
  end.

(** The batch under construction holds funded actions, and is empty
    when batching is off. *)
Definition batch_funded (r : Replayer) (batch : list Action) : Prop :=
  Forall (action_funded r) batch /\ (Batch r = false -> batch = []).

(** A response the Result Verifier lets pass. *)
Definition passes `{Collaborators} (txResult : Payload) : Prop :=
  forall batch tx, snd (procTxResult batch tx txResult) = Ok tt.

(** A batch handed to the ledger during the loop is a full one. *)
Definition full_batches (r : Replayer) (ev : Event) : Prop :=
  match ev with
  | SendTransaction _ actions => len actions = BatchSize r
  | _ => True
  end.

(** The ledger takes every batch and answers with a response that
    passes the Result Verifier. *)
Definition ledger_accepts `{Collaborators} `{LedgerClient} (evmContract : string) : Prop :=
  forall ledger actions,
    exists ledger' txResult,
      Account_SignAndSendTransaction ledger evmContract actions = (ledger', inr txResult)
      /\ passes txResult.

(** A computation that writes to standard output and does nothing else. *)
Definition stdout_only {A} (m : M A) : Prop :=
  Forall (fun ev => exists text, ev = Stdout text) (fst m).

(** The end of [Replay]: process last batch, if not empty. *)
Definition last_batch `{Collaborators} `{LedgerClient} (r : Replayer)
    (evmContract : string) (ledger : Ledger) (batch : list Action) : M unit :=
  if 0 <? len batch
  then
    emit (Println "running last batch") >>
    answer <- SignAndSendTransactionM evmContract ledger batch ;;
    procTxResult (Batch r) None (snd answer)
  else ret tt.

(** ** Result Verifier *)

(** The decoded fields of a source transaction, as [showTx] prints them:
    the encoded transaction, nonce, gas price, gas limit, recipient or
    contract creation, value, and the payload when there is one. *)
Definition transaction_dump `{Collaborators} (tx : Transaction) : list Event :=
  match MarshalBinary tx with
  | inl _ => []
  | inr rlp =>
      [Println "transaction:";
       Println ("0x" +:+ EncodeToString rlp);
       Printf ("nonce: %d" +:+ nl) [ArgInt (Nonce tx)];
       Printf ("gasPrice: %s" +:+ nl) [ArgStr (decimal (GasPrice tx))];
       Printf ("gasLimit: %d" +:+ nl) [ArgInt (TxGas tx)];
       match To tx with
       | Some to => Printf ("to: 0x%s" +:+ nl) [ArgStr (EncodeToString to)]
       | None => Println "to: contract creation"
       end;
       Printf ("value: %s" +:+ nl) [ArgStr (decimal (Value tx))]]
      ++ (if 0 <? len (Data tx)
          then [Println "data:"; Println ("0x" +:+ EncodeToString (Data tx))]
          else [])
  end.

(** The transaction identifier of a response: the string under [hash]
    in the map under [transaction], when the response has one and it is
    not empty. *)
Definition transaction_identifier (txResult : Payload) : option string :=
  match txResult !! "transaction" with
  | Some (JObject transaction) =>
      match transaction !! "hash" with
      | Some (JString hash) => if String.eqb hash "" then None else Some hash
      | _ => None
      end
  | _ => None
  end.

(** The line with the transaction identifier, when the response has one. *)
Definition transaction_id_line (txResult : Payload) : list Event :=
  match transaction_identifier txResult with
  | Some id => [Stdout ("Transaction Id " +:+ id +:+ nl)]
  | None => []
  end.

(** [SubmissionFailed]. *)
Definition SubmissionFailed : error := errors_New "replayer: transaction failed".

(** [RetryExhausted]. *)
Definition RetryExhausted : error := errors_New "utils: exponential backoff failed".

(** ** Retry Helper *)

(** The remote side before attempt [k] (counted from 0), what attempt
    [k] returns, and the wait time in force at attempt [k]. *)
Fixpoint remote_at `{GetResult} (k : nat) (remote : Remote) : Remote :=
  match k with
  | O => remote
  | S k' => remote_at k' (fst (fn remote))
  end.

Definition attempt `{GetResult} (k : nat) (remote : Remote) : error + Payload :=
  snd (fn (remote_at k remote)).

Fixpoint wait_at (k : nat) (startWaitTime : Z) (waitBackoff : float) : Z :=
  match k with
  | O => startWaitTime
  | S k' => wait_at k' (backoff startWaitTime waitBackoff) waitBackoff
  end.

(** What a failed attempt [k] leaves behind: the call, the error on
    standard output, the sleep. *)
Definition failed_attempt `{GetResult} (startWaitTime : Z) (waitBackoff : float)
    (remote : Remote) (k : nat) : list Event :=
  [Invoke;
   Println (match attempt k remote with inl err => error_text err | inr _ => "" end);
   Sleep (milliseconds (wait_at k startWaitTime waitBackoff))].

(** How often the operation was called. *)
Fixpoint invocations (evs : list Event) : nat :=
  match evs with
  | [] => O
  | Invoke :: evs' => S (invocations evs')
  | _ :: evs' => invocations evs'
  end.

(* ================================================================== *)
(** * Further vocabulary *)

(** The order in which the two loops get to their places: the step for
    genesis, then block by block, a block's own step before the steps
    of its transactions. *)
Definition origin_lt (o1 o2 : Origin) : Prop :=
  match o1, o2 with
  | _, AtGenesis => False
  | AtGenesis, _ => True
  | AtBlock h1, AtBlock h2 => h1 < h2
  | AtBlock h1, AtTx h2 _ => h1 <= h2
  | AtTx h1 _, AtBlock h2 => h1 < h2
  | AtTx h1 i1, AtTx h2 i2 => lex_lt (h1, i1) (h2, i2)
  end.

(** What the generator sends for a block it has read. *)
Definition blockStep `{Collaborators} (r : Replayer) (a : Account)
    (evmContract : string) (blockHeight : Z) (b : Block) (ctx : BlockContext) : Tx :=
  if negb (Skip r) || (0 <? len (Transactions b))
  then beginBlockTx a evmContract (Gas r) ctx
  else commentTx (Sprintf "begin_block() skipped for empty block %d" [ArgInt blockHeight]).

(** The call a submission step asks for. *)
Definition call_of (t : Tx) : string * bytes := (MethodName t, Args t).

(** The ledger takes every single call and answers with a response that
    passes the Result Verifier. *)
Definition ledger_answers `{Collaborators} `{LedgerClient} (evmContract : string) : Prop :=
  forall ledger method args gas deposit,
    exists ledger' txResult,
      Account_FunctionCall ledger evmContract method args gas deposit
      = (ledger', inr txResult)
      /\ passes txResult.

(** The lines the consumer prints for steps that are comments. *)
Definition comment_lines (c : list Tx) : list Event :=
  map Println (List.filter nonempty (map Comment c)).

(** The blocks the walk of the Chain Indexer reads, highest first. *)
Fixpoint ancestors (db : Database) (b : Block) (n : nat) : list Block :=
  match n with
  | O => []
  | S n' =>
      match ReadBlock db (ParentHash b) (Z.of_nat n') with
      | Some parent => parent :: ancestors db parent n'
      | None => []
      end
  end.

(** The number of transactions in a list of blocks. *)
Definition transaction_count (bs : list Block) : Z :=
  foldr (fun blk total => len (Transactions blk) + total) 0 bs.

(** The line the Chain Indexer logs for a block it has read. *)
Definition read_line (blockHeight : Z) (blockHash : Hash) : Event :=
  LogInfo (Sprintf "read block at height %d with hash %s"
             [ArgInt blockHeight; ArgStr (Hash_Hex blockHash)]).

(** A factor that is a number: neither an infinity nor a NaN. *)
Definition finite (x : float) : Prop :=
  match Prim2SF x with
  | S754_zero _ | S754_finite _ _ _ => True
  | S754_infinity _ | S754_nan => False
  end.

(** Why the generator stops on an error step: a block of the list is
    not in the database, *)
Definition unreadable (r : Replayer) (db : Database) (blocks : list Hash) (e : error)
  : Prop :=
  exists j hash,
    blocks !! j = Some hash
    /\ StartBlock r <= Z.of_nat j
    /\ ReadBlock db hash (uint64_wrap (Z.of_nat j)) = None
    /\ e = Errorf "cannot read block at height %d with hash %s"
             [ArgInt (Z.of_nat j); ArgStr (Hash_Hex hash)].

(** or a collaborator returned the error for a block that was read: the
    block context, the encoder of a transaction, the formatter of the
    gas amount. *)
Definition collaborator_failed `{Collaborators} (r : Replayer) (db : Database)
    (blocks : list Hash) (e : error) : Prop :=
  exists j hash blk,
    blocks !! j = Some hash
    /\ ReadBlock db hash (uint64_wrap (Z.of_nat j)) = Some blk
    /\ (getBlockContext blk = inl e
        \/ (exists tx, In tx (Transactions blk) /\ MarshalBinary tx = inl e)
        \/ FormatNearAmount (FormatUint (Gas r / uint64_wrap (BatchSize r))) = inl e).

(** The commands a run of the daemon's setup executes, its changes of
    directory, and what it removes or renames. *)
Definition commands (cs : list neard.Call) : list neard.Call :=
  List.filter (fun c => match c with neard.Run _ _ => true | _ => false end) cs.

Definition directory_changes (cs : list neard.Call) : list neard.Call :=
  List.filter (fun c => match c with neard.Chdir _ => true | _ => false end) cs.

Definition removals (cs : list neard.Call) : list neard.Call :=
  List.filter
    (fun c => match c with neard.RemoveAll _ | neard.Rename _ _ => true | _ => false end)
    cs.

(** The arguments [cargo] is run with. *)
Definition cargo_args (release : bool) : list string :=
  ["build"; "--package"; "neard";
   "--features"; "protocol_feature_evm,nightly_protocol_features"]
  ++ (if release then ["--release"] else []).

(* ================================================================== *)
(** * A small chain, a configuration and collaborators to run the
      definitions on *)

Definition tx_a : Transaction :=
  {| Nonce := 7; GasPrice := 20; TxGas := 21000; To := None; Value := 5;
     Data := [Byte.x60; Byte.x80] |}.
Definition tx_b : Transaction :=
  {| Nonce := 8; GasPrice := 20; TxGas := 21000; To := Some [Byte.xca; Byte.xfe];
     Value := 0; Data := [] |}.
Definition tx_c : Transaction :=
  {| Nonce := 9; GasPrice := 21; TxGas := 50000; To := Some [Byte.xbe; Byte.xef];
     Value := 1; Data := [Byte.x01] |}.

(** Genesis (hash 10, empty), its child (hash 11, two transactions), the
    block at height 2 (hash 12, one transaction), and the block at
    height 3 that indexing starts from. *)
Definition block0 : Block := {| ParentHash := 0%N; Transactions := [] |}.
Definition block1 : Block := {| ParentHash := 10%N; Transactions := [tx_a; tx_b] |}.
Definition block2 : Block := {| ParentHash := 11%N; Transactions := [tx_c] |}.
Definition block3 : Block := {| ParentHash := 12%N; Transactions := [] |}.
Definition chain3 : Database :=
  <[(2%N, 12%N) := block2]> (<[(1%N, 11%N) := block1]> (<[(0%N, 10%N) := block0]> ∅)).
Definition hashes3 : list Hash := [10%N; 11%N; 12%N].

Definition plain_tx (method comment : string) : Tx :=
  {| Comment := comment; Error := None; MethodName := method; Args := [];
     EthTx := None |}.

(** Collaborators that never fail; the encoding of a transaction is its
    payload, an amount is printed as it is given. *)
Definition sample_collaborators : Collaborators :=
  {| Account := unit;
     Genesis := unit;
     BlockContext := unit;
     getGenesisBlock := fun _ => tt;
     beginChainTx := fun _ _ _ _ => plain_tx "begin_chain" "begin_chain()";
     getBlockContext := fun _ => inr tt;
     beginBlockTx := fun _ _ _ _ => plain_tx "begin_block" "begin_block()";
     MarshalBinary := fun tx => inr (Data tx);
     FormatNearAmount := fun s => inr s;
     MarshalIndent := fun _ => inr "{}" |}.

Definition ok_response : Payload :=
  <["status" := JObject (<["SuccessValue" := JString "ok"]> ∅)]>
    (<["transaction" := JObject (<["hash" := JString "9xQn"]> ∅)]> ∅).
Definition failure_status : gmap string JSON := <["Failure" := JString "ActionError"]> ∅.
Definition failed_response : Payload := <["status" := JObject failure_status]> ∅.
Definition odd_response : Payload := <["status" := JString "done"]> ∅.

(** A ledger that counts the calls and accepts each of them. *)
Definition sample_ledger : LedgerClient :=
  {| Ledger := nat;
     Account_FunctionCall := fun n _ _ _ _ _ => (S n, inr ok_response);
     Account_SignAndSendTransaction := fun n _ _ => (S n, inr ok_response) |}.

(** A ledger that reports a failure for every call. *)
Definition failing_ledger : LedgerClient :=
  {| Ledger := nat;
     Account_FunctionCall := fun n _ _ _ _ _ => (S n, inr failed_response);
     Account_SignAndSendTransaction := fun n _ _ => (S n, inr failed_response) |}.

(** A read that times out twice and then answers. *)
Definition flaky_read : GetResult :=
  {| Remote := nat;
     fn := fun n => (S n, if (n <? 2)%nat then inl (external "timeout")
                          else inr ok_response) |}.

Definition config (batch : bool) (batchSize startBlock startTx breakBlock breakTx : Z)
  : Replayer :=
  {| Gas := 300000000000000; Testnet := "goerli"; Skip := true; Batch := batch;
     BatchSize := batchSize; StartBlock := startBlock; StartTx := startTx;
     BreakBlock := breakBlock; BreakTx := breakTx |}.

(* ================================================================== *)
(** * Further samples: a gap in the chain, failing collaborators, a
      genesis file *)

(** The small chain without its block at height 1. *)
Definition gap_chain : Database := delete (1%N, 11%N) chain3.

(** The small chain without its genesis block. *)
Definition headless_chain : Database := delete (0%N, 10%N) chain3.

(** Collaborators whose encoders fail. *)
Definition failing_encoders : Collaborators :=
  {| Account := unit;
     Genesis := unit;
     BlockContext := unit;
     getGenesisBlock := fun _ => tt;
     beginChainTx := fun _ _ _ _ => plain_tx "begin_chain" "begin_chain()";
     getBlockContext := fun _ => inr tt;
     beginBlockTx := fun _ _ _ _ => plain_tx "begin_block" "begin_block()";
     MarshalBinary := fun _ => inl (external "rlp: value too large");
     FormatNearAmount := fun s => inr s;
     MarshalIndent := fun _ => inl (external "json: unsupported value") |}.

(** Collaborators that encode a transaction but not a status. *)
Definition failing_status_encoder : Collaborators :=
  {| Account := unit;
     Genesis := unit;
     BlockContext := unit;
     getGenesisBlock := fun _ => tt;
     beginChainTx := fun _ _ _ _ => plain_tx "begin_chain" "begin_chain()";
     getBlockContext := fun _ => inr tt;
     beginBlockTx := fun _ _ _ _ => plain_tx "begin_block" "begin_block()";
     MarshalBinary := fun tx => inr (Data tx);
     FormatNearAmount := fun s => inr s;
     MarshalIndent := fun _ => inl (external "json: unsupported value") |}.

(** Collaborators that encode a status but not a transaction. *)
Definition failing_tx_encoder : Collaborators :=
  {| Account := unit;
     Genesis := unit;
     BlockContext := unit;
     getGenesisBlock := fun _ => tt;
     beginChainTx := fun _ _ _ _ => plain_tx "begin_chain" "begin_chain()";
     getBlockContext := fun _ => inr tt;
     beginBlockTx := fun _ _ _ _ => plain_tx "begin_block" "begin_block()";
     MarshalBinary := fun _ => inl (external "rlp: value too large");
     FormatNearAmount := fun s => inr s;
     MarshalIndent := fun _ => inr "{}" |}.

(** A ledger that cannot be reached. *)
Definition unreachable_ledger : LedgerClient :=
  {| Ledger := nat;
     Account_FunctionCall :=
       fun n _ _ _ _ _ => (S n, inl (external "connection refused"));
     Account_SignAndSendTransaction :=
       fun n _ _ => (S n, inl (external "connection refused")) |}.

(** A read that never answers. *)
Definition dead_read : GetResult :=
  {| Remote := nat;
     fn := fun n => (S n, inl (external "timeout")) |}.

(** A key of 32 bytes. *)
Definition sample_key : bytes := replicate 31 Byte.x2a ++ [Byte.x07].

(** A genesis as it is decoded, with limits and without. *)
Definition sample_genesis : gmap string neard.Any :=
  <["runtime_config" :=
      neard.AMap
        (<["wasm_config" :=
             neard.AMap
               (<["limit_config" :=
                    neard.AMap
                      (<["max_gas_burnt" := neard.AFloat64 200000000000000%float]>
                         (<["max_stack_height" := neard.AFloat64 16384%float]> ∅))]>
                  (<["grow_mem_cost" := neard.AFloat64 1%float]> ∅))]> ∅)]>
    (<["chain_id" := neard.AString "local"]> ∅).

Definition bare_genesis : gmap string neard.Any :=
  <["chain_id" := neard.AString "local"]> ∅.

(** [filepath.Clean] on a system whose separator is the slash: empty
    elements and [.] are dropped, [..] takes the element before it away,
    or stays at the front of a path that is not rooted; an empty result
    reads [.]. *)
Definition clean_elements (rooted : bool) (elems : list string) : list string :=
  rev (fold_left
         (fun kept elem =>
            if String.eqb elem "" || String.eqb elem "." then kept
            else if String.eqb elem ".."
                 then match kept with
                      | [] => if rooted then [] else [".."]
                      | top :: below =>
                          if String.eqb top ".." then ".." :: kept else below
                      end
                 else elem :: kept)
         elems []).

Definition path_Clean (path : string) : string :=
  let rooted := String.prefix "/" path in
  let body := String.concat "/" (clean_elements rooted (Split path "/")) in
  if rooted then "/" +:+ body
  else if String.eqb body "" then "." else body.

(** [filepath.Join]: empty elements are ignored, the rest is joined and
    cleaned; no element at all gives the empty string. *)
Definition path_Join (elems : list string) : string :=
  match List.filter nonempty elems with
  | [] => ""
  | elems => path_Clean (String.concat "/" elems)
  end.

(** A system whose files are a map from names to contents: a directory
    exists when its [genesis.json] does, [cargo] builds nothing that is
    seen, and [neard init] writes an empty genesis into its home.  The
    decoders yield the genesis given. *)
Definition sample_host (decoded : gmap string neard.Any) : neard.Host :=
  {| neard.World := gmap string bytes;
     neard.filepath_Join := path_Join;
     neard.os_Getwd := fun w => (w, inr "/home/near/evm-bully");
     neard.os_Chdir := fun w _ => (w, None);
     neard.git_Head := fun w => (w, inr "4f2c1a9");
     neard.os_UserHomeDir := fun w => (w, inr "/home/near");
     neard.file_Exists :=
       fun w path => (w, inr (bool_decide (is_Some (w !! (path +:+ "/genesis.json")))));
     neard.os_RemoveAll :=
       fun w path =>
         (delete (path +:+ "/genesis.json") (delete (path +:+ "/genesis_old.json") w),
          None);
     neard.os_Rename :=
       fun w oldpath newpath =>
         match w !! (oldpath +:+ "/genesis.json") with
         | Some data =>
             (<[newpath +:+ "/genesis.json" := data]>
                (delete (oldpath +:+ "/genesis.json") w), None)
         | None => (w, Some (external "no such file or directory"))
         end;
     neard.cmd_Run :=
       fun w name args =>
         match args with
         | [home; _; "init"] =>
             (<[String.substring 7 (String.length home - 7) home +:+ "/genesis.json" :=
                  [Byte.x7b; Byte.x7d]]> w, None)
         | _ => (w, None)
         end;
     neard.file_Copy :=
       fun w src dst =>
         match w !! src with
         | Some data => (<[dst := data]> w, None)
         | None => (w, Some (external "no such file or directory"))
         end;
     neard.os_ReadFile :=
       fun w name =>
         match w !! name with
         | Some data => (w, inr data)
         | None => (w, inl (external "no such file or directory"))
         end;
     neard.os_WriteFile := fun w name data _ => (<[name := data]> w, None);
     neard.json_Unmarshal := fun _ => inr decoded;
     neard.json_MarshalIndent := fun _ => inr [Byte.x7b; Byte.x7d] |}.

Definition sample_files : gmap string bytes :=
  <["/home/near/.near/local/genesis.json" := [Byte.x7b; Byte.x7d]]> ∅.

(* ================================================================== *)
(** * Proof automation *)

(** Case analysis following the branches of the loop over transactions. *)
Ltac tx_cases r :=
  cbn [txLoop] in *;
  destruct (negb (BreakBlock r =? 0) && (_ =? BreakBlock r) && (_ =? BreakTx r))
    eqn:Hbreak;
  [| destruct ((_ =? StartBlock r) && (_ <? StartTx r)) eqn:Hskip;
     [| destruct (MarshalBinary _) as [err|rlp] eqn:Hrlp;
        [| destruct (uint64_wrap (BatchSize r) =? 0) eqn:Hdiv;
           [| destruct (FormatNearAmount _) as [err|amount] eqn:Hfmt]]]];
  cbn [send fst snd] in *.

(** Case analysis following the branches of the loop over blocks. *)
Ltac block_cases r db :=
  cbn [blockLoop] in *;
  destruct (negb (BreakBlock r =? 0) && (BreakTx r =? 0) && (_ =? BreakBlock r))
    eqn:Hbreak;
  [| destruct (_ <? StartBlock r) eqn:Hskip;
     [| destruct (ReadBlock db _ _) as [b|] eqn:Hread;
        [ destruct (getBlockContext b) as [err|ctx] eqn:Hctx;
          [| destruct (txLoop r _ 0 (Transactions b)) as [sent [| | |msg]] eqn:Hloop]
        |]]];
  cbn [send fst snd] in *.

(* ################################################################## *)
(** * Part II: theorems *)

(* ================================================================== *)
(** * The Chain Indexer returns the ancestry in ascending order *)

Lemma swap_ends (pre mid post : list Hash) (x y : Hash) :
  swap (pre ++ x :: mid ++ y :: post) (length pre) (length pre + S (length mid))
  = pre ++ y :: mid ++ x :: post.
Proof.
  unfold swap.
  rewrite list_lookup_middle by reflexivity.
  replace (pre ++ x :: mid ++ y :: post) with ((pre ++ x :: mid) ++ y :: post)
    by (rewrite <- app_assoc; reflexivity).
  rewrite list_lookup_middle by (rewrite length_app; simpl; lia).
  rewrite insert_app_r_alt by (rewrite length_app; simpl; lia).
  replace (length pre + S (length mid) - length (pre ++ x :: mid))%nat with 0%nat
    by (rewrite length_app; simpl; lia).
  simpl.
  rewrite <- app_assoc. simpl.
  rewrite insert_app_r_alt by lia.
  rewrite Nat.sub_diag. simpl. reflexivity.
Qed.

Lemma reverse_loop_spec (fuel : nat) :
  forall pre mid post : list Hash,
    (length mid <= fuel)%nat ->
    reverse_loop fuel (len pre) (len pre + len mid - 1) (pre ++ mid ++ post)
    = pre ++ reverse mid ++ post.
Proof.
  induction fuel as [|fuel IH]; intros pre mid post Hfuel.
  - destruct mid; [reflexivity | simpl in Hfuel; lia].
  - cbn [reverse_loop]. destruct mid as [|x mid].
    + rewrite (proj2 (Z.ltb_ge _ _)) by (unfold len; simpl; lia). reflexivity.
    + destruct mid as [|y mid' _] using rev_ind.
      * rewrite (proj2 (Z.ltb_ge _ _)) by (unfold len; simpl; lia). reflexivity.
      * rewrite (proj2 (Z.ltb_lt _ _))
          by (unfold len; rewrite length_cons, length_app; simpl; lia).
        replace (Z.to_nat (len pre)) with (length pre) by (unfold len; lia).
        replace (Z.to_nat (len pre + len (x :: mid' ++ [y]) - 1))
          with (length pre + S (length mid'))%nat
          by (unfold len; rewrite length_cons, length_app; simpl; lia).
        replace (pre ++ (x :: mid' ++ [y]) ++ post)
          with (pre ++ x :: mid' ++ y :: post)
          by (simpl; rewrite <- app_assoc; reflexivity).
        rewrite swap_ends.
        replace (len pre + 1) with (len (pre ++ [y]))
          by (unfold len; rewrite length_app; simpl; lia).
        replace (len pre + len (x :: mid' ++ [y]) - 1 - 1)
          with (len (pre ++ [y]) + len mid' - 1)
          by (unfold len; rewrite length_cons, !length_app; simpl; lia).
        replace (pre ++ y :: mid' ++ x :: post) with ((pre ++ [y]) ++ mid' ++ x :: post)
          by (rewrite <- app_assoc; reflexivity).
        rewrite IH by (rewrite length_cons, length_app in Hfuel; simpl in Hfuel; lia).
        rewrite reverse_cons, reverse_app. simpl.
        rewrite <- !app_assoc. reflexivity.
Qed.

Lemma reverse_blocks_reverse (blocks : list Hash) : reverse_blocks blocks = reverse blocks.
Proof.
  unfold reverse_blocks.
  pose proof (reverse_loop_spec (length blocks) [] blocks [] (le_n _)) as Hspec.
  rewrite !app_nil_r in Hspec. simpl in Hspec. exact Hspec.
Qed.

Lemma traverse_loop_linked (db : Database) (n : nat) :
  forall b blocks txCount,
    linked db b n ->
    exists evs total,
      traverse_loop db n b blocks txCount
      = (evs, Ok (blocks ++ parent_walk db b n, total)).
Proof.
  induction n as [|n IH]; intros b blocks txCount Hl.
  - exists [], txCount. simpl. rewrite app_nil_r. reflexivity.
  - destruct Hl as (parent & Hread & Hl). simpl. rewrite Hread.
    destruct (IH parent (blocks ++ [ParentHash b])
                (uint64_wrap (txCount + len (Transactions parent))) Hl)
      as (evs & total & ->).
    eexists _, total. simpl. rewrite <- app_assoc. reflexivity.
Qed.

Lemma parent_walk_length db n : forall b, linked db b n -> length (parent_walk db b n) = n.
Proof.
  induction n as [|n IH]; intros b Hl; [reflexivity|].
  destruct Hl as (parent & Hread & Hl). simpl. rewrite Hread. f_equal. auto.
Qed.

(** Position [j] of the walk holds a hash stored at height [n - 1 - j]. *)
Lemma parent_walk_stored db n :
  forall b j h, linked db b n -> parent_walk db b n !! j = Some h ->
    (j < n)%nat /\ is_Some (ReadBlock db h (Z.of_nat (n - 1 - j))).
Proof.
  induction n as [|n IH]; intros b j h Hl Hj; [discriminate|].
  destruct Hl as (parent & Hread & Hl). simpl in Hj. rewrite Hread in Hj.
  destruct j as [|j].
  - injection Hj as <-. split; [lia|].
    replace (S n - 1 - 0)%nat with n by lia. rewrite Hread. eauto.
  - simpl in Hj. destruct (IH parent j h Hl Hj) as [Hlt Hs]. split; [lia|].
    replace (S n - 1 - S j)%nat with (n - 1 - j)%nat by lia. exact Hs.
Qed.

(** The block stored under position [j] of the walk points to position
    [j + 1]. *)
Lemma parent_walk_link db n :
  forall b j h h' blk, linked db b n ->
    parent_walk db b n !! j = Some h ->
    parent_walk db b n !! S j = Some h' ->
    ReadBlock db h (Z.of_nat (n - 1 - j)) = Some blk ->
    ParentHash blk = h'.
Proof.
  induction n as [|n IH]; intros b j h h' blk Hl Hj Hj' Hblk; [discriminate|].
  destruct Hl as (parent & Hread & Hl). simpl in Hj, Hj'. rewrite Hread in Hj, Hj'.
  destruct j as [|j].
  - injection Hj as <-.
    replace (S n - 1 - 0)%nat with n in Hblk by lia.
    rewrite Hread in Hblk. injection Hblk as <-.
    simpl in Hj'. destruct n as [|n]; [discriminate|].
    simpl in Hj'. injection Hj' as <-. reflexivity.
  - simpl in Hj, Hj'.
    replace (S n - 1 - S j)%nat with (n - 1 - j)%nat in Hblk by lia.
    exact (IH parent j h h' blk Hl Hj Hj' Hblk).
Qed.

(** C1. For a chain whose block [b] at height [H] has a valid
    parent-pointer chain down to genesis, [traverse] returns exactly [H]
    hashes: the reverse of the walk over parent hashes, so that position
    [i] holds the hash of the block stored at height [i] (heights 0 to
    [H - 1], ascending), the top entry is the parent of [b], every entry
    is the parent hash of the block above it, and no hash occurs twice. *)
Theorem traverse_ascending (db : Database) (b : Block) (H : Z) :
  ValidChain db b H ->
  exists evs hs,
    traverse db b H = (evs, Ok hs)
    /\ len hs = H
    /\ hs = reverse (parent_walk db b (Z.to_nat H))
    /\ (forall i h, hs !! i = Some h -> is_Some (ReadBlock db h (Z.of_nat i)))
    /\ (0 < H -> hs !! Z.to_nat (H - 1) = Some (ParentHash b))
    /\ (forall i h h' blk,
          hs !! i = Some h -> hs !! S i = Some h' ->
          ReadBlock db h' (Z.of_nat (S i)) = Some blk -> ParentHash blk = h)
    /\ NoDup hs.
Proof.
  intros [Hrange Hl Hnames]. unfold traverse.
  destruct (traverse_loop_linked db (Z.to_nat H) b [] 0 Hl) as (evs & total & Hloop).
  rewrite Hloop. simpl. rewrite reverse_blocks_reverse.
  set (walk := parent_walk db b (Z.to_nat H)).
  assert (Hlen : length walk = Z.to_nat H) by (apply parent_walk_length; exact Hl).
  assert (Hstored : forall i h, reverse walk !! i = Some h ->
            is_Some (ReadBlock db h (Z.of_nat i))).
  { intros i h Hi.
    assert (Hi' := Hi). apply lookup_lt_Some in Hi'. rewrite length_reverse in Hi'.
    rewrite reverse_lookup in Hi by lia.
    destruct (parent_walk_stored db _ b _ h Hl Hi) as [_ Hs].
    replace (Z.to_nat H - 1 - (length walk - S i))%nat with i in Hs by lia.
    exact Hs. }
  eexists _, _. split; [reflexivity|].
  split; [unfold len; rewrite length_reverse; lia|].
  split; [reflexivity|].
  split; [exact Hstored|].
  split.
  { intros Hpos. rewrite reverse_lookup by lia.
    replace (length walk - S (Z.to_nat (H - 1)))%nat with 0%nat by lia.
    subst walk. destruct (Z.to_nat H) eqn:E; [lia|]. reflexivity. }
  split.
  { intros i h h' blk Hi Hi' Hblk.
    assert (Hlt := Hi'). apply lookup_lt_Some in Hlt. rewrite length_reverse in Hlt.
    rewrite reverse_lookup in Hi, Hi' by lia.
    eapply (parent_walk_link db _ b (length walk - S (S i)) h' h blk Hl).
    - exact Hi'.
    - replace (S (length walk - S (S i))) with (length walk - S i)%nat by lia. exact Hi.
    - replace (Z.to_nat H - 1 - (length walk - S (S i)))%nat with (S i) by lia.
      exact Hblk. }
  apply NoDup_alt. intros i j h Hi Hj.
  destruct (Hstored i h Hi) as [bi Hbi]. destruct (Hstored j h Hj) as [bj Hbj].
  unfold ReadBlock in Hbi, Hbj.
  assert (Z.to_N (Z.of_nat i) = Z.to_N (Z.of_nat j)) by (eapply Hnames; eauto).
  lia.
Qed.

(* ================================================================== *)
(** * The Replay Step Generator: skip prefix, active window, break *)

Lemma len_cons {A} (x : A) (l : list A) : len (x :: l) = 1 + len l.
Proof. unfold len. rewrite length_cons. lia. Qed.

Lemma len_nonneg {A} (l : list A) : 0 <= len l.
Proof. unfold len. lia. Qed.

Section GeneratorFacts.
Context `{Collaborators}.
Variables (r : Replayer) (a : Account) (evmContract : string) (db : Database).

(** Every value sent from the inner loop is sent at a transaction of the
    block, from the index the loop starts at. *)
Lemma txLoop_origin h txs :
  forall i o t, In (o, t) (fst (txLoop r h i txs)) ->
    exists k, o = AtTx h k /\ i <= k < i + len txs.
Proof.
  induction txs as [|tx txs IH]; intros i o t Hin; [contradiction|].
  rewrite len_cons. pose proof (len_nonneg txs).
  tx_cases r.
  - destruct Hin as [[= <- <-]|[]]. exists i. split; [reflexivity | lia].
  - destruct Hin as [[= <- <-]|Hin].
    + exists i. split; [reflexivity | lia].
    + destruct (IH _ _ _ Hin) as (k & -> & ?). exists k. split; [reflexivity | lia].
  - destruct Hin as [[= <- <-]|[]]. exists i. split; [reflexivity | lia].
  - contradiction.
  - destruct Hin as [[= <- <-]|[]]. exists i. split; [reflexivity | lia].
  - destruct Hin as [[= <- <-]|Hin].
    + exists i. split; [reflexivity | lia].
    + destruct (IH _ _ _ Hin) as (k & -> & ?). exists k. split; [reflexivity | lia].
Qed.

(** Without a break configured the inner loop is never left by
    [break outer]. *)
Lemma txLoop_no_break h txs :
  BreakBlock r = 0 -> forall i, snd (txLoop r h i txs) <> BreakOuter.
Proof.
  intros Hnb. induction txs as [|tx txs IH]; intros i; [discriminate|].
  tx_cases r; try discriminate; try apply IH.
  rewrite Hnb in Hbreak. discriminate.
Qed.

(** In the inner loop of a block that is not skipped, a position before
    the start point is answered by a comment. *)
Lemma txLoop_skip_prefix h txs :
  BreakBlock r = 0 -> StartBlock r <= h ->
  forall i k t, In (AtTx h k, t) (fst (txLoop r h i txs)) ->
    lex_lt (h, k) (StartBlock r, StartTx r) -> kind t = KComment.
Proof.
  intros Hnb Hstart. induction txs as [|tx txs IH]; intros i k t Hin Hlt; [contradiction|].
  assert (Hk : h = StartBlock r /\ k < StartTx r)
    by (destruct Hlt as [Hlt | Hlt]; simpl in Hlt; lia).
  tx_cases r.
  - rewrite Hnb in Hbreak. discriminate.
  - destruct Hin as [[= <- <-]|Hin]; [reflexivity | eauto].
  - destruct Hin as [[= <- <-]|[]]. lia.
  - contradiction.
  - destruct Hin as [[= <- <-]|[]]. lia.
  - destruct Hin as [[= <- <-]|Hin]; [lia | eauto].
Qed.

Lemma txLoop_skip_prefix_of h txs i sent e k t :
  BreakBlock r = 0 -> StartBlock r <= h ->
  txLoop r h i txs = (sent, e) -> In (AtTx h k, t) sent ->
  lex_lt (h, k) (StartBlock r, StartTx r) -> kind t = KComment.
Proof.
  intros Hnb Hs Hrun Hin. apply (txLoop_skip_prefix h txs Hnb Hs i k t).
  rewrite Hrun. exact Hin.
Qed.

(** When the inner loop runs to its end without a break configured,
    every transaction at or after the start point was submitted. *)
Lemma txLoop_active h txs :
  BreakBlock r = 0 ->
  forall i sent, txLoop r h i txs = (sent, Next) ->
  forall j tx, txs !! j = Some tx ->
    ~ lex_lt (h, i + Z.of_nat j) (StartBlock r, StartTx r) ->
    exists rlp amount,
      MarshalBinary tx = inr rlp
      /\ uint64_wrap (BatchSize r) <> 0
      /\ FormatNearAmount (FormatUint (Gas r / uint64_wrap (BatchSize r))) = inr amount
      /\ In (AtTx h (i + Z.of_nat j), submitTx h (i + Z.of_nat j) tx rlp amount) sent.
Proof.
  intros Hnb. induction txs as [|tx0 txs IH]; intros i sent Hrun j tx Hj Hge;
    [discriminate|].
  tx_cases r; try discriminate.
  - destruct (txLoop r h (i + 1) txs) as [sent' e] eqn:Hrest.
    cbn [fst snd] in Hrun. injection Hrun as <- ->.
    destruct j as [|j].
    + exfalso. apply Hge. unfold lex_lt. simpl.
      apply andb_prop in Hskip as [Hb Hi]. lia.
    + simpl in Hj. destruct (IH _ _ Hrest j tx Hj) as (rlp & amount & ? & ? & ? & Hin).
      * replace (i + 1 + Z.of_nat j) with (i + Z.of_nat (S j)) by lia. exact Hge.
      * exists rlp, amount.
        replace (i + Z.of_nat (S j)) with (i + 1 + Z.of_nat j) by lia.
        repeat split; auto. right. exact Hin.
  - destruct (txLoop r h (i + 1) txs) as [sent' e] eqn:Hrest.
    cbn [fst snd] in Hrun. injection Hrun as <- ->.
    destruct j as [|j].
    + injection Hj as <-. exists rlp, amount.
      replace (i + Z.of_nat 0) with i by lia.
      repeat split; auto; [lia | left; reflexivity].
    + simpl in Hj. destruct (IH _ _ Hrest j tx Hj) as (rlp' & amount' & ? & ? & ? & Hin).
      * replace (i + 1 + Z.of_nat j) with (i + Z.of_nat (S j)) by lia. exact Hge.
      * exists rlp', amount'.
        replace (i + Z.of_nat (S j)) with (i + 1 + Z.of_nat j) by lia.
        repeat split; auto. right. exact Hin.
Qed.

Lemma txLoop_origin_of h txs i sent e o t :
  txLoop r h i txs = (sent, e) -> In (o, t) sent ->
  exists k, o = AtTx h k /\ i <= k < i + len txs.
Proof. intros Hrun Hin. apply (txLoop_origin h txs i o t). rewrite Hrun. exact Hin. Qed.

Lemma blockLoop_skip_prefix blocks :
  BreakBlock r = 0 ->
  forall h0 o t, In (o, t) (fst (blockLoop r a evmContract db h0 blocks)) ->
    (forall h k, o = AtTx h k -> lex_lt (h, k) (StartBlock r, StartTx r) ->
       kind t = KComment)
    /\ (forall h, o = AtBlock h -> h < StartBlock r -> kind t = KComment).
Proof.
  intros Hnb. induction blocks as [|hash blocks IH]; intros h0 o t Hin; [contradiction|].
  assert (Htx : forall sent e, txLoop r h0 0
              (match ReadBlock db hash (uint64_wrap h0) with
               | Some b => Transactions b | None => [] end) = (sent, e) ->
            (h0 <? StartBlock r) = false ->
            In (o, t) sent ->
            (forall h k, o = AtTx h k -> lex_lt (h, k) (StartBlock r, StartTx r) ->
               kind t = KComment)
            /\ (forall h, o = AtBlock h -> h < StartBlock r -> kind t = KComment)).
  { intros sent e Hrun Hns Hin'.
    destruct (txLoop_origin_of _ _ _ _ _ _ _ Hrun Hin') as (k & -> & _).
    split; [|discriminate].
    intros h k' [= <- <-] Hlt.
    assert (Hs : StartBlock r <= h0) by lia.
    exact (txLoop_skip_prefix_of _ _ _ _ _ _ _ Hnb Hs Hrun Hin' Hlt). }
  assert (Hhere : forall t', (h0 <? StartBlock r) = false ->
            (forall h k, AtBlock h0 = AtTx h k ->
               lex_lt (h, k) (StartBlock r, StartTx r) -> kind t' = KComment)
            /\ (forall h, AtBlock h0 = AtBlock h -> h < StartBlock r ->
                  kind t' = KComment)).
  { intros t' Hns. split; [discriminate|]. intros h [= <-] Hlt. lia. }
  block_cases r db.
  - rewrite Hnb in Hbreak. discriminate.
  - destruct Hin as [[= <- <-]|Hin]; [|eauto].
    split; [discriminate | reflexivity].
  - destruct Hin as [[= <- <-]|[]]. auto.
  - destruct Hin as [[= <- <-]|Hin]; [auto|].
    apply in_app_or in Hin as [Hin|Hin]; eauto.
  - destruct Hin as [[= <- <-]|Hin]; eauto.
  - destruct Hin as [[= <- <-]|Hin]; eauto.
  - destruct Hin as [[= <- <-]|Hin]; eauto.
  - destruct Hin as [[= <- <-]|[]]. auto.
Qed.

Lemma blockLoop_active blocks :
  BreakBlock r = 0 ->
  forall h0, snd (blockLoop r a evmContract db h0 blocks) = Closed ->
  forall j hash b k tx,
    blocks !! j = Some hash ->
    ReadBlock db hash (uint64_wrap (h0 + Z.of_nat j)) = Some b ->
    Transactions b !! k = Some tx ->
    lex_le (StartBlock r, StartTx r) (h0 + Z.of_nat j, Z.of_nat k) ->
    exists rlp amount,
      MarshalBinary tx = inr rlp
      /\ uint64_wrap (BatchSize r) <> 0
      /\ FormatNearAmount (FormatUint (Gas r / uint64_wrap (BatchSize r))) = inr amount
      /\ In (AtTx (h0 + Z.of_nat j) (Z.of_nat k),
             submitTx (h0 + Z.of_nat j) (Z.of_nat k) tx rlp amount)
            (fst (blockLoop r a evmContract db h0 blocks)).
Proof.
  intros Hnb. induction blocks as [|hash0 blocks IH];
    intros h0 Hend j hash b' k tx Hj Hb Hk Hle; [discriminate|].
  assert (Hnext : forall j', j = S j' ->
            snd (blockLoop r a evmContract db (h0 + 1) blocks) = Closed ->
            exists rlp amount,
              MarshalBinary tx = inr rlp
              /\ uint64_wrap (BatchSize r) <> 0
              /\ FormatNearAmount (FormatUint (Gas r / uint64_wrap (BatchSize r)))
                 = inr amount
              /\ In (AtTx (h0 + Z.of_nat j) (Z.of_nat k),
                     submitTx (h0 + Z.of_nat j) (Z.of_nat k) tx rlp amount)
                    (fst (blockLoop r a evmContract db (h0 + 1) blocks))).
  { intros j' -> Hend'.
    replace (h0 + Z.of_nat (S j')) with (h0 + 1 + Z.of_nat j') in * by lia.
    exact (IH _ Hend' j' hash b' k tx Hj Hb Hk Hle). }
  block_cases r db; try discriminate.
  - rewrite Hnb in Hbreak. discriminate.
  - destruct j as [|j].
    + exfalso. replace (h0 + Z.of_nat 0) with h0 in Hle by lia.
      destruct Hle as [Hle|Hle]; simpl in Hle; lia.
    + destruct (Hnext j eq_refl Hend) as (rlp & amount & ? & ? & ? & Hin).
      exists rlp, amount. repeat split; auto. right. exact Hin.
  - destruct j as [|j].
    + injection Hj as <-.
      replace (h0 + Z.of_nat 0) with h0 in * by lia.
      rewrite Hread in Hb. injection Hb as <-.
      destruct (txLoop_active h0 _ Hnb 0 sent Hloop k tx Hk)
        as (rlp & amount & ? & ? & ? & Hin).
      { intros Hlt. destruct Hle as [Hle|Hle], Hlt as [Hlt|Hlt]; simpl in *; lia. }
      exists rlp, amount. repeat split; auto.
      right. apply in_or_app. left. exact Hin.
    + destruct (Hnext j eq_refl Hend) as (rlp & amount & ? & ? & ? & Hin).
      exists rlp, amount. repeat split; auto.
      right. apply in_or_app. right. exact Hin.
  - exfalso. apply (txLoop_no_break h0 (Transactions b) Hnb 0). rewrite Hloop. reflexivity.
Qed.

(** C3. With start point [(StartBlock, StartTx)] and no break configured:
    whatever the generator sends for a transaction at a pair before the
    start point is a comment, and so is what it sends for a block before
    [StartBlock]; and in a run that ends by closing the queue, every
    transaction at a pair at or after the start point has its submission
    on the queue, with the encoded transaction as payload and the
    transaction itself as back-reference. *)
Theorem start_cursor_window (blocks : list Hash) :
  BreakBlock r = 0 ->
  (forall h k t,
      In (AtTx h k, t) (fst (generate r a evmContract db blocks)) ->
      lex_lt (h, k) (StartBlock r, StartTx r) -> kind t = KComment)
  /\ (forall h t,
        In (AtBlock h, t) (fst (generate r a evmContract db blocks)) ->
        h < StartBlock r -> kind t = KComment)
  /\ (snd (generate r a evmContract db blocks) = Closed ->
      forall j hash b k tx,
        blocks !! j = Some hash ->
        ReadBlock db hash (uint64_wrap (Z.of_nat j)) = Some b ->
        Transactions b !! k = Some tx ->
        lex_le (StartBlock r, StartTx r) (Z.of_nat j, Z.of_nat k) ->
        exists rlp amount t,
          MarshalBinary tx = inr rlp
          /\ In (AtTx (Z.of_nat j) (Z.of_nat k), t)
                (fst (generate r a evmContract db blocks))
          /\ t = submitTx (Z.of_nat j) (Z.of_nat k) tx rlp amount
          /\ kind t = KSubmission /\ Args t = rlp /\ EthTx t = Some tx).
Proof.
  intros Hnb. unfold generate. cbn [send fst snd].
  split; [|split].
  - intros h k t [[=]|Hin] Hlt.
    exact (proj1 (blockLoop_skip_prefix blocks Hnb 0 _ _ Hin) h k eq_refl Hlt).
  - intros h t [[=]|Hin] Hlt.
    exact (proj2 (blockLoop_skip_prefix blocks Hnb 0 _ _ Hin) h eq_refl Hlt).
  - intros Hend j hash b k tx Hj Hb Hk Hle.
    destruct (blockLoop_active blocks Hnb 0 Hend j hash b k tx Hj Hb Hk Hle)
      as (rlp & amount & Hrlp & _ & _ & Hin).
    exists rlp, amount, (submitTx (Z.of_nat j) (Z.of_nat k) tx rlp amount).
    split; [exact Hrlp|]. split; [right; exact Hin|]. repeat split.
Qed.

(** ** The break point *)




Lemma last_cons_In {A} (x y : A) (l : list A) : In y l -> last (x :: l) = last l.
Proof. destruct l; [contradiction | reflexivity]. Qed.

Lemma last_app_In {A} (y : A) (l1 l2 : list A) : In y l2 -> last (l1 ++ l2) = last l2.
Proof.
  intros Hin. induction l1 as [|x l1 IH]; [reflexivity|].
  simpl app. rewrite (last_cons_In x y) by (apply in_or_app; right; exact Hin).
  exact IH.
Qed.








(** ** The gas allotment in the generator *)

Lemma txLoop_submission h txs :
  forall i k t, In (AtTx h k, t) (fst (txLoop r h i txs)) -> kind t = KSubmission ->
    exists tx rlp amount,
      uint64_wrap (BatchSize r) <> 0
      /\ MarshalBinary tx = inr rlp
      /\ FormatNearAmount (FormatUint (Gas r / uint64_wrap (BatchSize r))) = inr amount
      /\ t = submitTx h k tx rlp amount.
Proof.
  induction txs as [|tx txs IH]; intros i k t Hin Hkind; [contradiction|].
  tx_cases r.
  - destruct Hin as [[= <- <-]|[]]. discriminate.
  - destruct Hin as [[= <- <-]|Hin]; [discriminate | eauto].
  - destruct Hin as [[= <- <-]|[]]. discriminate.
  - contradiction.
  - destruct Hin as [[= <- <-]|[]]. discriminate.
  - destruct Hin as [[= <- <-]|Hin]; [|eauto].
    exists tx, rlp, amount. apply Z.eqb_neq in Hdiv. auto.
Qed.

(** ** Division by a batch size of zero *)

Lemma txLoop_div_zero h i tx txs rlp :
  uint64_wrap (BatchSize r) = 0 ->
  negb (BreakBlock r =? 0) && (h =? BreakBlock r) && (i =? BreakTx r) = false ->
  (h =? StartBlock r) && (i <? StartTx r) = false ->
  MarshalBinary tx = inr rlp ->
  txLoop r h i (tx :: txs) = ([], Crash "runtime error: integer divide by zero").
Proof.
  intros Hz Hbreak Hskip Hrlp. cbn [txLoop].
  rewrite Hbreak, Hskip, Hrlp, Hz. reflexivity.
Qed.

(** With collaborators that cannot fail and no break, the inner loop of
    a run with batch size zero ends at its end or in the panic; it
    panics as soon as it holds a transaction of the active window. *)
Lemma txLoop_zero_exits h txs :
  uint64_wrap (BatchSize r) = 0 -> BreakBlock r = 0 ->
  (forall tx, exists rlp, MarshalBinary tx = inr rlp) ->
  forall i,
    (snd (txLoop r h i txs) = Next
     /\ forall j tx, txs !! j = Some tx -> h = StartBlock r /\ i + Z.of_nat j < StartTx r)
    \/ snd (txLoop r h i txs) = Crash "runtime error: integer divide by zero".
Proof.
  intros Hz Hnb Henc. induction txs as [|tx txs IH]; intros i.
  { left. split; [reflexivity | discriminate]. }
  destruct (Henc tx) as [rlp0 Hrlp0].
  tx_cases r.
  - rewrite Hnb in Hbreak. discriminate.
  - destruct (IH (i + 1)) as [[Hn Hall]|Hc]; [left | right; exact Hc].
    split; [exact Hn|]. intros [|j] tx' Hj.
    + apply andb_prop in Hskip as [Hb Hi]. lia.
    + destruct (Hall j tx' Hj). lia.
  - congruence.
  - right. reflexivity.
  - rewrite Hz in Hdiv. discriminate.
  - rewrite Hz in Hdiv. discriminate.
Qed.

Lemma blockLoop_zero_crashes blocks :
  uint64_wrap (BatchSize r) = 0 -> BreakBlock r = 0 ->
  (forall b, exists ctx, getBlockContext b = inr ctx) ->
  (forall tx, exists rlp, MarshalBinary tx = inr rlp) ->
  forall h0,
    (forall j hash, blocks !! j = Some hash -> StartBlock r <= h0 + Z.of_nat j ->
       is_Some (ReadBlock db hash (uint64_wrap (h0 + Z.of_nat j)))) ->
    forall j hash b k tx,
      blocks !! j = Some hash ->
      ReadBlock db hash (uint64_wrap (h0 + Z.of_nat j)) = Some b ->
      Transactions b !! k = Some tx ->
      lex_le (StartBlock r, StartTx r) (h0 + Z.of_nat j, Z.of_nat k) ->
      snd (blockLoop r a evmContract db h0 blocks)
      = Crashed "runtime error: integer divide by zero".
Proof.
  intros Hz Hnb Hctxs Henc. induction blocks as [|hash0 blocks IH];
    intros h0 Hstored j hash b' k tx Hj Hb Hk Hle; [discriminate|].
  assert (Hnext : forall j', j = S j' ->
            snd (blockLoop r a evmContract db (h0 + 1) blocks)
            = Crashed "runtime error: integer divide by zero").
  { intros j' ->.
    replace (h0 + Z.of_nat (S j')) with (h0 + 1 + Z.of_nat j') in * by lia.
    apply (IH (h0 + 1)) with (j := j') (hash := hash) (b := b') (k := k) (tx := tx); auto.
    intros j0 hash1 Hj0 Hs.
    replace (h0 + 1 + Z.of_nat j0) with (h0 + Z.of_nat (S j0)) in * by lia.
    apply Hstored; auto. }
  assert (Hhead : (h0 <? StartBlock r) = false ->
            is_Some (ReadBlock db hash0 (uint64_wrap h0))).
  { intros Hns. replace h0 with (h0 + Z.of_nat 0) at 1 by lia.
    apply Hstored; [reflexivity | lia]. }
  revert Hb. block_cases r db; intros Hb.
  - rewrite Hnb in Hbreak. discriminate.
  - destruct j as [|j]; [exfalso | eauto].
    replace (h0 + Z.of_nat 0) with h0 in Hle by lia.
    destruct Hle as [Hle|Hle]; simpl in Hle; lia.
  - destruct (Hctxs b) as [ctx Hc]. congruence.
  - destruct j as [|j]; [exfalso | eauto].
    injection Hj as <-. replace (h0 + Z.of_nat 0) with h0 in * by lia.
    rewrite Hread in Hb. injection Hb as <-.
    destruct (txLoop_zero_exits h0 (Transactions b) Hz Hnb Henc 0) as [[_ Hall]|Hc].
    + destruct (Hall k tx Hk) as [Hs Hi].
      destruct Hle as [Hle|Hle]; simpl in Hle; lia.
    + rewrite Hloop in Hc. discriminate.
  - exfalso. apply (txLoop_no_break h0 (Transactions b) Hnb 0). rewrite Hloop. reflexivity.
  - exfalso.
    destruct (txLoop_zero_exits h0 (Transactions b) Hz Hnb Henc 0) as [[Hn _]|Hc];
      rewrite Hloop in *; discriminate.
  - destruct (txLoop_zero_exits h0 (Transactions b) Hz Hnb Henc 0) as [[Hn _]|Hc];
      rewrite Hloop in *; [discriminate|]. simpl in Hc. injection Hc as ->. reflexivity.
  - destruct (Hhead eq_refl) as [? ?]. discriminate.
Qed.

(** Whatever is sent at a transaction was sent by the inner loop of a
    block that was read and not skipped. *)
Lemma blockLoop_tx_inv blocks :
  forall h0 h k t, In (AtTx h k, t) (fst (blockLoop r a evmContract db h0 blocks)) ->
    exists hash b,
      h0 <= h /\ StartBlock r <= h
      /\ blocks !! Z.to_nat (h - h0) = Some hash
      /\ ReadBlock db hash (uint64_wrap h) = Some b
      /\ In (AtTx h k, t) (fst (txLoop r h 0 (Transactions b))).
Proof.
  induction blocks as [|hash0 blocks IH]; intros h0 h k t Hin; [contradiction|].
  assert (Hrest : In (AtTx h k, t) (fst (blockLoop r a evmContract db (h0 + 1) blocks)) ->
            exists hash b,
              h0 <= h /\ StartBlock r <= h
              /\ (hash0 :: blocks) !! Z.to_nat (h - h0) = Some hash
              /\ ReadBlock db hash (uint64_wrap h) = Some b
              /\ In (AtTx h k, t) (fst (txLoop r h 0 (Transactions b)))).
  { intros Hin'. destruct (IH _ _ _ _ Hin') as (hash & b & ? & ? & Hl & ? & ?).
    exists hash, b. repeat split; auto; [lia|].
    replace (Z.to_nat (h - h0)) with (S (Z.to_nat (h - (h0 + 1)))) by lia. exact Hl. }
  assert (Htx : forall b sent e,
            ReadBlock db hash0 (uint64_wrap h0) = Some b ->
            (h0 <? StartBlock r) = false ->
            txLoop r h0 0 (Transactions b) = (sent, e) ->
            In (AtTx h k, t) sent ->
            exists hash b,
              h0 <= h /\ StartBlock r <= h
              /\ (hash0 :: blocks) !! Z.to_nat (h - h0) = Some hash
              /\ ReadBlock db hash (uint64_wrap h) = Some b
              /\ In (AtTx h k, t) (fst (txLoop r h 0 (Transactions b)))).
  { intros b sent e Hread Hns Hrun Hin'.
    destruct (txLoop_origin_of _ _ _ _ _ _ _ Hrun Hin') as (k' & [= -> _] & _).
    exists hash0, b. rewrite Z.sub_diag, Hrun. repeat split; auto; lia. }
  block_cases r db.
  - destruct Hin as [[=]|[]].
  - destruct Hin as [[=]|Hin]. auto.
  - destruct Hin as [[=]|[]].
  - destruct Hin as [[=]|Hin]. apply in_app_or in Hin as [Hin|Hin]; eauto.
  - destruct Hin as [[=]|Hin]. eauto.
  - destruct Hin as [[=]|Hin]. eauto.
  - destruct Hin as [[=]|Hin]. eauto.
  - destruct Hin as [[=]|[]].
Qed.

Lemma generate_submission blocks h k t :
  In (AtTx h k, t) (fst (generate r a evmContract db blocks)) -> kind t = KSubmission ->
  exists tx rlp amount,
    uint64_wrap (BatchSize r) <> 0
    /\ MarshalBinary tx = inr rlp
    /\ FormatNearAmount (FormatUint (Gas r / uint64_wrap (BatchSize r))) = inr amount
    /\ t = submitTx h k tx rlp amount.
Proof.
  unfold generate. cbn [send fst]. intros [[=]|Hin] Hkind.
  destruct (blockLoop_tx_inv blocks 0 h k t Hin) as (hash & b & _ & _ & _ & _ & Hin').
  exact (txLoop_submission h _ 0 k t Hin' Hkind).
Qed.

(** The generator does not read the batching flag. *)
Lemma txLoop_with_Batch batch h txs :
  forall i, txLoop (with_Batch batch r) h i txs = txLoop r h i txs.
Proof.
  induction txs as [|tx txs IH]; intros i; [reflexivity|].
  cbn [txLoop]. rewrite IH. reflexivity.
Qed.

Lemma blockLoop_with_Batch batch blocks :
  forall h0, blockLoop (with_Batch batch r) a evmContract db h0 blocks
             = blockLoop r a evmContract db h0 blocks.
Proof.
  induction blocks as [|hash blocks IH]; intros h0; [reflexivity|].
  cbn [blockLoop]. rewrite IH.
  destruct (ReadBlock db hash (uint64_wrap h0)) as [b|]; [|reflexivity].
  destruct (getBlockContext b); [reflexivity|].
  rewrite txLoop_with_Batch. reflexivity.
Qed.

(** C9. The generator needs a batch size other than zero, whether or not
    batching is on.  With [BatchSize = 0] the queue is made with capacity
    [10 * 0 = 0]; the loop over the blocks does the same with batching on
    and off; a
    transaction of the active window that encodes is answered by the
    division panic, with nothing sent for it; no submission of a
    transaction is ever sent; and on a chain where no collaborator can
    fail, a run with no break and a transaction in the active window ends
    in that panic. *)
Theorem zero_batch_size_panics (blocks : list Hash) :
  BatchSize r = 0 ->
  (exists ch,
      startTxGenerator r a evmContract db blocks = Ok ch
      /\ capacity ch = 10 * BatchSize r /\ capacity ch = 0
      /\ sent ch = fst (generate r a evmContract db blocks)
      /\ ending ch = snd (generate r a evmContract db blocks))
  /\ (forall batch, blockLoop (with_Batch batch r) a evmContract db 0 blocks
                    = blockLoop r a evmContract db 0 blocks)
  /\ (forall h i tx txs rlp,
        negb (BreakBlock r =? 0) && (h =? BreakBlock r) && (i =? BreakTx r) = false ->
        (h =? StartBlock r) && (i <? StartTx r) = false ->
        MarshalBinary tx = inr rlp ->
        txLoop r h i (tx :: txs) = ([], Crash "runtime error: integer divide by zero"))
  /\ (forall h k t,
        In (AtTx h k, t) (fst (generate r a evmContract db blocks)) ->
        kind t <> KSubmission)
  /\ (BreakBlock r = 0 -> Flawless r db blocks ->
      forall j hash b k tx,
        blocks !! j = Some hash ->
        ReadBlock db hash (uint64_wrap (Z.of_nat j)) = Some b ->
        Transactions b !! k = Some tx ->
        lex_le (StartBlock r, StartTx r) (Z.of_nat j, Z.of_nat k) ->
        snd (generate r a evmContract db blocks)
        = Crashed "runtime error: integer divide by zero").
Proof.
  intros Hz.
  assert (Hw : uint64_wrap (BatchSize r) = 0) by (rewrite Hz; reflexivity).
  split; [|split; [|split; [|split]]].
  - unfold startTxGenerator. rewrite Hz. cbn. eexists. repeat split.
  - intros batch. apply blockLoop_with_Batch.
  - intros h i tx txs rlp. apply txLoop_div_zero. exact Hw.
  - intros h k t Hin Hkind.
    destruct (generate_submission blocks h k t Hin Hkind) as (_ & _ & _ & Hne & _).
    exact (Hne Hw).
  - intros Hnb [Hstored Hctx Henc] j hash b k tx Hj Hb Hk Hle.
    unfold generate. cbn [send snd].
    apply (blockLoop_zero_crashes blocks Hw Hnb Hctx Henc 0 Hstored j hash b k tx); auto.
Qed.

End GeneratorFacts.

(* ================================================================== *)
(** * Laws of the effect monad *)

Lemma fst_bind {A B} (m : M A) (k : A -> M B) :
  fst (bind m k) = fst m ++ match snd m with Ok a => fst (k a) | _ => [] end.
Proof.
  destruct m as [evs [a|e|msg]]; simpl; [|rewrite app_nil_r; reflexivity ..].
  destruct (k a). reflexivity.
Qed.

Lemma snd_bind {A B} (m : M A) (k : A -> M B) :
  snd (bind m k)
  = match snd m with Ok a => snd (k a) | Fail e => Fail e | Panic msg => Panic msg end.
Proof. destruct m as [evs [a|e|msg]]; simpl; [|reflexivity ..]. destruct (k a). reflexivity. Qed.

Lemma bind_ret_l {A B} (a : A) (k : A -> M B) : bind (ret a) k = k a.
Proof. unfold ret. simpl. destruct (k a). reflexivity. Qed.

Lemma bind_assoc {A B C} (m : M A) (k : A -> M B) (k' : B -> M C) :
  bind (bind m k) k' = bind m (fun a => bind (k a) k').
Proof.
  destruct m as [evs [a|e|msg]]; simpl; [|reflexivity ..].
  destruct (k a) as [evs1 [b|e|msg]]; simpl; [|reflexivity ..].
  destruct (k' b) as [evs2 rc]. rewrite app_assoc. reflexivity.
Qed.

Lemma bind_ext {A B} (m : M A) (k k' : A -> M B) :
  (forall a, k a = k' a) -> bind m k = bind m k'.
Proof. intros Hk. destruct m as [evs [a|e|msg]]; simpl; [rewrite Hk|..]; reflexivity. Qed.

Lemma stdout_only_bind {A B} (m : M A) (k : A -> M B) :
  stdout_only m -> (forall a, stdout_only (k a)) -> stdout_only (bind m k).
Proof.
  unfold stdout_only. intros Hm Hk. rewrite fst_bind. apply Forall_app. split; [exact Hm|].
  destruct (snd m); [apply Hk | constructor ..].
Qed.

Lemma stdout_only_emit text : stdout_only (emit (Stdout text)).
Proof. repeat constructor. eauto. Qed.

Lemma stdout_only_ret {A} (a : A) : stdout_only (ret a).
Proof. constructor. Qed.

Lemma stdout_only_fail {A} e : stdout_only (@fail A e).
Proof. constructor. Qed.

Lemma stdout_only_panic {A} msg : stdout_only (@panic A msg).
Proof. constructor. Qed.

Lemma stdout_only_when cond body : stdout_only body -> stdout_only (when cond body).
Proof. destruct cond; [auto | intros; apply stdout_only_ret]. Qed.

Ltac stdout := repeat (first
  [ apply stdout_only_bind; [|intros]
  | apply stdout_only_when
  | apply stdout_only_emit
  | apply stdout_only_ret
  | apply stdout_only_fail
  | apply stdout_only_panic ]).

Lemma sent_batches_app evs evs' :
  sent_batches (evs ++ evs') = sent_batches evs ++ sent_batches evs'.
Proof.
  induction evs as [|ev evs IH]; [reflexivity|].
  destruct ev; simpl; rewrite IH; reflexivity.
Qed.

Lemma sent_batches_stdout evs :
  Forall (fun ev => exists text, ev = Stdout text) evs -> sent_batches evs = [].
Proof. induction 1 as [|ev evs [text ->] _ IH]; [reflexivity | exact IH]. Qed.

Section VerifierFacts.
Context `{Collaborators}.

Lemma PrettyPrintResponse_stdout res : stdout_only (PrettyPrintResponse res).
Proof. unfold PrettyPrintResponse, Printf. stdout. Qed.

Lemma showTx_stdout tx : stdout_only (showTx tx).
Proof.
  unfold showTx, Println, Printf. destruct (MarshalBinary tx); [stdout|].
  destruct (To tx); stdout.
Qed.

Lemma procTxResult_stdout batch tx txResult : stdout_only (procTxResult batch tx txResult).
Proof.
  unfold procTxResult, Println.
  apply stdout_only_bind; [apply PrettyPrintResponse_stdout | intros _].
  destruct (txResult !! "status") as [[| | | | |status]|]; try apply stdout_only_panic.
  apply stdout_only_bind; [unfold lift; destruct (MarshalIndent status); stdout | intros jsn].
  apply stdout_only_bind; [stdout | intros _].
  destruct (not_nil status "Failure"); [|stdout].
  apply stdout_only_bind; [|intros; stdout].
  destruct (negb batch), tx; try apply showTx_stdout; stdout.
Qed.

End VerifierFacts.

(* ================================================================== *)
(** * The Batch Submitter *)

(** An invariant of the events and of the result, carried through a
    bind. *)
Lemma bind_inv {A B} (P : Event -> Prop) (Q : B -> Prop) (m : M A) (k : A -> M B) :
  Forall P (fst m) ->
  (forall a, snd m = Ok a ->
     Forall P (fst (k a)) /\ (forall b, snd (k a) = Ok b -> Q b)) ->
  Forall P (fst (bind m k)) /\ (forall b, snd (bind m k) = Ok b -> Q b).
Proof.
  intros Hm Hk. rewrite fst_bind, snd_bind.
  destruct (snd m) as [a| |]; [destruct (Hk a eq_refl) as [Hf Hq]|..].
  - split; [apply Forall_app; auto | exact Hq].
  - split; [rewrite app_nil_r; exact Hm | discriminate].
  - split; [rewrite app_nil_r; exact Hm | discriminate].
Qed.

Lemma stdout_only_Forall {A} (P : Event -> Prop) (m : M A) :
  (forall text, P (Stdout text)) -> stdout_only m -> Forall P (fst m).
Proof.
  intros HP Hm. unfold stdout_only in Hm.
  induction Hm as [|ev evs [text ->] _ IH]; constructor; auto.
Qed.

Section SubmitterFacts.
Context `{Collaborators} `{LedgerClient}.
Variables (r : Replayer) (evmContract : string).

Lemma Replay_range_cons tx c ledger batch :
  Replay_range r evmContract (tx :: c) ledger batch
  = match Error tx with
    | Some err => fail err
    | None =>
        if nonempty (MethodName tx)
        then
          if negb (Batch r)
          then
            when (nonempty (Comment tx)) (emit (Println (Comment tx))) >>
            answer <- FunctionCallM evmContract ledger (MethodName tx) (Args tx) (Gas r) 0 ;;
            procTxResult (Batch r) (EthTx tx) (snd answer) >>
            Replay_range r evmContract c (fst answer) batch
          else
            when (nonempty (Comment tx))
              (emit (Println ("batching: " +:+ Comment tx))) >>
            if uint64_wrap (BatchSize r) =? 0
            then panic "runtime error: integer divide by zero"
            else
              let batch :=
                batch ++ [batchAction tx (Gas r / uint64_wrap (BatchSize r))] in
              if len batch =? BatchSize r
              then
                emit (Println "running batch") >>
                answer <- SignAndSendTransactionM evmContract ledger batch ;;
                procTxResult (Batch r) (EthTx tx) (snd answer) >>
                Replay_range r evmContract c (fst answer) []
              else Replay_range r evmContract c ledger batch
        else
          when (nonempty (Comment tx)) (emit (Println (Comment tx))) >>
          Replay_range r evmContract c ledger batch
    end.
Proof. reflexivity. Qed.

Lemma FunctionCallM_fst ledger method args gas amount :
  fst (FunctionCallM evmContract ledger method args gas amount)
  = [CallFunction evmContract method args gas amount].
Proof.
  unfold FunctionCallM. rewrite fst_bind. simpl.
  destruct (Account_FunctionCall _ _ _ _ _ _) as [l' [err|res]]; reflexivity.
Qed.

Lemma SignAndSendTransactionM_fst ledger batch :
  fst (SignAndSendTransactionM evmContract ledger batch)
  = [SendTransaction evmContract batch].
Proof.
  unfold SignAndSendTransactionM. rewrite fst_bind. simpl.
  destruct (Account_SignAndSendTransaction _ _ _) as [l' [err|res]]; reflexivity.
Qed.

Lemma comment_stdout (cond : bool) (text : string) :
  stdout_only (when cond (emit (Println text))).
Proof. apply stdout_only_when. apply stdout_only_emit. Qed.

Lemma Replay_range_funded c :
  forall ledger batch, batch_funded r batch ->
    Forall (event_funded r) (fst (Replay_range r evmContract c ledger batch))
    /\ (forall st, snd (Replay_range r evmContract c ledger batch) = Ok st ->
          batch_funded r (snd st)).
Proof.
  induction c as [|tx c IH]; intros ledger batch Hb.
  { split; [constructor | intros st [= <-]; exact Hb]. }
  rewrite Replay_range_cons.
  assert (Hout : forall text, event_funded r (Stdout text)) by (intros; exact I).
  destruct (Error tx); [split; [constructor | discriminate]|].
  destruct (nonempty (MethodName tx)).
  - destruct (Batch r) eqn:Hmode; cbn [negb].
    + apply bind_inv; [apply stdout_only_Forall; [exact Hout | apply comment_stdout]|].
      intros _ _. destruct (uint64_wrap (BatchSize r) =? 0);
        [split; [constructor | discriminate]|].
      cbv zeta.
      assert (Hb' : batch_funded r
                (batch ++ [batchAction tx (Gas r / uint64_wrap (BatchSize r))])).
      { destruct Hb as [Hf _]. split; [|congruence].
        apply Forall_app. split; [exact Hf|]. repeat constructor. }
      destruct (len _ =? BatchSize r); [|apply IH; exact Hb'].
      apply bind_inv; [apply stdout_only_Forall; [exact Hout | apply stdout_only_emit]|].
      intros _ _. apply bind_inv.
      { rewrite SignAndSendTransactionM_fst. repeat constructor; [exact Hmode | apply Hb']. }
      intros answer _. apply bind_inv;
        [apply stdout_only_Forall; [exact Hout | apply procTxResult_stdout]|].
      intros _ _. apply IH. split; [constructor | reflexivity].
    + apply bind_inv; [apply stdout_only_Forall; [exact Hout | apply comment_stdout]|].
      intros _ _. apply bind_inv.
      { rewrite FunctionCallM_fst. repeat constructor. exact Hmode. }
      intros answer _. apply bind_inv;
        [apply stdout_only_Forall; [exact Hout | apply procTxResult_stdout]|].
      intros _ _. apply IH. exact Hb.
  - apply bind_inv; [apply stdout_only_Forall; [exact Hout | apply comment_stdout]|].
    intros _ _. apply IH. exact Hb.
Qed.

Lemma Replay_funded c ledger :
  Forall (event_funded r) (fst (Replay r evmContract c ledger)).
Proof.
  unfold Replay. destruct (BatchSize r <? 0); [constructor|].
  assert (Hout : forall text, event_funded r (Stdout text)) by (intros; exact I).
  refine (proj1 (bind_inv (event_funded r) (fun _ : unit => True) _ _ _ _)).
  { apply Replay_range_funded. split; [constructor | reflexivity]. }
  intros [ledger' batch] Hst.
  destruct (Replay_range_funded c ledger [] ltac:(split; [constructor | reflexivity]))
    as [_ Hfinal].
  specialize (Hfinal _ Hst). cbn [snd] in Hfinal.
  destruct (0 <? len batch) eqn:Hlen; [|split; [constructor | auto]].
  apply bind_inv; [apply stdout_only_Forall; [exact Hout | apply stdout_only_emit]|].
  intros _ _. apply bind_inv.
  { rewrite SignAndSendTransactionM_fst. repeat constructor; [|apply Hfinal].
    destruct (Batch r) eqn:Hmode; [reflexivity|].
    destruct Hfinal as [_ He]. rewrite (He Hmode) in Hlen. discriminate. }
  intros answer _. split; [|auto].
  apply stdout_only_Forall; [exact Hout | apply procTxResult_stdout].
Qed.

(** Consuming a stream is consuming its first part and then the rest. *)
Lemma Replay_range_app pre rest :
  forall ledger batch,
    Replay_range r evmContract (pre ++ rest) ledger batch
    = (st <- Replay_range r evmContract pre ledger batch ;;
       Replay_range r evmContract rest (fst st) (snd st)).
Proof.
  induction pre as [|tx pre IH]; intros ledger batch.
  { cbn [app Replay_range]. rewrite bind_ret_l. reflexivity. }
  simpl app. rewrite !Replay_range_cons.
  destruct (Error tx); [reflexivity|].
  destruct (nonempty (MethodName tx)).
  - destruct (negb (Batch r)).
    + rewrite bind_assoc. apply bind_ext. intros _.
      rewrite bind_assoc. apply bind_ext. intros answer.
      rewrite bind_assoc. apply bind_ext. intros _. apply IH.
    + rewrite bind_assoc. apply bind_ext. intros _.
      destruct (uint64_wrap (BatchSize r) =? 0); [reflexivity|].
      cbv zeta. destruct (len _ =? BatchSize r); [|apply IH].
      rewrite bind_assoc. apply bind_ext. intros _.
      rewrite bind_assoc. apply bind_ext. intros answer.
      rewrite bind_assoc. apply bind_ext. intros _. apply IH.
  - rewrite bind_assoc. apply bind_ext. intros _. apply IH.
Qed.

(** C5. A step that carries an error ends the run: the steps after it
    change nothing (neither the events nor the result), and when the
    consumer gets to the step, having processed the steps before it, the
    run returns the cause the step carries, with no event added, not even
    the flush of a pending batch. *)
Theorem error_step_aborts (pre post : list Tx) (e : Tx) (cause : error) (ledger : Ledger) :
  Error e = Some cause ->
  (forall post', Replay r evmContract (pre ++ e :: post) ledger
                 = Replay r evmContract (pre ++ e :: post') ledger)
  /\ (0 <= BatchSize r ->
      forall evs st,
        Replay_range r evmContract pre ledger [] = (evs, Ok st) ->
        Replay r evmContract (pre ++ e :: post) ledger = (evs, Fail cause)).
Proof.
  intros He.
  assert (Hstop : forall rest l b, Replay_range r evmContract (e :: rest) l b = fail cause).
  { intros rest l b. rewrite Replay_range_cons, He. reflexivity. }
  split.
  - intros post'. unfold Replay. destruct (BatchSize r <? 0); [reflexivity|].
    rewrite !Replay_range_app. f_equal. apply bind_ext. intros st.
    rewrite !Hstop. reflexivity.
  - intros Hsize evs st Hpre. unfold Replay.
    rewrite (proj2 (Z.ltb_ge _ _) Hsize).
    rewrite Replay_range_app, Hpre. cbn [bind]. rewrite Hstop.
    cbn. rewrite app_nil_r. reflexivity.
Qed.

(** ** Batching *)

Lemma comment_snd (cond : bool) (text : string) :
  snd (when cond (emit (Println text))) = Ok tt.
Proof. destruct cond; reflexivity. Qed.

Lemma Replay_range_full c :
  Batch r = true -> 0 < BatchSize r ->
  forall ledger batch, len batch < BatchSize r ->
    Forall (full_batches r) (fst (Replay_range r evmContract c ledger batch))
    /\ (forall st, snd (Replay_range r evmContract c ledger batch) = Ok st ->
          len (snd st) < BatchSize r).
Proof.
  intros Hmode Hpos. induction c as [|tx c IH]; intros ledger batch Hb.
  { split; [constructor | intros st [= <-]; exact Hb]. }
  rewrite Replay_range_cons.
  assert (Hout : forall text, full_batches r (Stdout text)) by (intros; exact I).
  destruct (Error tx); [split; [constructor | discriminate]|].
  rewrite Hmode. cbn [negb].
  destruct (nonempty (MethodName tx)).
  - apply bind_inv; [apply stdout_only_Forall; [exact Hout | apply comment_stdout]|].
    intros _ _. destruct (uint64_wrap (BatchSize r) =? 0);
      [split; [constructor | discriminate]|].
    cbv zeta. destruct (Z.eqb_spec (len (batch ++ [batchAction tx (Gas r / uint64_wrap (BatchSize r))])) (BatchSize r)) as [Hfull|Hpart].
    + apply bind_inv; [apply stdout_only_Forall; [exact Hout | apply stdout_only_emit]|].
      intros _ _. apply bind_inv.
      { rewrite SignAndSendTransactionM_fst. repeat constructor. exact Hfull. }
      intros answer _. apply bind_inv;
        [apply stdout_only_Forall; [exact Hout | apply procTxResult_stdout]|].
      intros _ _. apply IH. exact Hpos.
    + apply IH. unfold len in *. rewrite length_app in *. simpl in *. lia.
  - apply bind_inv; [apply stdout_only_Forall; [exact Hout | apply comment_stdout]|].
    intros _ _. apply IH. exact Hb.
Qed.

Lemma bind_comment_snd {B} (cond : bool) (text : string) (k : unit -> M B) :
  snd (bind (when cond (emit (Println text))) k) = snd (k tt).
Proof. rewrite snd_bind, comment_snd. reflexivity. Qed.

Lemma bind_comment_batches {B} (cond : bool) (text : string) (k : unit -> M B) :
  sent_batches (fst (bind (when cond (emit (Println text))) k))
  = sent_batches (fst (k tt)).
Proof.
  rewrite fst_bind, comment_snd, sent_batches_app.
  rewrite (sent_batches_stdout _ (comment_stdout cond text)). reflexivity.
Qed.

Lemma stdout_batches {A} (m : M A) : stdout_only m -> sent_batches (fst m) = [].
Proof. apply sent_batches_stdout. Qed.

Lemma SignAndSendTransactionM_accepted ledger batch :
  ledger_accepts evmContract ->
  exists ledger' txResult,
    SignAndSendTransactionM evmContract ledger batch
    = ([SendTransaction evmContract batch], Ok (ledger', txResult))
    /\ passes txResult.
Proof.
  intros Hacc. destruct (Hacc ledger batch) as (ledger' & txResult & Hcall & Hpass).
  exists ledger', txResult. split; [|exact Hpass].
  unfold SignAndSendTransactionM. rewrite Hcall. reflexivity.
Qed.

(** With a ledger that accepts and a stream without error steps, the
    loop succeeds, and the batches it sent followed by the batch it holds
    are the batch it started with followed by the actions of the stream's
    submissions, in order. *)
Lemma Replay_range_batches c :
  Batch r = true -> 0 < BatchSize r < 2 ^ 63 -> ledger_accepts evmContract ->
  Forall (fun t => Error t = None) c ->
  forall ledger batch,
    exists st,
      snd (Replay_range r evmContract c ledger batch) = Ok st
      /\ concat (sent_batches (fst (Replay_range r evmContract c ledger batch))) ++ snd st
         = batch ++ map (fun t => batchAction t (Gas r / BatchSize r)) (submissions c).
Proof.
  intros Hmode Hsize Hacc Hclean.
  assert (Hw : uint64_wrap (BatchSize r) = BatchSize r).
  { unfold uint64_wrap. apply Z.mod_small. lia. }
  induction Hclean as [|tx c Htx _ IH]; intros ledger batch.
  { exists (ledger, batch). split; [reflexivity|]. simpl. rewrite app_nil_r. reflexivity. }
  rewrite Replay_range_cons, Htx, Hmode, Hw. cbn [negb].
  unfold submissions. cbn [List.filter]. fold (submissions c).
  destruct (nonempty (MethodName tx)).
  - rewrite bind_comment_snd, bind_comment_batches.
    rewrite (proj2 (Z.eqb_neq _ _)) by lia. cbv zeta.
    destruct (len _ =? BatchSize r).
    + destruct (SignAndSendTransactionM_accepted ledger
                  (batch ++ [batchAction tx (Gas r / BatchSize r)]) Hacc)
        as (ledger' & txResult & Hsend & Hpass).
      destruct (IH ledger' []) as (st & Hst & Hcat).
      exists st.
      rewrite !snd_bind, !fst_bind, Hsend. cbn [fst snd emit].
      rewrite !snd_bind, !fst_bind, (Hpass true (EthTx tx)).
      split; [exact Hst|].
      rewrite !sent_batches_app.
      rewrite (stdout_batches _ (procTxResult_stdout true (EthTx tx) txResult)).
      cbn [sent_batches app concat Println].
      rewrite <- !app_assoc. simpl in Hcat. rewrite Hcat. reflexivity.
    + destruct (IH ledger (batch ++ [batchAction tx (Gas r / BatchSize r)]))
        as (st & Hst & Hcat).
      exists st. split; [exact Hst|]. rewrite Hcat, <- app_assoc. reflexivity.
  - rewrite bind_comment_snd, bind_comment_batches.
    apply IH.
Qed.

Lemma Replay_last_batch c ledger :
  0 <= BatchSize r ->
  Replay r evmContract c ledger
  = (st <- Replay_range r evmContract c ledger [] ;;
     last_batch r evmContract (fst st) (snd st)).
Proof.
  intros Hsize. unfold Replay. rewrite (proj2 (Z.ltb_ge _ _) Hsize).
  apply bind_ext. intros [ledger' batch]. reflexivity.
Qed.

Lemma last_batch_fst ledger batch :
  batch <> [] ->
  exists evs,
    fst (last_batch r evmContract ledger batch)
    = Println "running last batch" :: SendTransaction evmContract batch :: evs
    /\ sent_batches evs = [].
Proof.
  intros Hne. unfold last_batch.
  assert (Hlen : (0 <? len batch) = true).
  { apply Z.ltb_lt. destruct batch; [contradiction | rewrite len_cons]. pose proof (len_nonneg batch). lia. }
  rewrite Hlen, !fst_bind. cbn [fst snd emit app].
  rewrite SignAndSendTransactionM_fst. cbn [app].
  eexists. split; [reflexivity|].
  destruct (snd (SignAndSendTransactionM evmContract ledger batch)); [|reflexivity ..].
  apply stdout_batches, procTxResult_stdout.
Qed.

Lemma funded_no_single_calls evs :
  Batch r = true -> Forall (event_funded r) evs -> single_calls evs = [].
Proof.
  intros Hmode. induction 1 as [|ev evs Hev _ IH]; [reflexivity|].
  destruct ev; simpl; auto. destruct Hev as [Hoff _]. congruence.
Qed.

Lemma full_batches_sent evs :
  Forall (full_batches r) evs -> Forall (fun b => len b = BatchSize r) (sent_batches evs).
Proof.
  induction 1 as [|ev evs Hev _ IH]; [constructor|].
  destruct ev; simpl; auto.
Qed.

Lemma concat_full (n : Z) (bs : list (list Action)) :
  Forall (fun b => len b = n) bs ->
  len (concat bs) = n * len bs /\ map len bs = replicate (length bs) n.
Proof.
  induction 1 as [|b bs Hb _ [IHl IHm]];
    [split; [unfold len; simpl; lia | reflexivity]|].
  split.
  - simpl concat. unfold len in *. rewrite length_app, length_cons. lia.
  - simpl. rewrite Hb, IHm. reflexivity.
Qed.

(** C4. In batch mode with [BatchSize = N]: after any part of the stream
    the batch under construction holds fewer than [N] actions (it holds
    [N] only at the moment it is sent); every batch handed to the ledger
    holds between 1 and [N] actions, and no single call is made; a batch
    left over when the queue is
    closed is sent as the last submission; and for a stream of [M]
    submission steps without error steps, on a ledger that accepts, the
    run succeeds, sends every action once and in order, in batches of
    [N] followed by one of [M mod N] when that is not zero, which makes
    [ceil(M / N)] submissions. *)
Theorem batches_bounded_and_flushed (c : list Tx) (ledger : Ledger) :
  Batch r = true -> 0 < BatchSize r < 2 ^ 63 ->
  (forall pre rest evs st,
      c = pre ++ rest ->
      Replay_range r evmContract pre ledger [] = (evs, Ok st) ->
      len (snd st) < BatchSize r)
  /\ Forall (fun b => 0 < len b <= BatchSize r)
       (sent_batches (fst (Replay r evmContract c ledger)))
  /\ single_calls (fst (Replay r evmContract c ledger)) = []
  /\ (forall evs ledger' batch,
        Replay_range r evmContract c ledger [] = (evs, Ok (ledger', batch)) ->
        batch <> [] ->
        exists evs',
          fst (Replay r evmContract c ledger)
          = evs ++ Println "running last batch"
                :: SendTransaction evmContract batch :: evs'
          /\ sent_batches evs' = [])
  /\ (ledger_accepts evmContract ->
      Forall (fun t => Error t = None) c ->
      exists evs,
        Replay r evmContract c ledger = (evs, Ok tt)
        /\ concat (sent_batches evs)
           = map (fun t => batchAction t (Gas r / BatchSize r)) (submissions c)
        /\ map len (sent_batches evs)
           = replicate (Z.to_nat (len (submissions c) / BatchSize r)) (BatchSize r)
             ++ (if len (submissions c) mod BatchSize r =? 0 then []
                 else [len (submissions c) mod BatchSize r])
        /\ len (sent_batches evs)
           = (len (submissions c) + BatchSize r - 1) / BatchSize r).
Proof.
  intros Hmode Hsize.
  assert (Hempty : len (@nil Action) < BatchSize r) by (unfold len; simpl; lia).
  split; [|split; [|split; [|split]]].
  - intros pre rest evs st _ Hrun.
    apply (proj2 (Replay_range_full pre Hmode ltac:(lia) ledger [] Hempty)).
    rewrite Hrun. reflexivity.
  - rewrite Replay_last_batch by lia. rewrite fst_bind, sent_batches_app.
    destruct (Replay_range_full c Hmode ltac:(lia) ledger [] Hempty) as [Hfull Hleft].
    apply Forall_app. split.
    + apply full_batches_sent in Hfull.
      eapply Forall_impl; [exact Hfull|]. cbv beta. intros b Hb. lia.
    + destruct (snd (Replay_range r evmContract c ledger [])) as [[ledger' batch]| |];
        [|constructor ..].
      specialize (Hleft _ eq_refl). cbn [fst snd] in *.
      destruct batch as [|act batch]; [constructor|].
      destruct (last_batch_fst ledger' (act :: batch) ltac:(discriminate))
        as (evs & -> & Hnone).
      cbn [sent_batches Println]. rewrite Hnone.
      constructor; [|constructor]. split; [|lia].
      rewrite len_cons. pose proof (len_nonneg batch). lia.
  - apply funded_no_single_calls; [exact Hmode | apply Replay_funded].
  - intros evs ledger' batch Hrun Hne.
    rewrite Replay_last_batch by lia. rewrite fst_bind, Hrun. cbn [fst snd].
    destruct (last_batch_fst ledger' batch Hne) as (evs' & -> & Hnone).
    exists evs'. auto.
  - intros Hacc Hclean.
    destruct (Replay_range_batches c Hmode Hsize Hacc Hclean ledger [])
      as ([ledger' batch] & Hst & Hcat).
    destruct (Replay_range_full c Hmode ltac:(lia) ledger [] Hempty) as [Hfull Hleft].
    specialize (Hleft _ Hst). cbn [fst snd app] in *.
    apply full_batches_sent in Hfull.
    destruct (concat_full _ _ Hfull) as [Hlen Hmap].
    set (bs := sent_batches (fst (Replay_range r evmContract c ledger []))) in *.
    set (acts := map (fun t => batchAction t (Gas r / BatchSize r)) (submissions c)) in *.
    assert (HM : len (submissions c) = BatchSize r * len bs + len batch).
    { rewrite <- Hlen. transitivity (len acts).
      - unfold len, acts. rewrite length_map. reflexivity.
      - rewrite <- Hcat. unfold len. rewrite length_app. lia. }
    pose proof (len_nonneg batch) as Hb0. pose proof (len_nonneg bs) as Hq0.
    assert (Hq : len (submissions c) / BatchSize r = len bs).
    { symmetry. apply (Z.div_unique_pos _ _ _ (len batch)); lia. }
    assert (Hr : len (submissions c) mod BatchSize r = len batch).
    { symmetry. apply (Z.mod_unique_pos _ _ (len bs)); lia. }
    rewrite Hq, Hr.
    assert (HReplay : Replay r evmContract c ledger
              = (fst (Replay_range r evmContract c ledger [])
                 ++ fst (last_batch r evmContract ledger' batch),
                 snd (last_batch r evmContract ledger' batch))).
    { rewrite Replay_last_batch by lia.
      destruct (Replay_range r evmContract c ledger []) as [evs0 res0].
      simpl in Hst. rewrite Hst. cbn [bind fst snd].
      destruct (last_batch r evmContract ledger' batch). reflexivity. }
    rewrite HReplay. eexists. split; [f_equal|].
    { destruct batch as [|act batch]; [reflexivity|].
      destruct (SignAndSendTransactionM_accepted ledger' (act :: batch) Hacc)
        as (ledger'' & txResult & Hsend & Hpass).
      unfold last_batch. rewrite len_cons.
      rewrite (proj2 (Z.ltb_lt _ _)) by (pose proof (len_nonneg batch); lia).
      rewrite !snd_bind, Hsend. cbn [emit snd]. apply Hpass. }
    rewrite sent_batches_app. fold bs.
    destruct batch as [|act batch].
    + cbn [last_batch]. unfold last_batch. cbn. rewrite !app_nil_r.
      rewrite app_nil_r in Hcat.
      split; [exact Hcat|]. split.
      * rewrite Hmap.
        replace (Z.to_nat (len bs)) with (length bs) by (unfold len; lia).
        reflexivity.
      * apply (Z.div_unique_pos _ _ _ (BatchSize r - 1)); [lia|].
        rewrite HM. unfold len at 2. simpl. lia.
    + destruct (last_batch_fst ledger' (act :: batch) ltac:(discriminate))
        as (evs' & -> & Hnone).
      pose proof (len_nonneg batch) as Hb1.
      cbn [sent_batches Println]. rewrite Hnone.
      split; [rewrite concat_app; simpl; rewrite app_nil_r; exact Hcat|].
      split.
      * rewrite map_app, Hmap.
        replace (Z.to_nat (len bs)) with (length bs) by (unfold len; lia).
        rewrite (proj2 (Z.eqb_neq _ _)) by (rewrite len_cons in *; lia).
        reflexivity.
      * unfold len at 1. rewrite length_app. simpl length.
        apply (Z.div_unique_pos _ _ _ (len (act :: batch) - 1)).
        -- rewrite len_cons in *. lia.
        -- rewrite HM. unfold len in *. simpl length in *. lia.
Qed.

End SubmitterFacts.

(* ================================================================== *)
(** * The Result Verifier *)

Lemma bind_Fail {A B} (m : M A) (k : A -> M B) (e : error) :
  snd m = Fail e -> bind m k = (fst m, Fail e).
Proof. destruct m as [evs res]. simpl. intros ->. reflexivity. Qed.

Section VerdictFacts.
Context `{Collaborators} `{LedgerClient}.
Variables (r : Replayer) (evmContract : string).

Lemma showTx_dump tx rlp :
  MarshalBinary tx = inr rlp -> showTx tx = (transaction_dump tx, Ok tt).
Proof.
  intros Hrlp. unfold showTx, transaction_dump. rewrite Hrlp.
  destruct (To tx), (0 <? len (Data tx)); reflexivity.
Qed.

Lemma PrettyPrintResponse_line txResult :
  PrettyPrintResponse txResult = (transaction_id_line txResult, Ok tt).
Proof.
  unfold PrettyPrintResponse, transaction_id_line, transaction_identifier, getTxnId,
    nonempty.
  destruct (txResult !! "transaction") as [[| | | | |transaction]|]; try reflexivity.
  destruct (transaction !! "hash") as [[| | |hash| |]|]; try reflexivity.
  destruct (String.eqb hash ""); reflexivity.
Qed.

(** The identifier line of a response whose [transaction] map has a
    non-empty [hash] string, and of a response that has none. *)
Lemma transaction_id_line_hash txResult transaction hash :
  txResult !! "transaction" = Some (JObject transaction) ->
  transaction !! "hash" = Some (JString hash) -> hash <> "" ->
  transaction_id_line txResult = [Stdout ("Transaction Id " +:+ hash +:+ nl)].
Proof.
  intros Htx Hhash Hne. unfold transaction_id_line, transaction_identifier.
  rewrite Htx, Hhash. destruct (String.eqb_spec hash ""); [contradiction | reflexivity].
Qed.

Lemma transaction_id_line_none txResult :
  (forall transaction hash,
      txResult !! "transaction" = Some (JObject transaction) ->
      transaction !! "hash" = Some (JString hash) -> hash = "") ->
  transaction_id_line txResult = [].
Proof.
  intros Hnone. unfold transaction_id_line, transaction_identifier.
  destruct (txResult !! "transaction") as [[| | | | |transaction]|]; try reflexivity.
  destruct (transaction !! "hash") as [[| | |hash| |]|] eqn:Hhash; try reflexivity.
  rewrite (Hnone transaction hash eq_refl Hhash). reflexivity.
Qed.

(** What the verifier does with a response whose status is a map that
    the JSON encoder prints. *)
Lemma procTxResult_status batch tx txResult status jsn :
  txResult !! "status" = Some (JObject status) ->
  MarshalIndent status = inr jsn ->
  procTxResult batch tx txResult
  = if not_nil status "Failure"
    then
      match negb batch, tx with
      | true, Some t =>
          match showTx t with
          | (dump, Ok _) =>
              (transaction_id_line txResult ++ Println jsn :: dump, Fail SubmissionFailed)
          | (dump, Fail e) =>
              (transaction_id_line txResult ++ Println jsn :: dump, Fail e)
          | (dump, Panic msg) =>
              (transaction_id_line txResult ++ Println jsn :: dump, Panic msg)
          end
      | _, _ => (transaction_id_line txResult ++ [Println jsn], Fail SubmissionFailed)
      end
    else (transaction_id_line txResult ++ [Println jsn], Ok tt).
Proof.
  intros Hstatus Hjsn. unfold procTxResult.
  rewrite PrettyPrintResponse_line, Hstatus, Hjsn. cbn [bind lift ret fail app].
  destruct (not_nil status "Failure"); [|reflexivity].
  destruct (negb batch), tx as [t|]; try reflexivity.
  destruct (showTx t) as [dump [[]|e|msg]]; cbn; rewrite ?app_nil_r; reflexivity.
Qed.

(** C6. For a response whose status is a map (and a transaction that
    encodes, as it did in the generator): the verifier prints the
    transaction identifier when there is one and then the status: for a
    response whose [transaction] map has a non-empty [hash] string the
    output starts with the line [Transaction Id <hash>], followed by the
    status; for a response without such a string it starts with the
    status.  It fails with [SubmissionFailed] exactly when the status has a
    [Failure] entry; in that case, with batch mode off and a source
    transaction at hand, it prints the decoded transaction before
    failing; otherwise it returns normally.  [Replay] passes the response
    of a single call, of a full batch and of the last batch through it,
    and a failure of the verifier is the result of the run, with nothing
    done after it. *)
Theorem procTxResult_verdict (batch : bool) (tx : option Transaction)
    (txResult : Payload) (status : gmap string JSON) (jsn : string) :
  txResult !! "status" = Some (JObject status) ->
  MarshalIndent status = inr jsn ->
  (forall t, tx = Some t -> exists rlp, MarshalBinary t = inr rlp) ->
  (snd (procTxResult batch tx txResult) = Fail SubmissionFailed
   <-> not_nil status "Failure" = true)
  /\ (not_nil status "Failure" = true ->
      procTxResult batch tx txResult
      = (transaction_id_line txResult ++ Println jsn
           :: match negb batch, tx with
              | true, Some t => transaction_dump t
              | _, _ => []
              end,
         Fail SubmissionFailed))
  /\ (not_nil status "Failure" = false ->
      procTxResult batch tx txResult
      = (transaction_id_line txResult ++ [Println jsn], Ok tt))
  /\ (forall transaction hash,
        txResult !! "transaction" = Some (JObject transaction) ->
        transaction !! "hash" = Some (JString hash) -> hash <> "" ->
        exists rest,
          fst (procTxResult batch tx txResult)
          = Stdout ("Transaction Id " +:+ hash +:+ nl) :: Stdout (jsn +:+ nl) :: rest)
  /\ ((forall transaction hash,
         txResult !! "transaction" = Some (JObject transaction) ->
         transaction !! "hash" = Some (JString hash) -> hash = "") ->
      exists rest,
        fst (procTxResult batch tx txResult) = Stdout (jsn +:+ nl) :: rest)
  /\ (forall t c ledger pending ledger' res e,
        Batch r = false -> Error t = None -> nonempty (MethodName t) = true ->
        Account_FunctionCall ledger evmContract (MethodName t) (Args t) (Gas r) 0
        = (ledger', inr res) ->
        snd (procTxResult false (EthTx t) res) = Fail e ->
        Replay_range r evmContract (t :: c) ledger pending
        = ((if nonempty (Comment t) then [Println (Comment t)] else [])
           ++ CallFunction evmContract (MethodName t) (Args t) (Gas r) 0
           :: fst (procTxResult false (EthTx t) res),
           Fail e))
  /\ (forall t c ledger pending ledger' res e,
        Batch r = true -> Error t = None -> nonempty (MethodName t) = true ->
        uint64_wrap (BatchSize r) <> 0 ->
        len (pending ++ [batchAction t (Gas r / uint64_wrap (BatchSize r))])
        = BatchSize r ->
        Account_SignAndSendTransaction ledger evmContract
          (pending ++ [batchAction t (Gas r / uint64_wrap (BatchSize r))])
        = (ledger', inr res) ->
        snd (procTxResult true (EthTx t) res) = Fail e ->
        Replay_range r evmContract (t :: c) ledger pending
        = ((if nonempty (Comment t) then [Println ("batching: " +:+ Comment t)] else [])
           ++ Println "running batch"
           :: SendTransaction evmContract
                (pending ++ [batchAction t (Gas r / uint64_wrap (BatchSize r))])
           :: fst (procTxResult true (EthTx t) res),
           Fail e))
  /\ (forall c ledger evs ledger' pending ledger'' res,
        0 <= BatchSize r ->
        Replay_range r evmContract c ledger [] = (evs, Ok (ledger', pending)) ->
        pending <> [] ->
        Account_SignAndSendTransaction ledger' evmContract pending = (ledger'', inr res) ->
        Replay r evmContract c ledger
        = (evs ++ Println "running last batch"
               :: SendTransaction evmContract pending
               :: fst (procTxResult (Batch r) None res),
           snd (procTxResult (Batch r) None res))).
Proof.
  intros Hstatus Hjsn Hrlp.
  pose proof (procTxResult_status batch tx txResult status jsn Hstatus Hjsn) as Hproc.
  assert (Hdump : forall t, tx = Some t -> showTx t = (transaction_dump t, Ok tt)).
  { intros t Ht. destruct (Hrlp t Ht) as [rlp Hm]. exact (showTx_dump t rlp Hm). }
  assert (Hout : exists rest,
            fst (procTxResult batch tx txResult)
            = transaction_id_line txResult ++ Stdout (jsn +:+ nl) :: rest).
  { rewrite Hproc. destruct (not_nil status "Failure"); [|eexists; reflexivity].
    destruct (negb batch), tx as [t|]; try (eexists; reflexivity).
    rewrite (Hdump t eq_refl). eexists. reflexivity. }
  split; [|split; [|split; [|split; [|split; [|split; [|split]]]]]].
  - rewrite Hproc. destruct (not_nil status "Failure").
    + split; [reflexivity | intros _].
      destruct (negb batch), tx as [t|]; try reflexivity.
      rewrite (Hdump t eq_refl). reflexivity.
    + split; discriminate.
  - intros Hfail. rewrite Hproc, Hfail.
    destruct (negb batch), tx as [t|]; try reflexivity.
    rewrite (Hdump t eq_refl). reflexivity.
  - intros Hfine. rewrite Hproc, Hfine. reflexivity.
  - intros transaction hash Htx Hhash Hne. destruct Hout as [rest Hout].
    exists rest. rewrite Hout, (transaction_id_line_hash _ _ _ Htx Hhash Hne). reflexivity.
  - intros Hnone. destruct Hout as [rest Hout].
    exists rest. rewrite Hout, (transaction_id_line_none _ Hnone). reflexivity.
  - intros t c ledger pending ledger' res e Hmode Herr Hname Hcall Hverdict.
    rewrite Replay_range_cons, Herr, Hname, Hmode. cbn [negb].
    unfold FunctionCallM. rewrite Hcall.
    destruct (nonempty (Comment t)); cbn [when bind emit ret app fst snd];
      rewrite (bind_Fail _ _ e Hverdict); reflexivity.
  - intros t c ledger pending ledger' res e Hmode Herr Hname Hdiv Hfull Hcall Hverdict.
    rewrite Replay_range_cons, Herr, Hname, Hmode. cbn [negb].
    rewrite (proj2 (Z.eqb_neq _ _) Hdiv). cbv zeta.
    rewrite (proj2 (Z.eqb_eq _ _) Hfull).
    unfold SignAndSendTransactionM. rewrite Hcall.
    destruct (nonempty (Comment t)); cbn [when bind emit ret app fst snd];
      rewrite (bind_Fail _ _ e Hverdict); reflexivity.
  - intros c ledger evs ledger' pending ledger'' res Hsize Hrun Hne Hcall.
    rewrite Replay_last_batch by exact Hsize. rewrite Hrun. cbn [bind fst snd].
    unfold last_batch.
    assert (Hlen : (0 <? len pending) = true).
    { apply Z.ltb_lt. destruct pending; [contradiction | rewrite len_cons].
      pose proof (len_nonneg pending). lia. }
    rewrite Hlen. unfold SignAndSendTransactionM. rewrite Hcall.
    cbn [bind emit ret app fst snd].
    destruct (procTxResult (Batch r) None res). reflexivity.
Qed.

(** C10. The verifier asserts that the response has a [status] entry
    that is a string-keyed map.  For a response without the entry, or
    with an entry of another shape, it panics, after the line with the
    transaction identifier; it does not return an error.  The message of
    the panic is that of a failed type assertion and names what was found
    in place of the map: [nil] for a missing entry and for a JSON null,
    [bool], [float64], [string] or [[]interface {}] otherwise. *)
Theorem procTxResult_panics (batch : bool) (tx : option Transaction) (txResult : Payload) :
  (forall status, txResult !! "status" <> Some (JObject status)) ->
  procTxResult batch tx txResult
  = (transaction_id_line txResult,
     Panic ("interface conversion: interface {} is "
            +:+ match txResult !! "status" with
                | None | Some JNull => "nil"
                | Some (JBool _) => "bool"
                | Some (JNumber _) => "float64"
                | Some (JString _) => "string"
                | Some (JArray _) => "[]interface {}"
                | Some (JObject _) => "map[string]interface {}"   (* not met *)
                end
            +:+ ", not map[string]interface {}"))
  /\ (forall e, snd (procTxResult batch tx txResult) <> Fail e).
Proof.
  intros Hshape. unfold procTxResult. rewrite PrettyPrintResponse_line.
  destruct (txResult !! "status") as [[| | | | |status]|];
    try (cbn; rewrite app_nil_r; split; [reflexivity | discriminate]).
  destruct (Hshape status eq_refl).
Qed.

End VerdictFacts.

(* ================================================================== *)
(** * The Retry Helper *)

Lemma flat_map_seq_S {A} (f : nat -> list A) (a n : nat) :
  flat_map f (seq (S a) n) = flat_map (fun k => f (S k)) (seq a n).
Proof.
  revert a. induction n as [|n IH]; intros a; [reflexivity|].
  simpl. rewrite IH. reflexivity.
Qed.

Section RetryFacts.
Context `{GetResult}.
Variable waitBackoff : float.

Lemma remote_at_shift remote remote' result :
  fn remote = (remote', result) ->
  forall k, remote_at (S k) remote = remote_at k remote'.
Proof. intros Hfn k. cbn [remote_at]. rewrite Hfn. reflexivity. Qed.

Lemma failed_attempt_0 startWaitTime remote remote' err :
  fn remote = (remote', inl err) ->
  failed_attempt startWaitTime waitBackoff remote 0
  = [Invoke; Println (error_text err); Sleep (milliseconds startWaitTime)].
Proof.
  intros Hfn. unfold failed_attempt, attempt. cbn [remote_at wait_at].
  rewrite Hfn. reflexivity.
Qed.

Lemma failed_attempt_shift startWaitTime remote remote' result :
  fn remote = (remote', result) ->
  forall k,
    failed_attempt startWaitTime waitBackoff remote (S k)
    = failed_attempt (backoff startWaitTime waitBackoff) waitBackoff remote' k.
Proof.
  intros Hfn k. unfold failed_attempt, attempt. cbn [remote_at wait_at].
  rewrite Hfn. reflexivity.
Qed.


Lemma ExponentialBackoff_loop_success j :
  forall attempts waitTime remote res,
    (j < attempts)%nat ->
    (forall k, (k < j)%nat -> exists err, attempt k remote = inl err) ->
    attempt j remote = inr res ->
    ExponentialBackoff_loop attempts waitTime waitBackoff remote
    = (remote_at (S j) remote,
       (flat_map (failed_attempt waitTime waitBackoff remote) (seq 0 j) ++ [Invoke],
        Ok res)).
Proof.
  induction j as [|j IH]; intros attempts waitTime remote res Hlt Hfail Hok;
    (destruct attempts as [|attempts]; [lia|]); cbn [ExponentialBackoff_loop].
  - unfold attempt in Hok. cbn [remote_at seq flat_map app] in *.
    destruct (fn remote) as [remote' [err|res']]; simpl in Hok; [discriminate|].
    injection Hok as ->. reflexivity.
  - destruct (Hfail 0%nat ltac:(lia)) as [err Herr].
    unfold attempt in Herr. cbn [remote_at] in Herr.
    destruct (fn remote) as [remote' [err'|res']] eqn:Hfn; simpl in Herr; [|discriminate].
    assert (Hshift : forall k, attempt k remote' = attempt (S k) remote).
    { intros k. unfold attempt. cbn [remote_at]. rewrite Hfn. reflexivity. }
    rewrite (IH attempts (backoff waitTime waitBackoff) remote' res);
      [| lia | intros k Hk; rewrite Hshift; apply Hfail; lia | rewrite Hshift; exact Hok].
    cbn [fst snd]. rewrite (remote_at_shift remote remote' (inl err') Hfn (S j)).
    cbn [seq flat_map]. rewrite flat_map_seq_S.
    rewrite (flat_map_ext _ _ (failed_attempt_shift waitTime remote remote' (inl err') Hfn)).
    rewrite (failed_attempt_0 waitTime remote remote' err' Hfn). reflexivity.
Qed.

Lemma ExponentialBackoff_loop_exhausted attempts :
  forall waitTime remote,
    (forall k, (k < attempts)%nat -> exists err, attempt k remote = inl err) ->
    ExponentialBackoff_loop attempts waitTime waitBackoff remote
    = (remote_at attempts remote,
       (flat_map (failed_attempt waitTime waitBackoff remote) (seq 0 attempts),
        Fail RetryExhausted)).
Proof.
  induction attempts as [|attempts IH]; intros waitTime remote Hfail; [reflexivity|].
  cbn [ExponentialBackoff_loop].
  destruct (Hfail 0%nat ltac:(lia)) as [err Herr].
  unfold attempt in Herr. cbn [remote_at] in Herr.
  destruct (fn remote) as [remote' [err'|res']] eqn:Hfn; simpl in Herr; [|discriminate].
  assert (Hshift : forall k, attempt k remote' = attempt (S k) remote).
  { intros k. unfold attempt. cbn [remote_at]. rewrite Hfn. reflexivity. }
  rewrite (IH (backoff waitTime waitBackoff) remote');
    [| intros k Hk; rewrite Hshift; apply Hfail; lia].
  cbn [fst snd]. rewrite (remote_at_shift remote remote' (inl err') Hfn attempts).
  cbn [seq flat_map]. rewrite flat_map_seq_S.
  rewrite (flat_map_ext _ _ (failed_attempt_shift waitTime remote remote' (inl err') Hfn)).
  rewrite (failed_attempt_0 waitTime remote remote' err' Hfn). reflexivity.
Qed.


End RetryFacts.

(* ================================================================== *)
(** * The gas allotment *)

Section GasFacts.
Context `{Collaborators} `{LedgerClient}.
Variables (r : Replayer) (a : Account) (evmContract : string) (db : Database).


End GasFacts.

(** One transaction, batching off: one call with all the gas. *)
Example single_call_gas :
  fst (@Replay sample_collaborators sample_ledger (config false 1 0 0 0 0) "evm"
         [submitTx 1 0 tx_a [Byte.x60; Byte.x80] "300000000000000"] 0%nat)
  = [Stdout ("submit(1, tx=0, tx_size=2, gas=300000000000000Ⓝ)" +:+ nl);
     CallFunction "evm" "submit" [Byte.x60; Byte.x80] 300000000000000 0;
     Stdout ("Transaction Id 9xQn" +:+ nl);
     Stdout ("{}" +:+ nl)].
Proof. vm_compute. reflexivity. Qed.

(** The same with batches of seven: the action carries a seventh. *)
Example batched_call_gas :
  sent_batches
    (fst (@Replay sample_collaborators sample_ledger (config true 7 0 0 0 0) "evm"
            [submitTx 1 0 tx_a [Byte.x60; Byte.x80] "42857142857142"] 0%nat))
  = [[{| Enum := 2;
         action_FunctionCall :=
           {| fc_MethodName := "submit"; fc_Args := [Byte.x60; Byte.x80];
              fc_Gas := 42857142857142; fc_Deposit := 0 |} |}]].
Proof. vm_compute. reflexivity. Qed.

(* ================================================================== *)
(** * The theorems at work on the small chain *)

Lemma chain3_valid : ValidChain chain3 block3 3.
Proof.
  split.
  - lia.
  - simpl. exists block2. split; [reflexivity|].
    exists block1. split; [reflexivity|].
    exists block0. split; [reflexivity | exact I].
  - intros h n m Hn Hm. unfold chain3 in Hn, Hm.
    rewrite !lookup_insert_is_Some, lookup_empty in Hn, Hm.
    destruct Hn as [Hn | [_ [Hn | [_ [Hn | [_ [? Hn]]]]]]];
      destruct Hm as [Hm | [_ [Hm | [_ [Hm | [_ [? Hm]]]]]]];
      try discriminate; congruence.
Qed.

Example traverse_chain3 : snd (traverse chain3 block3 3) = Ok hashes3.
Proof. vm_compute. reflexivity. Qed.

Lemma traverse_ascending_witness :
  exists evs hs, traverse chain3 block3 3 = (evs, Ok hs) /\ len hs = 3 /\ NoDup hs.
Proof.
  destruct (traverse_ascending chain3 block3 3 chain3_valid)
    as (evs & hs & Hrun & Hlen & _ & _ & _ & _ & Hnodup).
  exists evs, hs. auto.
Defined.

(** The stream for the whole chain, by origin and kind of step. *)
Example generate_chain3 :
  map (fun s => (fst s, kind (snd s)))
    (fst (@generate sample_collaborators (config false 1 0 0 0 0) tt "evm" chain3 hashes3))
  = [(AtGenesis, KSubmission);
     (AtBlock 0, KComment);
     (AtBlock 1, KSubmission); (AtTx 1 0, KSubmission); (AtTx 1 1, KSubmission);
     (AtBlock 2, KSubmission); (AtTx 2 0, KSubmission)].
Proof. vm_compute. reflexivity. Qed.


Example generate_past_break :
  map (fun s => (fst s, kind (snd s)))
    (fst (@generate sample_collaborators (config false 1 0 0 1 2) tt "evm" chain3 hashes3))
  = [(AtGenesis, KSubmission);
     (AtBlock 0, KComment);
     (AtBlock 1, KSubmission); (AtTx 1 0, KSubmission); (AtTx 1 1, KSubmission);
     (AtBlock 2, KSubmission); (AtTx 2 0, KSubmission)].
Proof. vm_compute. reflexivity. Qed.



Lemma start_cursor_window_witness :
  exists rlp amount t,
    @MarshalBinary sample_collaborators tx_b = inr rlp
    /\ In (AtTx 1 1, t)
         (fst (@generate sample_collaborators (config false 1 1 1 0 0) tt "evm"
                 chain3 hashes3))
    /\ t = submitTx 1 1 tx_b rlp amount
    /\ kind t = KSubmission /\ Args t = rlp /\ EthTx t = Some tx_b.
Proof.
  apply (proj2 (proj2 (@start_cursor_window sample_collaborators (config false 1 1 1 0 0)
                         tt "evm" chain3 hashes3 eq_refl))
           eq_refl 1%nat 11%N block1 1%nat tx_b);
    [reflexivity | reflexivity | reflexivity | right; simpl; lia].
Defined.

Lemma sample_ledger_accepts : @ledger_accepts sample_collaborators sample_ledger "evm".
Proof.
  intros ledger actions. exists (S ledger), ok_response.
  split; [reflexivity | intros batch tx; vm_compute; reflexivity].
Qed.

Lemma batches_bounded_and_flushed_witness :
  exists evs,
    @Replay sample_collaborators sample_ledger (config true 4 0 0 0 0) "evm"
      (received (fst (@generate sample_collaborators (config true 4 0 0 0 0) tt "evm"
                        chain3 hashes3))) 0%nat
    = (evs, Ok tt)
    /\ map len (sent_batches evs) = [4; 2].
Proof.
  destruct (@batches_bounded_and_flushed sample_collaborators sample_ledger
              (config true 4 0 0 0 0) "evm"
              (received (fst (@generate sample_collaborators (config true 4 0 0 0 0) tt
                                "evm" chain3 hashes3)))
              0%nat eq_refl ltac:(simpl; lia))
    as (_ & _ & _ & _ & Hsizes).
  destruct (Hsizes sample_ledger_accepts ltac:(vm_compute; repeat constructor))
    as (evs & Hrun & _ & Hmap & _).
  exists evs. split; [exact Hrun|]. rewrite Hmap. vm_compute. reflexivity.
Defined.

Lemma error_step_aborts_witness :
  snd (@Replay sample_collaborators sample_ledger (config false 1 0 0 0 0) "evm"
         ([plain_tx "begin_chain" "begin_chain()"]
          ++ errorTx (external "disk failure") :: [plain_tx "submit" "submit(1, tx=0)"])
         0%nat)
  = Fail (external "disk failure").
Proof.
  rewrite (proj2 (@error_step_aborts sample_collaborators sample_ledger
                    (config false 1 0 0 0 0) "evm"
                    [plain_tx "begin_chain" "begin_chain()"]
                    [plain_tx "submit" "submit(1, tx=0)"]
                    (errorTx (external "disk failure")) (external "disk failure")
                    0%nat eq_refl)
             ltac:(simpl; lia)
             (fst (@Replay_range sample_collaborators sample_ledger
                     (config false 1 0 0 0 0) "evm"
                     [plain_tx "begin_chain" "begin_chain()"] 0%nat []))
             (1%nat, [])
             ltac:(vm_compute; reflexivity)).
  reflexivity.
Defined.

Lemma failed_response_status : failed_response !! "status" = Some (JObject failure_status).
Proof. apply lookup_insert_eq. Qed.

Lemma ok_response_status :
  ok_response !! "status" = Some (JObject (<["SuccessValue" := JString "ok"]> ∅)).
Proof. apply lookup_insert_eq. Qed.

Lemma procTxResult_verdict_witness :
  snd (@procTxResult sample_collaborators false (Some tx_a) failed_response)
  = Fail SubmissionFailed
  /\ @procTxResult sample_collaborators false (Some tx_a) ok_response
     = ([Stdout ("Transaction Id 9xQn" +:+ nl); Stdout ("{}" +:+ nl)], Ok tt).
Proof.
  split.
  - apply (proj2 (proj1 (@procTxResult_verdict sample_collaborators failing_ledger
                           (config false 1 0 0 0 0) "evm" false (Some tx_a)
                           failed_response failure_status "{}"
                           failed_response_status eq_refl
                           ltac:(intros t _; eexists; reflexivity)))).
    vm_compute. reflexivity.
  - rewrite (proj1 (proj2 (proj2
               (@procTxResult_verdict sample_collaborators sample_ledger
                  (config false 1 0 0 0 0) "evm" false (Some tx_a)
                  ok_response _ "{}" ok_response_status eq_refl
                  ltac:(intros t _; eexists; reflexivity))))).
    + vm_compute. reflexivity.
    + vm_compute. reflexivity.
Defined.

(** The dump of the failing transaction: a contract creation with a
    payload of two bytes. *)
Example procTxResult_failed_response :
  @procTxResult sample_collaborators false (Some tx_a) failed_response
  = ([Stdout ("{}" +:+ nl);
      Stdout ("transaction:" +:+ nl);
      Stdout ("0x6080" +:+ nl);
      Stdout ("nonce: 7" +:+ nl);
      Stdout ("gasPrice: 20" +:+ nl);
      Stdout ("gasLimit: 21000" +:+ nl);
      Stdout ("to: contract creation" +:+ nl);
      Stdout ("value: 5" +:+ nl);
      Stdout ("data:" +:+ nl);
      Stdout ("0x6080" +:+ nl)],
     Fail SubmissionFailed).
Proof. vm_compute. reflexivity. Qed.

Lemma sample_flawless :
  @Flawless sample_collaborators (config false 0 0 0 0 0) chain3 hashes3.
Proof.
  split.
  - intros [|[|[|j]]] hash Hj _; simpl in Hj; try discriminate;
      injection Hj as <-; vm_compute; eauto.
  - intros b. exists tt. reflexivity.
  - intros tx. eexists. reflexivity.
Qed.

Lemma zero_batch_size_panics_witness :
  snd (@generate sample_collaborators (config false 0 0 0 0 0) tt "evm" chain3 hashes3)
  = Crashed "runtime error: integer divide by zero".
Proof.
  apply (proj2 (proj2 (proj2 (proj2
           (@zero_batch_size_panics sample_collaborators (config false 0 0 0 0 0) tt
              "evm" chain3 hashes3 eq_refl))))
           eq_refl sample_flawless 1%nat 11%N block1 0%nat tx_a);
    [reflexivity | reflexivity | reflexivity | left; simpl; lia].
Defined.

Lemma procTxResult_panics_witness :
  snd (@procTxResult sample_collaborators true None odd_response)
  = Panic "interface conversion: interface {} is string, not map[string]interface {}".
Proof.
  rewrite (proj1 (@procTxResult_panics sample_collaborators true None odd_response
                    ltac:(intros status; vm_compute; discriminate))).
  reflexivity.
Defined.

(** Two timeouts, then an answer: three calls, two sleeps, the second
    one and a half times the first. *)
Example backoff_flaky_read :
  @ExponentialBackoff flaky_read 100 5 1.5%float 0%nat
  = (3%nat,
     ([Invoke; Stdout ("timeout" +:+ nl); Sleep 100000000;
       Invoke; Stdout ("timeout" +:+ nl); Sleep 150000000;
       Invoke],
      Ok ok_response)).
Proof. vm_compute. reflexivity. Qed.

Example backoff_gives_up :
  snd (snd (@ExponentialBackoff flaky_read 100 2 1.5%float 0%nat)) = Fail RetryExhausted.
Proof. vm_compute. reflexivity. Qed.

(* ================================================================== *)
(** * More on the generator: order, endings, what it reads *)

Lemma origin_lt_AtTx_AtTx h i k : i < k -> origin_lt (AtTx h i) (AtTx h k).
Proof. intros. right. simpl. lia. Qed.

Section GeneratorOrder.
Context `{Collaborators}.
Variables (r : Replayer) (a : Account) (evmContract : string) (db : Database).

Lemma txLoop_sorted h txs :
  forall i, StronglySorted origin_lt (map fst (fst (txLoop r h i txs))).
Proof.
  assert (Hlater : forall i rest,
            Forall (origin_lt (AtTx h i)) (map fst (fst (txLoop r h (i + 1) rest)))).
  { intros i rest. apply List.Forall_forall. intros o Ho.
    apply in_map_iff in Ho as ([o' t] & <- & Hin). simpl.
    destruct (txLoop_origin r h rest _ _ _ Hin) as (k & -> & ?).
    apply origin_lt_AtTx_AtTx. lia. }
  induction txs as [|tx txs IH]; intros i; [constructor|].
  tx_cases r; simpl; repeat constructor; auto.
Qed.

(** Whatever the loop over blocks sends is sent at a block or at a
    transaction, at the height the loop starts from or above. *)
Lemma blockLoop_origin blocks :
  forall h0 o t, In (o, t) (fst (blockLoop r a evmContract db h0 blocks)) ->
    exists h, origin_height o = Some h /\ h0 <= h.
Proof.
  induction blocks as [|hash blocks IH]; intros h0 o t Hin; [contradiction|].
  assert (Hrest : In (o, t) (fst (blockLoop r a evmContract db (h0 + 1) blocks)) ->
            exists h, origin_height o = Some h /\ h0 <= h).
  { intros Hin'. destruct (IH _ _ _ Hin') as (h & ? & ?). exists h. split; [auto | lia]. }
  assert (Htx : forall b sent e,
            txLoop r h0 0 (Transactions b) = (sent, e) -> In (o, t) sent ->
            exists h, origin_height o = Some h /\ h0 <= h).
  { intros b sent e Hrun Hin'.
    destruct (txLoop_origin_of r _ _ _ _ _ _ _ Hrun Hin') as (k & -> & _).
    exists h0. split; [reflexivity | lia]. }
  assert (Hhead : forall t', (o, t) = (AtBlock h0, t') ->
            exists h, origin_height o = Some h /\ h0 <= h).
  { intros t' [= -> _]. exists h0. split; [reflexivity | lia]. }
  block_cases r db.
  - destruct Hin as [Hin|[]]. eauto.
  - destruct Hin as [Hin|Hin]; eauto.
  - destruct Hin as [Hin|[]]. eauto.
  - destruct Hin as [Hin|Hin]; [eauto|]. apply in_app_or in Hin as [Hin|Hin]; eauto.
  - destruct Hin as [Hin|Hin]; eauto.
  - destruct Hin as [Hin|Hin]; eauto.
  - destruct Hin as [Hin|Hin]; eauto.
  - destruct Hin as [Hin|[]]. eauto.
Qed.

Lemma blockLoop_sorted blocks :
  forall h0, StronglySorted origin_lt (map fst (fst (blockLoop r a evmContract db h0 blocks))).
Proof.
  induction blocks as [|hash blocks IH]; intros h0; [constructor|].
  assert (Htx : forall b sent e,
            txLoop r h0 0 (Transactions b) = (sent, e) ->
            StronglySorted origin_lt (map fst sent)
            /\ Forall (origin_lt (AtBlock h0)) (map fst sent)
            /\ forall o t, In (o, t) sent -> exists k, o = AtTx h0 k).
  { intros b sent e Hrun. split; [|split].
    - pose proof (txLoop_sorted h0 (Transactions b) 0) as Hs. rewrite Hrun in Hs. exact Hs.
    - apply List.Forall_forall. intros o Ho. apply in_map_iff in Ho as ([o' t] & <- & Hin).
      destruct (txLoop_origin_of r _ _ _ _ _ _ _ Hrun Hin) as (k & -> & _). simpl. lia.
    - intros o t Hin.
      destruct (txLoop_origin_of r _ _ _ _ _ _ _ Hrun Hin) as (k & -> & _). eauto. }
  assert (Hrest : Forall (origin_lt (AtBlock h0))
                    (map fst (fst (blockLoop r a evmContract db (h0 + 1) blocks)))).
  { apply List.Forall_forall. intros o Ho. apply in_map_iff in Ho as ([o' t] & <- & Hin).
    destruct (blockLoop_origin _ _ _ _ Hin) as (h & Ho & ?). simpl.
    destruct o'; simpl in Ho; [discriminate| |]; injection Ho as ->; simpl; lia. }
  block_cases r db; simpl.
  - repeat constructor.
  - constructor; auto.
  - repeat constructor.
  - destruct (Htx _ _ _ Hloop) as (Hs & Hall & Horigin).
    rewrite map_app. constructor.
    + apply StronglySorted_app_2; auto.
      intros o1 o2 Ho1 Ho2.
      apply list_elem_of_In, in_map_iff in Ho1 as ([o1' t1] & <- & Hin1).
      apply list_elem_of_In, in_map_iff in Ho2 as ([o2' t2] & <- & Hin2).
      destruct (Horigin _ _ Hin1) as (k & ->).
      destruct (blockLoop_origin _ _ _ _ Hin2) as (h & Ho & ?). simpl.
      destruct o2'; simpl in Ho; [discriminate| |]; injection Ho as ->; simpl.
      * lia.
      * left. simpl. lia.
    + apply Forall_app. split; auto.
  - destruct (Htx _ _ _ Hloop) as (Hs & Hall & _). constructor; auto.
  - destruct (Htx _ _ _ Hloop) as (Hs & Hall & _). constructor; auto.
  - destruct (Htx _ _ _ Hloop) as (Hs & Hall & _). constructor; auto.
  - repeat constructor.
Qed.

Lemma origin_lt_irrefl o : ~ origin_lt o o.
Proof. destruct o; simpl; try tauto; try lia. unfold lex_lt. simpl. lia. Qed.

Lemma StronglySorted_irrefl_NoDup {A} (R : A -> A -> Prop) (l : list A) :
  (forall x, ~ R x x) -> StronglySorted R l -> List.NoDup l.
Proof.
  intros Hirr. induction 1 as [|x l Hs IH Hall]; constructor; auto.
  intros Hin. rewrite List.Forall_forall in Hall. exact (Hirr x (Hall x Hin)).
Qed.

(** X1.  The steps leave the generator in the order of the chain: the
    step for genesis first, then block by block in ascending height, a
    block's own step before the steps of its transactions, and these by
    ascending index.  No place sends twice.  This holds for every
    configuration and however the run ends. *)
Theorem generate_in_order (blocks : list Hash) :
  StronglySorted origin_lt (map fst (fst (generate r a evmContract db blocks)))
  /\ NoDup (map fst (fst (generate r a evmContract db blocks)))
  /\ head (map fst (fst (generate r a evmContract db blocks))) = Some AtGenesis.
Proof.
  assert (Hs : StronglySorted origin_lt
                 (map fst (fst (generate r a evmContract db blocks)))).
  { unfold generate. cbn [send fst map]. constructor; [apply blockLoop_sorted|].
    apply List.Forall_forall. intros o Ho. apply in_map_iff in Ho as ([o' t] & <- & Hin).
    destruct (blockLoop_origin _ _ _ _ Hin) as (h & Ho & _).
    destruct o'; simpl in *; [discriminate | exact I | exact I]. }
  split; [exact Hs|]. split; [|reflexivity].
  apply NoDup_ListNoDup. exact (StronglySorted_irrefl_NoDup _ _ origin_lt_irrefl Hs).
Qed.

(** When the loop over a block's transactions is left by [return], the
    last value it sent is an error step, and the error is one an encoder
    or the formatter returned. *)
Lemma txLoop_return h txs :
  forall i, snd (txLoop r h i txs) = Return ->
    exists pre k e,
      fst (txLoop r h i txs) = pre ++ [(AtTx h k, errorTx e)]
      /\ ((exists tx, In tx txs /\ MarshalBinary tx = inl e)
          \/ FormatNearAmount (FormatUint (Gas r / uint64_wrap (BatchSize r))) = inl e).
Proof.
  induction txs as [|tx txs IH]; intros i Hend; [discriminate|].
  revert Hend. tx_cases r; intros Hend; try discriminate.
  - destruct (IH _ Hend) as (pre & k & e & -> & Hcause). eexists (_ :: pre), k, e.
    split; [reflexivity|]. destruct Hcause as [(tx' & ? & ?)|?]; [left|right]; eauto.
    exists tx'. split; [right|]; assumption.
  - exists [], i, err. split; [reflexivity|]. left. exists tx. split; [left|]; auto.
  - exists [], i, err. split; [reflexivity|]. right. first [assumption | reflexivity].
  - destruct (IH _ Hend) as (pre & k & e & -> & Hcause). eexists (_ :: pre), k, e.
    split; [reflexivity|]. destruct Hcause as [(tx' & ? & ?)|?]; [left|right]; eauto.
    exists tx'. split; [right|]; assumption.
Qed.

Lemma blockLoop_returned blocks :
  forall h0, snd (blockLoop r a evmContract db h0 blocks) = Returned ->
    exists pre o e,
      fst (blockLoop r a evmContract db h0 blocks) = pre ++ [(o, errorTx e)]
      /\ ((exists j hash,
              blocks !! j = Some hash
              /\ StartBlock r <= h0 + Z.of_nat j
              /\ ReadBlock db hash (uint64_wrap (h0 + Z.of_nat j)) = None
              /\ e = Errorf "cannot read block at height %d with hash %s"
                       [ArgInt (h0 + Z.of_nat j); ArgStr (Hash_Hex hash)])
          \/ (exists j hash blk,
                 blocks !! j = Some hash
                 /\ ReadBlock db hash (uint64_wrap (h0 + Z.of_nat j)) = Some blk
                 /\ (getBlockContext blk = inl e
                     \/ (exists tx, In tx (Transactions blk) /\ MarshalBinary tx = inl e)
                     \/ FormatNearAmount
                          (FormatUint (Gas r / uint64_wrap (BatchSize r))) = inl e))).
Proof.
  induction blocks as [|hash0 blocks IH]; intros h0 Hend; [discriminate|].
  assert (Hrest : forall e,
            (exists j hash,
                blocks !! j = Some hash
                /\ StartBlock r <= h0 + 1 + Z.of_nat j
                /\ ReadBlock db hash (uint64_wrap (h0 + 1 + Z.of_nat j)) = None
                /\ e = Errorf "cannot read block at height %d with hash %s"
                         [ArgInt (h0 + 1 + Z.of_nat j); ArgStr (Hash_Hex hash)])
            \/ (exists j hash blk,
                   blocks !! j = Some hash
                   /\ ReadBlock db hash (uint64_wrap (h0 + 1 + Z.of_nat j)) = Some blk
                   /\ (getBlockContext blk = inl e
                       \/ (exists tx, In tx (Transactions blk) /\ MarshalBinary tx = inl e)
                       \/ FormatNearAmount
                            (FormatUint (Gas r / uint64_wrap (BatchSize r))) = inl e)) ->
            (exists j hash,
                (hash0 :: blocks) !! j = Some hash
                /\ StartBlock r <= h0 + Z.of_nat j
                /\ ReadBlock db hash (uint64_wrap (h0 + Z.of_nat j)) = None
                /\ e = Errorf "cannot read block at height %d with hash %s"
                         [ArgInt (h0 + Z.of_nat j); ArgStr (Hash_Hex hash)])
            \/ (exists j hash blk,
                   (hash0 :: blocks) !! j = Some hash
                   /\ ReadBlock db hash (uint64_wrap (h0 + Z.of_nat j)) = Some blk
                   /\ (getBlockContext blk = inl e
                       \/ (exists tx, In tx (Transactions blk) /\ MarshalBinary tx = inl e)
                       \/ FormatNearAmount
                            (FormatUint (Gas r / uint64_wrap (BatchSize r))) = inl e))).
  { intros e [(j & hash & Hj & Hs & Hnone & He)|(j & hash & blk & Hj & Hsome & Hc)].
    - left. exists (S j), hash.
      replace (h0 + Z.of_nat (S j)) with (h0 + 1 + Z.of_nat j) by lia. auto.
    - right. exists (S j), hash, blk.
      replace (h0 + Z.of_nat (S j)) with (h0 + 1 + Z.of_nat j) by lia. auto. }
  cbn [blockLoop] in Hend |- *.
  destruct (negb (BreakBlock r =? 0) && (BreakTx r =? 0) && (h0 =? BreakBlock r));
    [discriminate|].
  destruct (h0 <? StartBlock r) eqn:Hskip; cbn [send fst snd] in Hend |- *.
  { destruct (IH _ Hend) as (pre & o & e & -> & Hcause).
    eexists (_ :: pre), o, e. split; [reflexivity | auto]. }
  destruct (ReadBlock db hash0 (uint64_wrap h0)) as [b|] eqn:Hread.
  2:{ eexists [], (AtBlock h0), _. split; [reflexivity|]. left. exists 0%nat, hash0.
      rewrite Z.add_0_r. repeat split; auto. lia. }
  destruct (getBlockContext b) as [err|ctx] eqn:Hctx.
  { exists [], (AtBlock h0), err. split; [reflexivity|]. right. exists 0%nat, hash0, b.
    rewrite Z.add_0_r. auto. }
  destruct (txLoop r h0 0 (Transactions b)) as [sent [| | |why]] eqn:Hloop;
    cbn [send fst snd] in Hend |- *; try discriminate.
  - destruct (IH _ Hend) as (pre & o & e & -> & Hcause).
    eexists (_ :: sent ++ pre), o, e. split; [|auto].
    simpl. rewrite <- app_assoc. reflexivity.
  - pose proof (txLoop_return h0 (Transactions b) 0) as Hret.
    rewrite Hloop in Hret. destruct (Hret eq_refl) as (pre & k & e & Hsent & Hcause).
    simpl in Hsent. subst sent. eexists (_ :: pre), _, e. split; [reflexivity|].
    right. exists 0%nat, hash0, b. rewrite Z.add_0_r. auto.
Qed.

(** An error step sent at a transaction is the last value of the run,
    which ends without closing the queue. *)
Lemma txLoop_error_last h txs :
  forall i k t, In (AtTx h k, t) (fst (txLoop r h i txs)) -> kind t = KError ->
    snd (txLoop r h i txs) = Return
    /\ last (fst (txLoop r h i txs)) = Some (AtTx h k, t).
Proof.
  induction txs as [|tx txs IH]; intros i k t Hin Hkind; [contradiction|].
  revert Hin. tx_cases r; intros Hin.
  - destruct Hin as [[= <- <-]|[]]. discriminate.
  - destruct Hin as [[= <- <-]|Hin]; [discriminate|].
    destruct (IH _ _ _ Hin Hkind) as [? Hlast]. split; [assumption|].
    rewrite (last_cons_In _ _ _ Hin). exact Hlast.
  - destruct Hin as [[= <- <-]|[]]. split; reflexivity.
  - contradiction.
  - destruct Hin as [[= <- <-]|[]]. split; reflexivity.
  - destruct Hin as [[= <- <-]|Hin]; [discriminate|].
    destruct (IH _ _ _ Hin Hkind) as [? Hlast]. split; [assumption|].
    rewrite (last_cons_In _ _ _ Hin). exact Hlast.
Qed.

Lemma blockLoop_error_last blocks :
  forall h0 h k t,
    In (AtTx h k, t) (fst (blockLoop r a evmContract db h0 blocks)) -> kind t = KError ->
    snd (blockLoop r a evmContract db h0 blocks) = Returned
    /\ last (fst (blockLoop r a evmContract db h0 blocks)) = Some (AtTx h k, t).
Proof.
  induction blocks as [|hash blocks IH]; intros h0 h k t Hin Hkind; [contradiction|].
  assert (Htx : forall b sent e,
            txLoop r h0 0 (Transactions b) = (sent, e) -> In (AtTx h k, t) sent ->
            e = Return /\ last sent = Some (AtTx h k, t)).
  { intros b sent e Hrun Hin'.
    destruct (txLoop_origin_of r _ _ _ _ _ _ _ Hrun Hin') as (k' & [= -> _] & _).
    pose proof (txLoop_error_last h0 (Transactions b) 0 k t) as Hl.
    rewrite Hrun in Hl. exact (Hl Hin' Hkind). }
  revert Hin. block_cases r db; intros Hin.
  - destruct Hin as [[=]|[]].
  - destruct Hin as [[=]|Hin]. destruct (IH _ _ _ _ Hin Hkind) as [? Hlast].
    split; [assumption|]. rewrite (last_cons_In _ _ _ Hin). exact Hlast.
  - destruct Hin as [[=]|[]].
  - destruct Hin as [[=]|Hin]. apply in_app_or in Hin as [Hin|Hin].
    + destruct (Htx _ _ _ Hloop Hin) as [[=] _].
    + destruct (IH _ _ _ _ Hin Hkind) as [? Hlast]. split; [assumption|].
      rewrite (last_cons_In _ (AtTx h k, t)) by (apply in_or_app; right; exact Hin).
      rewrite (last_app_In _ _ _ Hin). exact Hlast.
  - destruct Hin as [[=]|Hin]. destruct (Htx _ _ _ Hloop Hin) as [[=] _].
  - destruct Hin as [[=]|Hin]. destruct (Htx _ _ _ Hloop Hin) as [_ Hlast].
    split; [reflexivity|]. rewrite (last_cons_In _ _ _ Hin). exact Hlast.
  - destruct Hin as [[=]|Hin]. destruct (Htx _ _ _ Hloop Hin) as [[=] _].
  - destruct Hin as [[=]|[]].
Qed.

(** X2.  The generator leaves its queue open only behind an error step:
    when the goroutine returns without [close], the last value it sent
    is an error step, sent in the loop, and its error is that of a block
    that could not be read or one a collaborator returned; and an error
    step sent at a transaction is the last value, with the queue left
    open. *)
Theorem unclosed_queue_ends_in_error (blocks : list Hash) :
  (snd (generate r a evmContract db blocks) = Returned ->
   exists pre o e,
     fst (generate r a evmContract db blocks) = pre ++ [(o, errorTx e)]
     /\ o <> AtGenesis
     /\ (unreadable r db blocks e \/ collaborator_failed r db blocks e))
  /\ (forall h k t,
        In (AtTx h k, t) (fst (generate r a evmContract db blocks)) ->
        kind t = KError ->
        snd (generate r a evmContract db blocks) = Returned
        /\ last (fst (generate r a evmContract db blocks)) = Some (AtTx h k, t)).
Proof.
  unfold generate. cbn [send fst snd]. split.
  - intros Hend.
    destruct (blockLoop_returned blocks 0 Hend) as (pre & o & e & Hsent & Hcause).
    eexists (_ :: pre), o, e. rewrite Hsent. split; [reflexivity|]. split.
    + assert (Hin : In (o, errorTx e) (fst (blockLoop r a evmContract db 0 blocks)))
        by (rewrite Hsent; apply in_or_app; right; left; reflexivity).
      destruct (blockLoop_origin _ _ _ _ Hin) as (h & Ho & _).
      intros ->. discriminate.
    + exact Hcause.
  - intros h k t [[=]|Hin] Hkind.
    destruct (blockLoop_error_last blocks 0 h k t Hin Hkind) as [? Hlast].
    split; [assumption|]. rewrite (last_cons_In _ _ _ Hin). exact Hlast.
Qed.

Lemma txLoop_crash h txs :
  forall i msg, snd (txLoop r h i txs) = Crash msg ->
    uint64_wrap (BatchSize r) = 0 /\ msg = "runtime error: integer divide by zero".
Proof.
  induction txs as [|tx txs IH]; intros i msg Hend; [discriminate|].
  revert Hend. tx_cases r; intros Hend; try discriminate; eauto.
  injection Hend as <-. split; [lia | reflexivity].
Qed.

Lemma blockLoop_crashed blocks :
  forall h0 why, snd (blockLoop r a evmContract db h0 blocks) = Crashed why ->
    uint64_wrap (BatchSize r) = 0 /\ why = "runtime error: integer divide by zero".
Proof.
  induction blocks as [|hash blocks IH]; intros h0 why Hend; [discriminate|].
  revert Hend. block_cases r db; intros Hend; try discriminate; eauto.
  injection Hend as <-. apply (txLoop_crash h0 (Transactions b) 0). rewrite Hloop. reflexivity.
Qed.

(** X3.  Where [startTxGenerator] panics.  Making the queue panics, in
    the caller and before anything is sent, when ten times the batch size,
    as an [int], is negative.  Once the queue is made, the goroutine
    panics for one reason only: a batch size of 0, by which it divides;
    with any other batch size it ends with the queue closed or behind an
    error step.  (Making the queue also panics beyond what the platform
    can allocate; nothing is said here of those sizes.) *)
Theorem startTxGenerator_panics (blocks : list Hash) :
  - 2 ^ 63 <= BatchSize r < 2 ^ 63 ->
  (int_wrap (10 * BatchSize r) < 0 ->
   startTxGenerator r a evmContract db blocks = Panic "makechan: size out of range")
  /\ (forall ch,
        startTxGenerator r a evmContract db blocks = Ok ch ->
        0 <= int_wrap (10 * BatchSize r)
        /\ sent ch = fst (generate r a evmContract db blocks)
        /\ ending ch = snd (generate r a evmContract db blocks)
        /\ (forall msg, ending ch = Crashed msg ->
              BatchSize r = 0 /\ msg = "runtime error: integer divide by zero")
        /\ (BatchSize r <> 0 -> ending ch = Closed \/ ending ch = Returned)).
Proof.
  intros Hint.
  assert (Hcrash : forall msg,
            snd (generate r a evmContract db blocks) = Crashed msg ->
            BatchSize r = 0 /\ msg = "runtime error: integer divide by zero").
  { intros msg Hend. unfold generate in Hend. cbn [send snd] in Hend.
    destruct (blockLoop_crashed blocks 0 msg Hend) as [Hz ->]. split; [|reflexivity].
    unfold uint64_wrap in Hz.
    destruct (Z_lt_le_dec (BatchSize r) 0) as [Hneg|Hpos].
    - replace (BatchSize r) with ((BatchSize r + 2 ^ 64) + (-1) * 2 ^ 64) in Hz by lia.
      rewrite Z.mod_add in Hz by lia. rewrite Z.mod_small in Hz by lia. lia.
    - rewrite Z.mod_small in Hz by lia. exact Hz. }
  assert (Hother : BatchSize r <> 0 ->
            snd (generate r a evmContract db blocks) = Closed
            \/ snd (generate r a evmContract db blocks) = Returned).
  { intros Hnz. destruct (snd (generate r a evmContract db blocks)) as [| |msg];
      [left; reflexivity | right; reflexivity|].
    destruct (Hcrash msg eq_refl) as [Hz _]. contradiction. }
  unfold startTxGenerator. cbv zeta. split.
  - intros Hneg. rewrite (proj2 (Z.ltb_lt _ _) Hneg). reflexivity.
  - intros ch Hch. destruct (int_wrap (10 * BatchSize r) <? 0) eqn:Hsize; [discriminate|].
    apply Z.ltb_ge in Hsize. injection Hch as <-. cbn [sent ending].
    split; [exact Hsize|]. split; [reflexivity|]. split; [reflexivity|].
    split; [exact Hcrash | exact Hother].
Qed.

Lemma blockLoop_reads (db' : Database) blocks :
  forall h0,
    (forall j hash, blocks !! j = Some hash -> StartBlock r <= h0 + Z.of_nat j ->
       ReadBlock db hash (uint64_wrap (h0 + Z.of_nat j))
       = ReadBlock db' hash (uint64_wrap (h0 + Z.of_nat j))) ->
    blockLoop r a evmContract db h0 blocks = blockLoop r a evmContract db' h0 blocks.
Proof.
  induction blocks as [|hash blocks IH]; intros h0 Hsame; [reflexivity|].
  assert (Hrest : blockLoop r a evmContract db (h0 + 1) blocks
                  = blockLoop r a evmContract db' (h0 + 1) blocks).
  { apply IH. intros j hash' Hj Hs.
    replace (h0 + 1 + Z.of_nat j) with (h0 + Z.of_nat (S j)) in * by lia.
    apply Hsame; assumption. }
  cbn [blockLoop].
  destruct (negb (BreakBlock r =? 0) && (BreakTx r =? 0) && (h0 =? BreakBlock r));
    [reflexivity|].
  destruct (h0 <? StartBlock r) eqn:Hskip; [rewrite Hrest; reflexivity|].
  specialize (Hsame 0%nat hash eq_refl). rewrite Z.add_0_r in Hsame.
  rewrite <- Hsame by lia. rewrite Hrest. reflexivity.
Qed.

(** X4.  Blocks below the start block are not read: the steps depend
    on the database only through the blocks at or above [StartBlock].
    Two databases that hold the same blocks from there on give the same
    run. *)
Theorem skipped_blocks_are_not_read (db' : Database) (blocks : list Hash) :
  (forall j hash, blocks !! j = Some hash -> StartBlock r <= Z.of_nat j ->
     ReadBlock db hash (uint64_wrap (Z.of_nat j))
     = ReadBlock db' hash (uint64_wrap (Z.of_nat j))) ->
  generate r a evmContract db blocks = generate r a evmContract db' blocks.
Proof.
  intros Hsame. unfold generate. rewrite (blockLoop_reads db' blocks 0); [reflexivity|].
  intros j hash Hj Hs. apply Hsame; assumption.
Qed.

(** What is sent at a block: the comment of the break, the comment of a
    skipped block, an error step, or the step of a block that was read. *)
Lemma blockLoop_block_inv blocks :
  forall h0 h t, In (AtBlock h, t) (fst (blockLoop r a evmContract db h0 blocks)) ->
    h0 <= h
    /\ exists hash,
         blocks !! Z.to_nat (h - h0) = Some hash
         /\ ((BreakBlock r <> 0 /\ BreakTx r = 0 /\ h = BreakBlock r
              /\ t = commentTx (Sprintf "breaking block %d" [ArgInt h]))
             \/ (h < StartBlock r
                 /\ t = commentTx (Sprintf "skipping block %d" [ArgInt h]))
             \/ (StartBlock r <= h
                 /\ match ReadBlock db hash (uint64_wrap h) with
                    | None =>
                        t = errorTx (Errorf "cannot read block at height %d with hash %s"
                                       [ArgInt h; ArgStr (Hash_Hex hash)])
                    | Some b =>
                        match getBlockContext b with
                        | inl err => t = errorTx err
                        | inr ctx => t = blockStep r a evmContract h b ctx
                        end
                    end)).
Proof.
  induction blocks as [|hash0 blocks IH]; intros h0 h t Hin; [contradiction|].
  assert (Hrest : In (AtBlock h, t) (fst (blockLoop r a evmContract db (h0 + 1) blocks)) ->
            h0 <= h
            /\ exists hash,
                 (hash0 :: blocks) !! Z.to_nat (h - h0) = Some hash
                 /\ ((BreakBlock r <> 0 /\ BreakTx r = 0 /\ h = BreakBlock r
                      /\ t = commentTx (Sprintf "breaking block %d" [ArgInt h]))
                     \/ (h < StartBlock r
                         /\ t = commentTx (Sprintf "skipping block %d" [ArgInt h]))
                     \/ (StartBlock r <= h
                         /\ match ReadBlock db hash (uint64_wrap h) with
                            | None =>
                                t = errorTx
                                      (Errorf "cannot read block at height %d with hash %s"
                                         [ArgInt h; ArgStr (Hash_Hex hash)])
                            | Some b =>
                                match getBlockContext b with
                                | inl err => t = errorTx err
                                | inr ctx => t = blockStep r a evmContract h b ctx
                                end
                            end))).
  { intros Hin'. destruct (IH _ _ _ Hin') as (? & hash & Hl & Hcases).
    split; [lia|]. exists hash. split; [|exact Hcases].
    replace (Z.to_nat (h - h0)) with (S (Z.to_nat (h - (h0 + 1)))) by lia. exact Hl. }
  assert (Htx : forall b sent e,
            txLoop r h0 0 (Transactions b) = (sent, e) -> ~ In (AtBlock h, t) sent).
  { intros b sent e Hrun Hin'.
    destruct (txLoop_origin_of r _ _ _ _ _ _ _ Hrun Hin') as (k & [=] & _). }
  revert Hin. block_cases r db; intros Hin.
  - destruct Hin as [[= <- <-]|[]]. split; [lia|]. exists hash0.
    rewrite Z.sub_diag. split; [reflexivity|]. left.
    apply andb_prop in Hbreak as [Hb1 Hb3]. apply andb_prop in Hb1 as [Hb1 Hb2].
    apply negb_true_iff in Hb1. repeat split; try lia.
  - destruct Hin as [[= <- <-]|Hin]; [|auto]. split; [lia|]. exists hash0.
    rewrite Z.sub_diag. split; [reflexivity|]. right. left. split; [lia | reflexivity].
  - destruct Hin as [[= <- <-]|[]]. split; [lia|]. exists hash0.
    rewrite Z.sub_diag. split; [reflexivity|]. right. right. split; [lia|].
    rewrite Hread, Hctx. reflexivity.
  - destruct Hin as [[= <- <-]|Hin].
    + split; [lia|]. exists hash0. rewrite Z.sub_diag. split; [reflexivity|].
      right. right. split; [lia|]. rewrite Hread, Hctx. reflexivity.
    + apply in_app_or in Hin as [Hin|Hin]; [destruct (Htx _ _ _ Hloop Hin) | auto].
  - destruct Hin as [[= <- <-]|Hin]; [|destruct (Htx _ _ _ Hloop Hin)].
    split; [lia|]. exists hash0. rewrite Z.sub_diag. split; [reflexivity|].
    right. right. split; [lia|]. rewrite Hread, Hctx. reflexivity.
  - destruct Hin as [[= <- <-]|Hin]; [|destruct (Htx _ _ _ Hloop Hin)].
    split; [lia|]. exists hash0. rewrite Z.sub_diag. split; [reflexivity|].
    right. right. split; [lia|]. rewrite Hread, Hctx. reflexivity.
  - destruct Hin as [[= <- <-]|Hin]; [|destruct (Htx _ _ _ Hloop Hin)].
    split; [lia|]. exists hash0. rewrite Z.sub_diag. split; [reflexivity|].
    right. right. split; [lia|]. rewrite Hread, Hctx. reflexivity.
  - destruct Hin as [[= <- <-]|[]]. split; [lia|]. exists hash0.
    rewrite Z.sub_diag. split; [reflexivity|]. right. right. split; [lia|].
    rewrite Hread. reflexivity.
Qed.

(** X5.  The only submission sent at a block is its [begin_block] call,
    made with the configured gas and the context of the block that was
    read there; it is never sent for a block below the start block, and
    with [Skip] on never for an empty block. *)
Theorem block_submission_is_begin_block (blocks : list Hash) (h : Z) (t : Tx) :
  In (AtBlock h, t) (fst (generate r a evmContract db blocks)) ->
  kind t = KSubmission ->
  exists hash b ctx,
    blocks !! Z.to_nat h = Some hash
    /\ ReadBlock db hash (uint64_wrap h) = Some b
    /\ getBlockContext b = inr ctx
    /\ t = beginBlockTx a evmContract (Gas r) ctx
    /\ StartBlock r <= h
    /\ (Skip r = true -> Transactions b <> []).
Proof.
  unfold generate. cbn [send fst]. intros [[=]|Hin] Hkind.
  destruct (blockLoop_block_inv blocks 0 h t Hin) as (_ & hash & Hl & Hcases).
  rewrite Z.sub_0_r in Hl.
  destruct Hcases as [(_ & _ & _ & ->)|[(_ & ->)|(Hs & Hstep)]]; try discriminate.
  destruct (ReadBlock db hash (uint64_wrap h)) as [b|] eqn:Hread; [|subst t; discriminate].
  destruct (getBlockContext b) as [err|ctx] eqn:Hctx; [subst t; discriminate|].
  exists hash, b, ctx. unfold blockStep in Hstep.
  destruct (negb (Skip r) || (0 <? len (Transactions b))) eqn:Hsend;
    [|subst t; discriminate].
  split; [exact Hl|]. split; [exact Hread|]. split; [exact Hctx|].
  split; [exact Hstep|]. split; [exact Hs|].
  intros Hskip Hempty. rewrite Hskip, Hempty in Hsend. discriminate.
Qed.

Lemma blockLoop_answers blocks :
  BreakBlock r = 0 ->
  forall h0, snd (blockLoop r a evmContract db h0 blocks) = Closed ->
  forall j hash, blocks !! j = Some hash ->
    exists t,
      In (AtBlock (h0 + Z.of_nat j), t) (fst (blockLoop r a evmContract db h0 blocks))
      /\ (h0 + Z.of_nat j < StartBlock r ->
          t = commentTx (Sprintf "skipping block %d" [ArgInt (h0 + Z.of_nat j)]))
      /\ (StartBlock r <= h0 + Z.of_nat j ->
          exists b ctx,
            ReadBlock db hash (uint64_wrap (h0 + Z.of_nat j)) = Some b
            /\ getBlockContext b = inr ctx
            /\ t = blockStep r a evmContract (h0 + Z.of_nat j) b ctx).
Proof.
  intros Hnb. induction blocks as [|hash0 blocks IH]; intros h0 Hend j hash Hj;
    [discriminate|].
  assert (Hrest : forall j',
            j = S j' ->
            snd (blockLoop r a evmContract db (h0 + 1) blocks) = Closed ->
            exists t,
              In (AtBlock (h0 + Z.of_nat j), t)
                 (fst (blockLoop r a evmContract db (h0 + 1) blocks))
              /\ (h0 + Z.of_nat j < StartBlock r ->
                  t = commentTx (Sprintf "skipping block %d" [ArgInt (h0 + Z.of_nat j)]))
              /\ (StartBlock r <= h0 + Z.of_nat j ->
                  exists b ctx,
                    ReadBlock db hash (uint64_wrap (h0 + Z.of_nat j)) = Some b
                    /\ getBlockContext b = inr ctx
                    /\ t = blockStep r a evmContract (h0 + Z.of_nat j) b ctx)).
  { intros j' -> Hend'. simpl in Hj.
    destruct (IH _ Hend' j' hash Hj) as (t & Hin & Hlow & Hhigh).
    replace (h0 + 1 + Z.of_nat j') with (h0 + Z.of_nat (S j')) in * by lia.
    exists t. split; [exact Hin | split; assumption]. }
  cbn [blockLoop] in Hend |- *.
  destruct (negb (BreakBlock r =? 0) && (BreakTx r =? 0) && (h0 =? BreakBlock r))
    eqn:Hbreak; [rewrite Hnb in Hbreak; discriminate|].
  destruct (h0 <? StartBlock r) eqn:Hskip; cbn [send fst snd] in Hend |- *.
  - destruct j as [|j'].
    + injection Hj as <-. rewrite Z.add_0_r. eexists. split; [left; reflexivity|].
      split; [reflexivity | lia].
    + destruct (Hrest j' eq_refl Hend) as (t & Hin & ?). exists t. split; [right|]; auto.
  - destruct (ReadBlock db hash0 (uint64_wrap h0)) as [b|] eqn:Hread; [|discriminate].
    destruct (getBlockContext b) as [err|ctx] eqn:Hctx; [discriminate|].
    destruct (txLoop r h0 0 (Transactions b)) as [sent [| | |why]] eqn:Hloop;
      cbn [send fst snd] in Hend |- *; try discriminate.
    + destruct j as [|j'].
      * injection Hj as <-. rewrite Z.add_0_r. eexists. split; [left; reflexivity|].
        split; [lia|]. intros _. exists b, ctx. auto.
      * destruct (Hrest j' eq_refl Hend) as (t & Hin & ?). exists t.
        split; [right; apply in_or_app; right|]; auto.
    + exfalso. apply (txLoop_no_break r h0 (Transactions b) Hnb 0).
      rewrite Hloop. reflexivity.
Qed.

(** X6.  In a run without a break that closes its queue, every block of
    the list is answered by a step of its own: the comment of a skipped
    block below the start block, and the step of the block read
    otherwise ([begin_block], or its comment for an empty block when
    [Skip] is on). *)
Theorem every_block_is_answered (blocks : list Hash) (j : nat) (hash : Hash) :
  BreakBlock r = 0 ->
  snd (generate r a evmContract db blocks) = Closed ->
  blocks !! j = Some hash ->
  exists t,
    In (AtBlock (Z.of_nat j), t) (fst (generate r a evmContract db blocks))
    /\ (Z.of_nat j < StartBlock r ->
        t = commentTx (Sprintf "skipping block %d" [ArgInt (Z.of_nat j)]))
    /\ (StartBlock r <= Z.of_nat j ->
        exists b ctx,
          ReadBlock db hash (uint64_wrap (Z.of_nat j)) = Some b
          /\ getBlockContext b = inr ctx
          /\ t = blockStep r a evmContract (Z.of_nat j) b ctx).
Proof.
  intros Hnb Hend Hj. unfold generate in *. cbn [send fst snd] in *.
  destruct (blockLoop_answers blocks Hnb 0 Hend j hash Hj) as (t & Hin & Hcases).
  rewrite Z.add_0_l in *. exists t. split; [right; exact Hin | exact Hcases].
Qed.

End GeneratorOrder.

(* ================================================================== *)
(** * More on the consumer: what reaches the ledger, and how often *)

Lemma single_calls_app evs evs' :
  single_calls (evs ++ evs') = single_calls evs ++ single_calls evs'.
Proof.
  induction evs as [|ev evs IH]; [reflexivity|].
  destruct ev; simpl; rewrite ?IH; reflexivity.
Qed.

Lemma single_calls_stdout evs :
  Forall (fun ev => exists text, ev = Stdout text) evs -> single_calls evs = [].
Proof. induction 1 as [|ev evs [text ->] _ IH]; [reflexivity | exact IH]. Qed.

Lemma stdout_single_calls {A} (m : M A) : stdout_only m -> single_calls (fst m) = [].
Proof. apply single_calls_stdout. Qed.

Lemma kind_comment t :
  kind t = KComment -> Error t = None /\ nonempty (MethodName t) = false.
Proof.
  unfold kind. destruct (Error t); [discriminate|].
  destruct (nonempty (MethodName t)); [discriminate | auto].
Qed.

Lemma kind_submission t :
  kind t = KSubmission -> Error t = None /\ nonempty (MethodName t) = true.
Proof.
  unfold kind. destruct (Error t); [discriminate|].
  destruct (nonempty (MethodName t)); [auto | discriminate].
Qed.

Section ConsumerFacts.
Context `{Collaborators} `{LedgerClient}.
Variables (r : Replayer) (evmContract : string).

Lemma funded_no_batches evs :
  Batch r = false -> Forall (event_funded r) evs -> sent_batches evs = [].
Proof.
  intros Hmode. induction 1 as [|ev evs Hev _ IH]; [reflexivity|].
  destruct ev; simpl; auto. destruct Hev as [Hon _]. congruence.
Qed.

Lemma last_batch_single_calls ledger batch :
  single_calls (fst (last_batch r evmContract ledger batch)) = [].
Proof.
  unfold last_batch. destruct (0 <? len batch); [|reflexivity].
  rewrite !fst_bind. cbn [fst snd emit app]. rewrite SignAndSendTransactionM_fst.
  cbn [app single_calls Println].
  destruct (snd (SignAndSendTransactionM evmContract ledger batch)); [|reflexivity ..].
  apply stdout_single_calls, procTxResult_stdout.
Qed.

(** Without batching, the calls made are those of the stream's
    submissions, in order, as far as the run gets. *)
Lemma Replay_range_calls c :
  Batch r = false ->
  forall ledger batch,
    single_calls (fst (Replay_range r evmContract c ledger batch))
      `prefix_of` map call_of (submissions c)
    /\ (forall st, snd (Replay_range r evmContract c ledger batch) = Ok st ->
          single_calls (fst (Replay_range r evmContract c ledger batch))
          = map call_of (submissions c)).
Proof.
  intros Hmode. induction c as [|tx c IH]; intros ledger batch.
  { split; [apply prefix_nil | reflexivity]. }
  rewrite Replay_range_cons.
  destruct (Error tx); [split; [apply prefix_nil | discriminate]|].
  rewrite Hmode. cbn [negb].
  unfold submissions. cbn [List.filter]. fold (submissions c).
  destruct (nonempty (MethodName tx)).
  - rewrite !fst_bind, !snd_bind, comment_snd, single_calls_app.
    rewrite (single_calls_stdout _ (comment_stdout _ _)). cbn [app].
    rewrite FunctionCallM_fst. cbn [app single_calls map].
    destruct (snd (FunctionCallM evmContract ledger (MethodName tx) (Args tx) (Gas r) 0))
      as [answer| |].
    + rewrite !fst_bind, !snd_bind, single_calls_app.
      rewrite (stdout_single_calls _ (procTxResult_stdout false (EthTx tx) (snd answer))).
      cbn [app].
      destruct (snd (procTxResult false (EthTx tx) (snd answer))).
      * destruct (IH (fst answer) batch) as [Hpre Hall]. split.
        -- apply (prefix_cons (call_of tx)). exact Hpre.
        -- intros st Hst. rewrite (Hall st Hst). reflexivity.
      * split; [|discriminate]. apply (prefix_cons (call_of tx)), prefix_nil.
      * split; [|discriminate]. apply (prefix_cons (call_of tx)), prefix_nil.
    + split; [|discriminate]. apply (prefix_cons (call_of tx)), prefix_nil.
    + split; [|discriminate]. apply (prefix_cons (call_of tx)), prefix_nil.
  - rewrite !fst_bind, !snd_bind, comment_snd, single_calls_app.
    rewrite (single_calls_stdout _ (comment_stdout _ _)). cbn [app]. apply IH.
Qed.

(** With batching, the actions handed to the ledger are those of the
    stream's submissions, in order, as far as the run gets; after a loop
    that succeeds, the batch it holds completes them. *)
Lemma Replay_range_actions c :
  Batch r = true ->
  forall ledger batch,
    concat (sent_batches (fst (Replay_range r evmContract c ledger batch)))
      `prefix_of`
      batch ++ map (fun t => batchAction t (Gas r / uint64_wrap (BatchSize r)))
                 (submissions c)
    /\ (forall st, snd (Replay_range r evmContract c ledger batch) = Ok st ->
          concat (sent_batches (fst (Replay_range r evmContract c ledger batch)))
            ++ snd st
          = batch ++ map (fun t => batchAction t (Gas r / uint64_wrap (BatchSize r)))
                       (submissions c)).
Proof.
  intros Hmode. induction c as [|tx c IH]; intros ledger batch.
  { split; [apply prefix_nil|]. intros st [= <-]. simpl. rewrite app_nil_r. reflexivity. }
  rewrite Replay_range_cons.
  destruct (Error tx); [split; [apply prefix_nil | discriminate]|].
  rewrite Hmode. cbn [negb].
  unfold submissions. cbn [List.filter]. fold (submissions c).
  destruct (nonempty (MethodName tx)).
  - rewrite bind_comment_snd, bind_comment_batches.
    destruct (uint64_wrap (BatchSize r) =? 0); [split; [apply prefix_nil | discriminate]|].
    cbv zeta. cbn [map].
    set (act := batchAction tx (Gas r / uint64_wrap (BatchSize r))).
    set (acts := map (fun t => batchAction t (Gas r / uint64_wrap (BatchSize r)))
                   (submissions c)) in *.
    replace (batch ++ act :: acts) with ((batch ++ [act]) ++ acts)
      by (rewrite <- app_assoc; reflexivity).
    destruct (len (batch ++ [act]) =? BatchSize r); [|apply IH].
    rewrite !fst_bind, !snd_bind. cbn [fst snd emit app sent_batches Println].
    rewrite SignAndSendTransactionM_fst. cbn [app sent_batches concat].
    destruct (snd (SignAndSendTransactionM evmContract ledger (batch ++ [act])))
      as [answer| |].
    + rewrite !fst_bind, !snd_bind, sent_batches_app.
      rewrite (stdout_batches _ (procTxResult_stdout true (EthTx tx) (snd answer))).
      cbn [app].
      destruct (snd (procTxResult true (EthTx tx) (snd answer))).
      * destruct (IH (fst answer) []) as [Hpre Hall]. cbn [app] in Hpre, Hall. split.
        -- apply prefix_app. exact Hpre.
        -- intros st Hst. rewrite <- app_assoc, (Hall st Hst). reflexivity.
      * split; [|discriminate]. cbn [sent_batches concat]. rewrite app_nil_r.
        apply prefix_app_r. reflexivity.
      * split; [|discriminate]. cbn [sent_batches concat]. rewrite app_nil_r.
        apply prefix_app_r. reflexivity.
    + split; [|discriminate]. cbn [concat]. rewrite app_nil_r.
      apply prefix_app_r. reflexivity.
    + split; [|discriminate]. cbn [concat]. rewrite app_nil_r.
      apply prefix_app_r. reflexivity.
  - rewrite bind_comment_snd, bind_comment_batches. apply IH.
Qed.

(** X7.  No submission is sent twice and none out of turn, whatever the
    stream holds and whatever the ledger answers: the single calls a run
    makes are the calls of the first submission steps of the stream, in
    order; the actions of the batches it sends, laid end to end, are the
    actions of the first submission steps, in order. *)
Theorem submissions_sent_at_most_once (c : list Tx) (ledger : Ledger) :
  single_calls (fst (Replay r evmContract c ledger))
    `prefix_of` map call_of (submissions c)
  /\ concat (sent_batches (fst (Replay r evmContract c ledger)))
       `prefix_of`
       map (fun t => batchAction t (Gas r / uint64_wrap (BatchSize r))) (submissions c).
Proof.
  destruct (Z.ltb_spec (BatchSize r) 0) as [Hneg|Hsize].
  { unfold Replay. rewrite (proj2 (Z.ltb_lt _ _) Hneg). split; apply prefix_nil. }
  destruct (Batch r) eqn:Hmode.
  - split.
    + rewrite (funded_no_single_calls r _ Hmode (Replay_funded r evmContract c ledger)).
      apply prefix_nil.
    + rewrite Replay_last_batch by exact Hsize. rewrite fst_bind, sent_batches_app.
      destruct (Replay_range_actions c Hmode ledger []) as [Hpre Hall].
      cbn [app] in Hpre, Hall.
      destruct (snd (Replay_range r evmContract c ledger [])) as [[ledger' batch]| |];
        [|cbn [sent_batches]; rewrite app_nil_r; exact Hpre ..].
      specialize (Hall _ eq_refl). cbn [fst snd] in *.
      rewrite concat_app, <- Hall. apply prefix_app.
      destruct batch as [|act batch]; [apply prefix_nil|].
      destruct (last_batch_fst r evmContract ledger' (act :: batch) ltac:(discriminate))
        as (evs & -> & Hnone).
      cbn [sent_batches Println concat]. rewrite Hnone. cbn [concat].
      rewrite app_nil_r. reflexivity.
  - split.
    + rewrite Replay_last_batch by exact Hsize. rewrite fst_bind, single_calls_app.
      destruct (Replay_range_calls c Hmode ledger []) as [Hpre _].
      destruct (snd (Replay_range r evmContract c ledger [])) as [[ledger' batch]| |];
        [rewrite last_batch_single_calls|cbn [single_calls] ..];
        rewrite app_nil_r; exact Hpre.
    + rewrite (funded_no_batches _ Hmode (Replay_funded r evmContract c ledger)).
      apply prefix_nil.
Qed.

Lemma FunctionCallM_answered ledger method args gas deposit :
  ledger_answers evmContract ->
  exists ledger' txResult,
    FunctionCallM evmContract ledger method args gas deposit
    = ([CallFunction evmContract method args gas deposit], Ok (ledger', txResult))
    /\ passes txResult.
Proof.
  intros Hans.
  destruct (Hans ledger method args gas deposit) as (ledger' & txResult & Hcall & Hpass).
  exists ledger', txResult. split; [|exact Hpass].
  unfold FunctionCallM. rewrite Hcall. reflexivity.
Qed.

Lemma Replay_range_answered c :
  Batch r = false -> ledger_answers evmContract ->
  Forall (fun t => Error t = None) c ->
  forall ledger batch,
    exists ledger',
      snd (Replay_range r evmContract c ledger batch) = Ok (ledger', batch).
Proof.
  intros Hmode Hans Hclean. induction Hclean as [|tx c Htx _ IH]; intros ledger batch.
  { exists ledger. reflexivity. }
  rewrite Replay_range_cons, Htx, Hmode. cbn [negb].
  destruct (nonempty (MethodName tx)).
  - rewrite bind_comment_snd.
    destruct (FunctionCallM_answered ledger (MethodName tx) (Args tx) (Gas r) 0 Hans)
      as (ledger' & txResult & Hcall & Hpass).
    rewrite snd_bind, Hcall. cbn [snd]. rewrite snd_bind, (Hpass false (EthTx tx)).
    apply IH.
  - rewrite bind_comment_snd. apply IH.
Qed.

(** X8.  Without batching, on a ledger that answers every call with a
    response that passes, a stream without error steps is replayed to
    its end: every submission step is called once, in the order of the
    stream, and no batch is sent. *)
Theorem every_submission_is_called (c : list Tx) (ledger : Ledger) :
  Batch r = false -> 0 <= BatchSize r -> ledger_answers evmContract ->
  Forall (fun t => Error t = None) c ->
  exists evs,
    Replay r evmContract c ledger = (evs, Ok tt)
    /\ single_calls evs = map call_of (submissions c)
    /\ sent_batches evs = [].
Proof.
  intros Hmode Hsize Hans Hclean.
  destruct (Replay_range_answered c Hmode Hans Hclean ledger []) as (ledger' & Hrun).
  pose proof (proj2 (Replay_range_calls c Hmode ledger []) _ Hrun) as Hcalls.
  exists (fst (Replay r evmContract c ledger)).
  assert (HReplay : Replay r evmContract c ledger
                    = (fst (Replay_range r evmContract c ledger []), Ok tt)).
  { rewrite Replay_last_batch by exact Hsize.
    destruct (Replay_range r evmContract c ledger []) as [evs0 res0].
    cbn [fst snd] in *. subst res0. simpl. rewrite app_nil_r. reflexivity. }
  rewrite HReplay. cbn [fst]. split; [reflexivity|]. split; [exact Hcalls|].
  apply (funded_no_batches _ Hmode).
  pose proof (Replay_funded r evmContract c ledger) as Hf.
  rewrite HReplay in Hf. exact Hf.
Qed.

(** X9.  An error of the ledger ends the processing of the stream at
    once and is what [Replay] returns, as it is: from [// process
    transactions] on, the events of the run end with the call that
    failed, so the answer is not passed to the verifier, no later step is
    read, and the call is not tried again.  This holds for a single call,
    for a batch that filled up, and for the last batch.  (What [Replay]
    deferred before, closing the database and stopping the daemon it set
    up, runs when it returns and is not part of [Replay] as it is
    embedded.) *)
Theorem ledger_error_is_returned :
  (forall t c ledger pending ledger' err,
      Batch r = false -> Error t = None -> nonempty (MethodName t) = true ->
      Account_FunctionCall ledger evmContract (MethodName t) (Args t) (Gas r) 0
      = (ledger', inl err) ->
      Replay_range r evmContract (t :: c) ledger pending
      = ((if nonempty (Comment t) then [Println (Comment t)] else [])
         ++ [CallFunction evmContract (MethodName t) (Args t) (Gas r) 0],
         Fail err))
  /\ (forall t c ledger pending ledger' err,
        Batch r = true -> Error t = None -> nonempty (MethodName t) = true ->
        uint64_wrap (BatchSize r) <> 0 ->
        len (pending ++ [batchAction t (Gas r / uint64_wrap (BatchSize r))])
        = BatchSize r ->
        Account_SignAndSendTransaction ledger evmContract
          (pending ++ [batchAction t (Gas r / uint64_wrap (BatchSize r))])
        = (ledger', inl err) ->
        Replay_range r evmContract (t :: c) ledger pending
        = ((if nonempty (Comment t) then [Println ("batching: " +:+ Comment t)] else [])
           ++ [Println "running batch";
               SendTransaction evmContract
                 (pending ++ [batchAction t (Gas r / uint64_wrap (BatchSize r))])],
           Fail err))
  /\ (forall c ledger evs ledger' pending ledger'' err,
        0 <= BatchSize r ->
        Replay_range r evmContract c ledger [] = (evs, Ok (ledger', pending)) ->
        pending <> [] ->
        Account_SignAndSendTransaction ledger' evmContract pending = (ledger'', inl err) ->
        Replay r evmContract c ledger
        = (evs ++ [Println "running last batch"; SendTransaction evmContract pending],
           Fail err)).
Proof.
  split; [|split].
  - intros t c ledger pending ledger' err Hmode Herr Hmethod Hcall.
    rewrite Replay_range_cons, Herr, Hmethod, Hmode. cbn [negb].
    unfold FunctionCallM. rewrite Hcall.
    destruct (nonempty (Comment t)); reflexivity.
  - intros t c ledger pending ledger' err Hmode Herr Hmethod Hnz Hfull Hcall.
    rewrite Replay_range_cons, Herr, Hmethod, Hmode. cbn [negb].
    rewrite (proj2 (Z.eqb_neq _ _) Hnz). cbv zeta.
    rewrite (proj2 (Z.eqb_eq _ _) Hfull).
    unfold SignAndSendTransactionM. rewrite Hcall.
    destruct (nonempty (Comment t)); reflexivity.
  - intros c ledger evs ledger' pending ledger'' err Hsize Hrun Hne Hcall.
    rewrite Replay_last_batch by exact Hsize. rewrite Hrun.
    unfold last_batch, SignAndSendTransactionM. cbn [bind fst snd].
    assert (Hlen : (0 <? len pending) = true).
    { apply Z.ltb_lt. destruct pending; [contradiction | rewrite len_cons].
      pose proof (len_nonneg pending). lia. }
    rewrite Hlen, Hcall. reflexivity.
Qed.

Lemma comment_lines_cons t c :
  comment_lines (t :: c)
  = (if nonempty (Comment t) then [Println (Comment t)] else []) ++ comment_lines c.
Proof.
  unfold comment_lines. cbn [map List.filter].
  destruct (nonempty (Comment t)); reflexivity.
Qed.

Lemma Replay_range_comments c :
  Forall (fun t => kind t = KComment) c ->
  forall ledger batch,
    Replay_range r evmContract c ledger batch = (comment_lines c, Ok (ledger, batch)).
Proof.
  induction 1 as [|t c Ht _ IH]; intros ledger batch; [reflexivity|].
  destruct (kind_comment t Ht) as [Herr Hmethod].
  rewrite Replay_range_cons, Herr, Hmethod, IH, comment_lines_cons.
  destruct (nonempty (Comment t)); reflexivity.
Qed.

(** X10.  Comment steps cost nothing: a stream of comment steps only is
    replayed without any call to the ledger, in either mode; its
    comments are printed in order, the empty ones left out, and the run
    succeeds. *)
Theorem comments_are_only_printed (c : list Tx) (ledger : Ledger) :
  0 <= BatchSize r ->
  Forall (fun t => kind t = KComment) c ->
  Replay r evmContract c ledger = (comment_lines c, Ok tt).
Proof.
  intros Hsize Hc. rewrite Replay_last_batch by exact Hsize.
  rewrite (Replay_range_comments c Hc). simpl. rewrite app_nil_r. reflexivity.
Qed.

(** X11.  With batching on and a batch size of 0 the consumer itself
    divides by zero: it panics at the first submission step it
    receives, before anything is sent to the ledger.  The steps before
    it are comments and were printed. *)
Theorem zero_batch_size_panics_consumer (pre post : list Tx) (t : Tx) (ledger : Ledger) :
  Batch r = true -> BatchSize r = 0 ->
  Forall (fun t => kind t = KComment) pre -> kind t = KSubmission ->
  Replay r evmContract (pre ++ t :: post) ledger
  = (comment_lines pre
     ++ (if nonempty (Comment t) then [Println ("batching: " +:+ Comment t)] else []),
     Panic "runtime error: integer divide by zero").
Proof.
  intros Hmode Hzero Hpre Ht. destruct (kind_submission t Ht) as [Herr Hmethod].
  rewrite Replay_last_batch by lia.
  rewrite Replay_range_app, (Replay_range_comments pre Hpre). cbn [bind fst snd].
  rewrite Replay_range_cons, Herr, Hmethod, Hmode, Hzero. cbn [negb].
  change (uint64_wrap 0 =? 0) with true. cbv iota.
  destruct (nonempty (Comment t)); reflexivity.
Qed.

End ConsumerFacts.

(* ================================================================== *)
(** * More on the Chain Indexer: a missing ancestor, and the log *)

(** The walk either finds every ancestor and succeeds, or it stops at
    the first hash it cannot read: that hash is the last one of the walk
    described by [parent_walk], and one line was logged for every block
    read before. *)
Lemma traverse_loop_outcome (db : Database) (n : nat) :
  forall b blocks txCount,
    (linked db b n
     /\ exists evs total,
          traverse_loop db n b blocks txCount
          = (evs, Ok (blocks ++ parent_walk db b n, total)))
    \/ (~ linked db b n
        /\ exists evs hash,
             traverse_loop db n b blocks txCount
             = (evs, Fail (Errorf "cannot read block at height %d with hash %s"
                             [ArgInt (Z.of_nat n - len (parent_walk db b n));
                              ArgStr (Hash_Hex hash)]))
             /\ last (parent_walk db b n) = Some hash
             /\ ReadBlock db hash (Z.of_nat n - len (parent_walk db b n)) = None
             /\ len evs = len (parent_walk db b n) - 1).
Proof.
  induction n as [|n IH]; intros b blocks txCount.
  { left. split; [exact I|]. exists [], txCount. simpl. rewrite app_nil_r. reflexivity. }
  cbn [traverse_loop parent_walk linked].
  destruct (ReadBlock db (ParentHash b) (Z.of_nat n)) as [parent|] eqn:Hread.
  - destruct (IH parent (blocks ++ [ParentHash b])
                (uint64_wrap (txCount + len (Transactions parent))))
      as [(Hl & evs & total & Hrun)|(Hnl & evs & hash & Hrun & Hlast & Hnone & Hlen)].
    + left. split; [exists parent; auto|].
      exists (LogInfo (Sprintf "read block at height %d with hash %s"
                         [ArgInt (Z.of_nat n); ArgStr (Hash_Hex (ParentHash b))]) :: evs),
        total.
      rewrite Hrun, <- app_assoc. reflexivity.
    + right. split.
      * intros (parent' & Hread' & Hl).
        assert (parent' = parent) as -> by congruence. exact (Hnl Hl).
      * exists (LogInfo (Sprintf "read block at height %d with hash %s"
                           [ArgInt (Z.of_nat n); ArgStr (Hash_Hex (ParentHash b))]) :: evs),
          hash.
        rewrite len_cons.
        replace (Z.of_nat (S n) - (1 + len (parent_walk db parent n)))
          with (Z.of_nat n - len (parent_walk db parent n)) by lia.
        rewrite Hrun. split; [reflexivity|]. split; [|split; [exact Hnone|]].
        -- destruct (parent_walk db parent n); [discriminate | exact Hlast].
        -- rewrite len_cons. lia.
  - right. split.
    + intros (parent & Hread' & _). congruence.
    + exists [], (ParentHash b). rewrite len_cons.
      replace (Z.of_nat (S n) - (1 + len (@nil Hash))) with (Z.of_nat n)
        by (unfold len; simpl; lia).
      repeat split; auto.
Qed.

(** X12.  The Chain Indexer succeeds exactly when every ancestor down to
    genesis is stored.  When one is missing it fails, without a panic,
    with the error that names the first hash it could not read and the
    height it was looked up at; one line was logged for each block read
    before, and no list is returned. *)
Theorem traverse_fails_on_missing_ancestor (db : Database) (b : Block) (H : Z) :
  ((exists evs hs, traverse db b H = (evs, Ok hs)) <-> linked db b (Z.to_nat H))
  /\ (~ linked db b (Z.to_nat H) ->
      exists evs hash,
        traverse db b H
        = (evs, Fail (Errorf "cannot read block at height %d with hash %s"
                        [ArgInt (H - len (parent_walk db b (Z.to_nat H)));
                         ArgStr (Hash_Hex hash)]))
        /\ last (parent_walk db b (Z.to_nat H)) = Some hash
        /\ ReadBlock db hash (H - len (parent_walk db b (Z.to_nat H))) = None
        /\ len evs = len (parent_walk db b (Z.to_nat H)) - 1).
Proof.
  unfold traverse.
  destruct (traverse_loop_outcome db (Z.to_nat H) b [] 0)
    as [(Hl & evs & total & Hrun)|(Hnl & evs & hash & Hrun & Hlast & Hnone & Hlen)].
  - split; [|intros Hnl; contradiction].
    split; [intros _; exact Hl|]. intros _. rewrite Hrun. simpl. eauto.
  - assert (HH : Z.of_nat (Z.to_nat H) = H).
    { destruct (Z_lt_le_dec H 0) as [Hneg|Hpos]; [|lia].
      exfalso. apply Hnl. replace (Z.to_nat H) with 0%nat by lia. exact I. }
    rewrite HH in *. split.
    + split; [|intros Hl; contradiction].
      intros (evs' & hs & Hok). rewrite Hrun in Hok. discriminate.
    + intros _. exists evs, hash. rewrite Hrun. auto.
Qed.

Lemma uint64_wrap_add_l (x y : Z) :
  uint64_wrap (uint64_wrap x + y) = uint64_wrap (x + y).
Proof. unfold uint64_wrap. apply Zplus_mod_idemp_l. Qed.

(** On a linked chain the walk logs one line per ancestor, from the
    parent of the start block downwards, and counts their transactions
    in 64 bits. *)
Lemma traverse_loop_log (db : Database) (n : nat) :
  forall b blocks txCount,
    linked db b n ->
    traverse_loop db n b blocks txCount
    = (imap (fun j hash => read_line (Z.of_nat n - 1 - Z.of_nat j) hash)
         (parent_walk db b n),
       Ok (blocks ++ parent_walk db b n,
           match n with
           | O => txCount
           | S _ => uint64_wrap (txCount + transaction_count (ancestors db b n))
           end)).
Proof.
  induction n as [|n IH]; intros b blocks txCount Hl.
  { simpl. rewrite app_nil_r. reflexivity. }
  destruct Hl as (parent & Hread & Hl).
  cbn [traverse_loop parent_walk ancestors]. rewrite Hread.
  rewrite (IH parent _ _ Hl), <- app_assoc. cbn [bind emit app imap].
  f_equal.
  - f_equal.
    + replace (Z.of_nat (S n) - 1 - Z.of_nat 0) with (Z.of_nat n) by lia. reflexivity.
    + apply imap_ext. intros j hash _. unfold compose. cbn beta.
      replace (Z.of_nat (S n) - 1 - Z.of_nat (S j)) with (Z.of_nat n - 1 - Z.of_nat j)
        by lia.
      reflexivity.
  - do 2 f_equal. cbn [transaction_count foldr]. fold (transaction_count (ancestors db parent n)).
    destruct n as [|n'].
    + simpl. rewrite Z.add_0_r. reflexivity.
    + rewrite uint64_wrap_add_l. f_equal. lia.
Qed.

(** X13.  What the Chain Indexer logs on a linked chain: one line for
    each ancestor, with its height and hash, from height [H - 1] down to
    genesis, and then the number of transactions in the ancestors,
    counted in 64 bits.  The transactions of the block the walk starts
    from are not counted. *)
Theorem traverse_log (db : Database) (b : Block) (H : Z) :
  linked db b (Z.to_nat H) ->
  fst (traverse db b H)
  = imap (fun j hash => read_line (H - 1 - Z.of_nat j) hash)
      (parent_walk db b (Z.to_nat H))
    ++ [LogInfo (Sprintf "total number of transactions: %d"
                   [ArgInt (uint64_wrap
                              (transaction_count (ancestors db b (Z.to_nat H))))])]
  /\ (transaction_count (ancestors db b (Z.to_nat H)) < 2 ^ 64 ->
      uint64_wrap (transaction_count (ancestors db b (Z.to_nat H)))
      = transaction_count (ancestors db b (Z.to_nat H))).
Proof.
  intros Hl. split.
  - unfold traverse. rewrite (traverse_loop_log db _ b [] 0 Hl).
    cbn [bind emit ret fst app].
    destruct (Z.to_nat H) as [|n] eqn:Hn; [reflexivity|].
    rewrite Z.add_0_l. f_equal. apply imap_ext. intros j hash _. cbn beta.
    replace (Z.of_nat (S n)) with H by lia. reflexivity.
  - intros Hsmall. unfold uint64_wrap. apply Z.mod_small. split; [|exact Hsmall].
    generalize (ancestors db b (Z.to_nat H)). intros bs.
    induction bs as [|blk bs IH]; simpl; [lia|]. pose proof (len_nonneg (Transactions blk)). lia.
Qed.

(* ================================================================== *)
(** * More on the Result Verifier: the identifier, and the other ways
      it ends *)

Section VerifierEndings.
Context `{Collaborators}.

(** X14.  The two endings of the verifier that are neither a verdict nor
    a malformed response.  When the status cannot be encoded, the error
    of the encoder is returned as it is, after the identifier line and
    before anything is printed about the status, whether or not the
    status reports a failure.  When the status reports a failure and the
    transaction to be shown cannot be encoded, the verifier panics with
    the encoder's message after the status was printed. *)
Theorem verifier_encoder_failures (batch : bool) (tx : option Transaction)
    (txResult : Payload) (status : gmap string JSON) :
  txResult !! "status" = Some (JObject status) ->
  (forall e, MarshalIndent status = inl e ->
     procTxResult batch tx txResult = (transaction_id_line txResult, Fail e))
  /\ (forall jsn t err,
        MarshalIndent status = inr jsn ->
        not_nil status "Failure" = true ->
        batch = false -> tx = Some t -> MarshalBinary t = inl err ->
        procTxResult batch tx txResult
        = (transaction_id_line txResult ++ [Println jsn], Panic (error_text err))).
Proof.
  intros Hstatus. split.
  - intros e Hjson. unfold procTxResult.
    rewrite PrettyPrintResponse_line, Hstatus, Hjson. simpl.
    rewrite app_nil_r. reflexivity.
  - intros jsn t err Hjson Hfail -> -> Hrlp. unfold procTxResult, showTx.
    rewrite PrettyPrintResponse_line, Hstatus, Hjson, Hfail, Hrlp. reflexivity.
Qed.

End VerifierEndings.

(** X15.  The identifier of a response is the string stored under
    [transaction], [hash]: a response has a non-empty identifier exactly
    when [transaction] is an object whose [hash] is that string, and
    then the identifier line is the only thing printed for it; in every
    other case (no [transaction], one that is not an object, no [hash],
    one that is not a string, an empty one) nothing is printed. *)
Theorem response_identifier (res : Payload) (id : string) :
  id <> "" ->
  (getTxnId res = id
   <-> exists tx, res !! "transaction" = Some (JObject tx)
                  /\ tx !! "hash" = Some (JString id))
  /\ (getTxnId res = id ->
      PrettyPrintResponse res = ([Stdout ("Transaction Id " +:+ id +:+ nl)], Ok tt))
  /\ (getTxnId res = "" -> PrettyPrintResponse res = ([], Ok tt)).
Proof.
  intros Hid. split; [|split].
  - unfold getTxnId. split.
    + destruct (res !! "transaction") as [[| | | | |tx]|]; try congruence.
      destruct (tx !! "hash") as [[| | |hash| |]|] eqn:Hhash; try congruence.
      intros ->. eauto.
    + intros (tx & -> & ->). reflexivity.
  - intros Hget. unfold PrettyPrintResponse. rewrite Hget.
    destruct id; [contradiction | reflexivity].
  - intros Hget. unfold PrettyPrintResponse. rewrite Hget. reflexivity.
Qed.

(* ================================================================== *)
(** * More on the Retry Helper: every outcome, and a wait of zero *)

Lemma invocations_app evs evs' :
  invocations (evs ++ evs') = (invocations evs + invocations evs')%nat.
Proof.
  induction evs as [|ev evs IH]; [reflexivity|].
  destruct ev; simpl; rewrite ?IH; reflexivity.
Qed.

Section RetryOutcome.
Context `{GetResult}.
Variable waitBackoff : float.

Lemma invocations_failed startWaitTime remote (n : nat) :
  forall a,
    invocations (flat_map (failed_attempt startWaitTime waitBackoff remote) (seq a n)) = n.
Proof.
  induction n as [|n IH]; intros a; [reflexivity|].
  cbn [seq flat_map]. rewrite invocations_app, IH. reflexivity.
Qed.

(** Among the first [n] attempts either one succeeds, and then there is
    a first one, or all fail. *)
Lemma first_success_or_none (remote : Remote) (n : nat) :
  (exists j res,
      (j < n)%nat
      /\ (forall k, (k < j)%nat -> exists err, attempt k remote = inl err)
      /\ attempt j remote = inr res)
  \/ (forall k, (k < n)%nat -> exists err, attempt k remote = inl err).
Proof.
  induction n as [|n [(j & res & Hj & Hbefore & Hres)|Hall]].
  - right. intros k Hk. lia.
  - left. exists j, res. split; [lia | auto].
  - destruct (attempt n remote) as [err|res] eqn:Hn.
    + right. intros k Hk. destruct (Nat.eq_dec k n) as [->|Hne]; [eauto|].
      apply Hall. lia.
    + left. exists n, res. split; [lia | auto].
Qed.

(** X16.  Every run of the Retry Helper ends in one of two ways, for
    every operation, wait time, factor and retry count.  Either some
    attempt within the count succeeds: then the result of the first such
    attempt is returned, and the operation was called once for each
    failed attempt before it and once for it.  Or every attempt within
    the count fails: then the error is [RetryExhausted], after as many
    calls as the count allows.  The errors of the operation itself are
    never returned, and with a count of 0 or less the operation is not
    called at all. *)
Theorem backoff_outcome (startWaitTime retryNumber : Z) (remote : Remote) :
  ((exists j res,
       Z.of_nat j < retryNumber
       /\ (forall k, (k < j)%nat -> exists err, attempt k remote = inl err)
       /\ attempt j remote = inr res
       /\ snd (snd (ExponentialBackoff startWaitTime retryNumber waitBackoff remote))
          = Ok res
       /\ invocations
            (fst (snd (ExponentialBackoff startWaitTime retryNumber waitBackoff remote)))
          = S j
       /\ fst (ExponentialBackoff startWaitTime retryNumber waitBackoff remote)
          = remote_at (S j) remote)
   \/ ((forall k, Z.of_nat k < retryNumber -> exists err, attempt k remote = inl err)
       /\ snd (snd (ExponentialBackoff startWaitTime retryNumber waitBackoff remote))
          = Fail RetryExhausted
       /\ invocations
            (fst (snd (ExponentialBackoff startWaitTime retryNumber waitBackoff remote)))
          = Z.to_nat retryNumber))
  /\ (retryNumber <= 0 ->
      ExponentialBackoff startWaitTime retryNumber waitBackoff remote
      = (remote, ([], Fail RetryExhausted))).
Proof.
  unfold ExponentialBackoff. split.
  - destruct (first_success_or_none remote (Z.to_nat retryNumber))
      as [(j & res & Hj & Hbefore & Hres)|Hall].
    + left. exists j, res.
      rewrite (ExponentialBackoff_loop_success waitBackoff j (Z.to_nat retryNumber)
                 startWaitTime remote res Hj Hbefore Hres).
      cbn [fst snd]. rewrite invocations_app, invocations_failed. simpl.
      repeat split; auto; lia.
    + right.
      rewrite (ExponentialBackoff_loop_exhausted waitBackoff (Z.to_nat retryNumber)
                 startWaitTime remote Hall).
      cbn [fst snd]. rewrite invocations_failed.
      repeat split; auto. intros k Hk. apply Hall. lia.
  - intros Hnone. replace (Z.to_nat retryNumber) with 0%nat by lia. reflexivity.
Qed.

End RetryOutcome.

Lemma backoff_zero (waitBackoff : float) : finite waitBackoff -> backoff 0 waitBackoff = 0.
Proof.
  unfold finite, backoff, int_of_float64. intros Hfin.
  change (float64_of_int 0) with 0%float.
  rewrite mul_spec. change (Prim2SF 0) with (S754_zero false).
  unfold SF64mul, SFmul.
  destruct (Prim2SF waitBackoff); [reflexivity | contradiction | contradiction | reflexivity].
Qed.

(** X17.  A wait time of zero stays zero: with [startWaitTime = 0] and
    a factor that is a number, the wait time in force at every attempt
    is 0, so every sleep of the run lasts no time. *)
Theorem zero_wait_never_grows (waitBackoff : float) (k : nat) :
  finite waitBackoff ->
  wait_at k 0 waitBackoff = 0
  /\ Sleep (milliseconds (wait_at k 0 waitBackoff)) = Sleep 0.
Proof.
  intros Hfin.
  assert (Hk : wait_at k 0 waitBackoff = 0).
  { induction k as [|k IH]; [reflexivity|]. cbn [wait_at].
    rewrite (backoff_zero _ Hfin). exact IH. }
  rewrite Hk. split; reflexivity.
Qed.

(* ================================================================== *)
(** * The command-line options, keys and account names *)

(** X18.  [determineTestnet] succeeds exactly when one of the three
    options is set, and then returns the name of that option; there is
    no default, since no option at all is an error of its own.  Of two
    or three options set, the first conflicting pair in the order
    goerli, rinkeby, ropsten is the one reported. *)
Theorem determineTestnet_exactly_one (f : testnetFlags) :
  (forall name,
      determineTestnet f = inr name
      <-> (f = {| goerli := true; rinkeby := false; ropsten := false |}
           /\ name = "goerli")
          \/ (f = {| goerli := false; rinkeby := true; ropsten := false |}
              /\ name = "rinkeby")
          \/ (f = {| goerli := false; rinkeby := false; ropsten := true |}
              /\ name = "ropsten"))
  /\ (determineTestnet f
      = inl (errors_New "one of the options -goerli, -rinkeby, or -ropsten is mandatory")
      <-> f = {| goerli := false; rinkeby := false; ropsten := false |})
  /\ (determineTestnet f
      = inl (errors_New "the options -goerli and -rinkeby exclude each other")
      <-> goerli f = true /\ rinkeby f = true)
  /\ (determineTestnet f
      = inl (errors_New "the options -goerli and -ropsten exclude each other")
      <-> goerli f = true /\ rinkeby f = false /\ ropsten f = true)
  /\ (determineTestnet f
      = inl (errors_New "the options -rinkeby and -ropsten exclude each other")
      <-> goerli f = false /\ rinkeby f = true /\ ropsten f = true).
Proof.
  destruct f as [[|] [|] [|]];
    cbv [determineTestnet goerli rinkeby ropsten negb andb];
    repeat split; intros; try discriminate; intuition congruence.
Qed.

Lemma copy_length {A} (dst src : list A) : length (copy dst src) = length dst.
Proof. unfold copy. rewrite length_app, length_take, length_drop. lia. Qed.

Lemma copy_lookup {A} (dst src : list A) (i : nat) :
  copy dst src !! i
  = if decide (i < length dst)%nat
    then match src !! i with Some x => Some x | None => dst !! i end
    else None.
Proof.
  unfold copy. destruct (decide (i < length dst)%nat) as [Hi|Hi].
  - destruct (src !! i) as [x|] eqn:Hsrc.
    + rewrite lookup_app_l
        by (rewrite length_take; apply lookup_lt_Some in Hsrc; lia).
      rewrite lookup_take_lt by lia. exact Hsrc.
    + apply lookup_ge_None in Hsrc.
      rewrite lookup_app_r by (rewrite length_take; lia).
      rewrite length_take, lookup_drop. f_equal. lia.
  - apply lookup_ge_None. rewrite length_app, length_take, length_drop. lia.
Qed.

(** X19.  The public key made from any byte string is of type [ED25519]
    and holds exactly 32 bytes: byte [i] is byte [i] of the given
    string where it has one and zero where it is shorter; what lies
    beyond 32 bytes is dropped.  No length makes the function fail. *)
Theorem PublicKeyFromEd25519_bytes (pk : bytes) :
  utils.KeyType (utils.PublicKeyFromEd25519 pk) = utils.ED25519
  /\ length (utils.Data (utils.PublicKeyFromEd25519 pk)) = 32%nat
  /\ forall i, (i < 32)%nat ->
       utils.Data (utils.PublicKeyFromEd25519 pk) !! i
       = Some (default Byte.x00 (pk !! i)).
Proof.
  split; [reflexivity|]. split.
  - cbn [utils.PublicKeyFromEd25519 utils.Data]. rewrite copy_length. apply length_replicate.
  - intros i Hi. cbn [utils.PublicKeyFromEd25519 utils.Data].
    unfold bytes in *. rewrite copy_lookup, length_replicate.
    destruct (decide (i < 32)%nat); [|contradiction].
    destruct (pk !! i) eqn:Hpk; rewrite ?Hpk; [reflexivity|]. cbn [default].
    apply lookup_replicate_2. exact Hi.
Qed.

(** X20.  A key of 32 bytes is kept as it is, so two such keys that
    give the same public key are the same key. *)
Theorem PublicKeyFromEd25519_keeps_key (pk pk' : bytes) :
  length pk = 32%nat ->
  utils.Data (utils.PublicKeyFromEd25519 pk) = pk
  /\ (length pk' = 32%nat ->
      utils.PublicKeyFromEd25519 pk = utils.PublicKeyFromEd25519 pk' -> pk = pk').
Proof.
  assert (Hkeep : forall k : bytes,
            length k = 32%nat -> utils.Data (utils.PublicKeyFromEd25519 k) = k).
  { intros k Hk. cbn [utils.PublicKeyFromEd25519 utils.Data]. unfold copy.
    rewrite length_replicate, <- Hk, firstn_all, drop_replicate, Hk. apply app_nil_r. }
  intros Hpk. split; [exact (Hkeep pk Hpk)|].
  intros Hpk' Heq. rewrite <- (Hkeep pk Hpk), <- (Hkeep pk' Hpk'), Heq. reflexivity.
Qed.

Lemma Split_nonempty (s : string) (sep : Ascii.ascii) : Split s sep <> nil.
Proof.
  destruct s as [|c s]; [discriminate|]. cbn [Split].
  destruct (Ascii.eqb c sep); [discriminate|].
  destruct (Split s sep); discriminate.
Qed.

(** Joining the pieces of a string with the separator gives the string
    back. *)
Lemma Join_Split (s : string) (sep : Ascii.ascii) :
  Join (Split s sep) (String sep "") = s.
Proof.
  unfold Join. induction s as [|c s IH]; [reflexivity|]. cbn [Split].
  pose proof (Split_nonempty s sep) as Hne.
  destruct (Ascii.eqb_spec c sep) as [->|Hc].
  - destruct (Split s sep) as [|piece pieces] eqn:Hs; [contradiction|].
    cbn [String.concat] in *. rewrite IH. reflexivity.
  - destruct (Split s sep) as [|piece pieces] eqn:Hs; [contradiction|].
    destruct pieces as [|piece' pieces]; cbn [String.concat] in *; rewrite <- IH; reflexivity.
Qed.

(** The first piece of a string is what stands before its first
    separator. *)
Lemma Split_first (label rest : string) (sep : Ascii.ascii) :
  ~ In sep (list_ascii_of_string label) ->
  Split (label +:+ String sep rest) sep = label :: Split rest sep.
Proof.
  induction label as [|c label IH]; intros Hno.
  - simpl. rewrite Ascii.eqb_refl. reflexivity.
  - simpl in Hno. change (String c label +:+ String sep rest)
      with (String c (label +:+ String sep rest)).
    cbn [Split]. destruct (Ascii.eqb_spec c sep) as [->|Hc]; [tauto|].
    rewrite IH by tauto. reflexivity.
Qed.

Lemma Split_none (label : string) (sep : Ascii.ascii) :
  ~ In sep (list_ascii_of_string label) -> Split label sep = [label].
Proof.
  induction label as [|c label IH]; intros Hno; [reflexivity|].
  simpl in Hno. cbn [Split]. destruct (Ascii.eqb_spec c sep) as [->|Hc]; [tauto|].
  rewrite IH by tauto. reflexivity.
Qed.

(** X21.  The master account is the account name without its first
    label: [rest] for [label.rest], where the label holds no dot, and
    the empty name for a name without a dot.  Computing it never
    panics, since splitting always yields a first piece. *)
Theorem MasterAccount_drops_first_label (label rest : string) :
  ~ In "."%char (list_ascii_of_string label) ->
  MasterAccount (label +:+ "." +:+ rest) = Ok rest
  /\ MasterAccount label = Ok ""
  /\ forall accountID, exists master, MasterAccount accountID = Ok master.
Proof.
  intros Hno. unfold MasterAccount. split; [|split].
  - change ("." +:+ rest) with (String "." rest).
    rewrite (Split_first label rest "." Hno).
    change "."%string with (String "."%char "") at 1. rewrite Join_Split. reflexivity.
  - rewrite (Split_none label "." Hno). reflexivity.
  - intros accountID. pose proof (Split_nonempty accountID ".") as Hne.
    destruct (Split accountID "."); [contradiction | eauto].
Qed.

(* ================================================================== *)
(** * The local daemon: what [editGenesis] changes, what [Setup] runs *)

Section DaemonFacts.
Import neard.
Context `{Host}.

Lemma get_path_into (k : string) (m sub : gmap string Any) (p : list string) :
  m !! k = Some (AMap sub) -> get_path (k :: p) (AMap m) = get_path p (AMap sub).
Proof. intros Hk. cbn [get_path]. rewrite Hk. destruct p; reflexivity. Qed.

Lemma get_path_changed (k : string) (m : gmap string Any) (v : Any) (p : list string) :
  get_path (k :: p) (AMap (<[k := v]> m)) = get_path p v.
Proof. cbn [get_path]. rewrite lookup_insert_eq. reflexivity. Qed.

Lemma get_path_beside (k k' : string) (m : gmap string Any) (v : Any) (p : list string) :
  k' <> k -> get_path (k' :: p) (AMap (<[k := v]> m)) = get_path (k' :: p) (AMap m).
Proof. intros Hk. cbn [get_path]. rewrite lookup_insert_ne by congruence. reflexivity. Qed.

Lemma assert_map_Ok (m fields : gmap string Any) (key : string) :
  assert_map m key = Ok fields <-> m !! key = Some (AMap fields).
Proof.
  unfold assert_map. destruct (m !! key) as [[| | | | | |fields']|]; split; congruence.
Qed.

Lemma assert_map_outcome (m : gmap string Any) (key : string) :
  (exists fields, assert_map m key = Ok fields /\ m !! key = Some (AMap fields))
  \/ ((exists msg, assert_map m key = Panic msg)
      /\ forall fields, m !! key <> Some (AMap fields)).
Proof.
  unfold assert_map. destruct (m !! key) as [[| | | | | |fields']|];
    try (right; split; [eexists; reflexivity | congruence]).
  left. eauto.
Qed.

(** The next call of a run: its answer is taken apart, and the run
    goes on. *)
Ltac answer Hrun :=
  match type of Hrun with
  | context [os_Getwd ?w] => destruct (os_Getwd w) as [? [?|?]] eqn:?
  | context [os_Chdir ?w ?d] => destruct (os_Chdir w d) as [? [?|]] eqn:?
  | context [git_Head ?w] => destruct (git_Head w) as [? [?|?]] eqn:?
  | context [os_UserHomeDir ?w] => destruct (os_UserHomeDir w) as [? [?|?]] eqn:?
  | context [file_Exists ?w ?p] => destruct (file_Exists w p) as [? [?|[|]]] eqn:?
  | context [os_RemoveAll ?w ?p] => destruct (os_RemoveAll w p) as [? [?|]] eqn:?
  | context [os_Rename ?w ?p ?q] => destruct (os_Rename w p q) as [? [?|]] eqn:?
  | context [cmd_Run ?w ?n ?a] => destruct (cmd_Run w n a) as [? [?|]] eqn:?
  | context [file_Copy ?w ?p ?q] => destruct (file_Copy w p q) as [? [?|]] eqn:?
  | context [os_ReadFile ?w ?p] => destruct (os_ReadFile w p) as [? [?|?]] eqn:?
  | context [json_Unmarshal ?d] => destruct (json_Unmarshal d) as [?|?] eqn:?
  | context [assert_map ?m ?k] => destruct (assert_map m k) as [?| |] eqn:?
  | context [json_MarshalIndent ?j] => destruct (json_MarshalIndent j) as [?|?] eqn:?
  | context [os_WriteFile ?w ?p ?d ?m] =>
      destruct (os_WriteFile w p d m) as [? [?|]] eqn:?
  end;
  cbn beta iota zeta in Hrun; try discriminate Hrun.

Ltac start Hrun :=
  unfold Setup, editGenesis, initDaemon, build, sys_bind, sys_ret, ask, tell, info, now
    in Hrun;
  cbn beta iota zeta in Hrun.

(** X22.  When [editGenesis] succeeds, it has made three calls: it
    copied the genesis file to the backup, read it, and wrote it.  What
    it wrote is the encoding of the genesis it read with two values
    changed: under [runtime_config], [wasm_config], [limit_config] both
    [max_gas_burnt] and [max_total_prepaid_gas] are 800000000000000,
    and every value at a path that does not touch these two is what it
    was. *)
Theorem editGenesis_raises_limits (w w' : World) (localDir : string) (trace : list Call) :
  editGenesis localDir w = (trace, w', Ok tt) ->
  exists w1 w2 data jsn jsn' out,
    file_Copy w (filepath_Join [localDir; "genesis.json"])
      (filepath_Join [localDir; "genesis_old.json"]) = (w1, None)
    /\ os_ReadFile w1 (filepath_Join [localDir; "genesis.json"]) = (w2, inr data)
    /\ json_Unmarshal data = inr jsn
    /\ json_MarshalIndent jsn' = inr out
    /\ os_WriteFile w2 (filepath_Join [localDir; "genesis.json"]) out 420 = (w', None)
    /\ trace = [Copy (filepath_Join [localDir; "genesis.json"])
                  (filepath_Join [localDir; "genesis_old.json"]);
                ReadFile (filepath_Join [localDir; "genesis.json"]);
                WriteFile (filepath_Join [localDir; "genesis.json"]) out 420]
    /\ get_path (limit_config ++ ["max_gas_burnt"]) (AMap jsn')
       = Some (AInt 800000000000000)
    /\ get_path (limit_config ++ ["max_total_prepaid_gas"]) (AMap jsn')
       = Some (AInt 800000000000000)
    /\ forall path, untouched path ->
         get_path path (AMap jsn') = get_path path (AMap jsn).
Proof.
  intros Hrun. start Hrun. do 8 answer Hrun.
  injection Hrun as <- <-.
  match goal with
  | Hrc : assert_map _ "runtime_config" = Ok ?rc,
    Hwc : assert_map _ "wasm_config" = Ok ?wc,
    Hlc : assert_map _ "limit_config" = Ok ?lc |- _ =>
      apply assert_map_Ok in Hrc, Hwc, Hlc;
      rename Hrc into Hrc'; rename Hwc into Hwc'; rename Hlc into Hlc'
  end.
  do 6 eexists.
  split; [first [eassumption | reflexivity]|].
  split; [first [eassumption | reflexivity]|].
  split; [first [eassumption | reflexivity]|].
  split; [first [eassumption | reflexivity]|].
  split; [first [eassumption | reflexivity]|].
  split; [reflexivity|].
  unfold limit_config. cbn [app].
  split; [|split].
  - rewrite !get_path_changed. cbn [get_path].
    rewrite lookup_insert_ne by discriminate. rewrite lookup_insert_eq. reflexivity.
  - rewrite !get_path_changed. reflexivity.
  - intros path Hun.
    destruct (Hun "max_gas_burnt" (or_introl eq_refl)) as [Hup1 Hdown1].
    destruct (Hun "max_total_prepaid_gas" (or_intror eq_refl)) as [_ Hdown2].
    unfold limit_config in *. cbn [app] in *.
    destruct path as [|k1 path]; [exfalso; apply Hup1, prefix_nil|].
    destruct (decide (k1 = "runtime_config")) as [->|Hk1];
      [|apply get_path_beside; exact Hk1].
    rewrite get_path_changed, (get_path_into _ _ _ _ Hrc').
    destruct path as [|k2 path];
      [exfalso; apply Hup1, prefix_cons, prefix_nil|].
    destruct (decide (k2 = "wasm_config")) as [->|Hk2];
      [|apply get_path_beside; exact Hk2].
    rewrite get_path_changed, (get_path_into _ _ _ _ Hwc').
    destruct path as [|k3 path];
      [exfalso; apply Hup1, prefix_cons, prefix_cons, prefix_nil|].
    destruct (decide (k3 = "limit_config")) as [->|Hk3];
      [|apply get_path_beside; exact Hk3].
    rewrite get_path_changed, (get_path_into _ _ _ _ Hlc').
    destruct path as [|k4 path];
      [exfalso; apply Hup1, prefix_cons, prefix_cons, prefix_cons, prefix_nil|].
    destruct (decide (k4 = "max_total_prepaid_gas")) as [->|Hk4].
    { exfalso. apply Hdown2. do 4 apply prefix_cons. apply prefix_nil. }
    destruct (decide (k4 = "max_gas_burnt")) as [->|Hk4'].
    { exfalso. apply Hdown1. do 4 apply prefix_cons. apply prefix_nil. }
    rewrite get_path_beside by exact Hk4. rewrite get_path_beside by exact Hk4'.
    reflexivity.
Qed.

(** X23.  A genesis without the limits makes [editGenesis] panic, not
    fail: once the file was copied, read and decoded, the call panics
    exactly when [runtime_config], [wasm_config], [limit_config] does
    not lead to an object.  The backup is made by then, and nothing is
    written. *)
Theorem editGenesis_panics_without_limits (w w1 w2 : World) (localDir : string)
    (data : bytes) (jsn : gmap string Any) :
  file_Copy w (filepath_Join [localDir; "genesis.json"])
    (filepath_Join [localDir; "genesis_old.json"]) = (w1, None) ->
  os_ReadFile w1 (filepath_Join [localDir; "genesis.json"]) = (w2, inr data) ->
  json_Unmarshal data = inr jsn ->
  ((exists msg, outcome (editGenesis localDir w) = Panic msg)
   <-> forall limits, get_path limit_config (AMap jsn) <> Some (AMap limits))
  /\ ((exists msg, outcome (editGenesis localDir w) = Panic msg) ->
      calls (editGenesis localDir w)
      = [Copy (filepath_Join [localDir; "genesis.json"])
           (filepath_Join [localDir; "genesis_old.json"]);
         ReadFile (filepath_Join [localDir; "genesis.json"])]
      /\ world (editGenesis localDir w) = w2).
Proof.
  intros Hcopy Hread Hjson.
  unfold editGenesis, sys_bind, sys_ret, ask, tell, info, now, limit_config,
    calls, world, outcome.
  rewrite Hcopy, Hread, Hjson. cbn beta iota zeta. cbn [get_path].
  destruct (assert_map_outcome jsn "runtime_config")
    as [(runtimeConfig & -> & ->)|[[msg ->] Hno]].
  2:{ split; [|intros _; split; reflexivity]. split; [|eauto]. intros _ limits.
      destruct (jsn !! "runtime_config") as [[| | | | | |m]|]; try discriminate.
      exfalso. exact (Hno m eq_refl). }
  destruct (assert_map_outcome runtimeConfig "wasm_config")
    as [(wasmConfig & -> & ->)|[[msg ->] Hno]].
  2:{ split; [|intros _; split; reflexivity]. split; [|eauto]. intros _ limits.
      destruct (runtimeConfig !! "wasm_config") as [[| | | | | |m]|]; try discriminate.
      exfalso. exact (Hno m eq_refl). }
  destruct (assert_map_outcome wasmConfig "limit_config")
    as [(limitConfig & -> & ->)|[[msg ->] Hno]].
  2:{ split; [|intros _; split; reflexivity]. split; [|eauto]. intros _ limits.
      destruct (wasmConfig !! "limit_config") as [[| | | | | |m]|]; try discriminate.
      exfalso. exact (Hno m eq_refl). }
  cbn beta iota zeta.
  destruct (json_MarshalIndent _) as [err|out]; cbn beta iota zeta.
  - split; [split|]; [intros [msg [=]] | intros Hno; destruct (Hno limitConfig eq_refl)
                     | intros [msg [=]]].
  - destruct (os_WriteFile w2 _ out 420) as [w3 [err|]]; cbn beta iota zeta;
      (split; [split|]; [intros [msg [=]] | intros Hno; destruct (Hno limitConfig eq_refl)
                        | intros [msg [=]]]).
Qed.

(** Every run of [Setup], taken apart call by call. *)
Ltac explore run :=
  let Hrun := fresh "Hrun" in
  remember run as outcome_of_run eqn:Hrun;
  start Hrun;
  repeat answer Hrun;
  subst outcome_of_run;
  cbn [calls world outcome fst snd app commands directory_changes removals List.filter
       last].

(** X24.  [Setup] builds and initialises one and the same profile: the
    commands it runs are, in this order and at most once each, [cargo]
    with the arguments of the profile asked for ([--release] exactly
    when [release] is set) and then [neard init] from the directory
    cargo builds that profile into, with the local directory below the
    user's home as its home.  The home is the one [os.UserHomeDir]
    reported to this run, after [os.Getwd], the change to the [nearcore]
    directory and [git] had answered; a run in which one of them fails
    runs no command.  A run that succeeds has run both commands. *)
Theorem Setup_runs_what_it_built (release : bool) (w : World) :
  (forall n, outcome (Setup release w) = Ok n -> commands (calls (Setup release w)) <> [])
  /\ (commands (calls (Setup release w)) <> [] ->
      exists w1 w2 w3 w4 cwd head home,
        os_Getwd w = (w1, inr cwd)
        /\ os_Chdir w1 (filepath_Join [cwd; ".."; "nearcore"]) = (w2, None)
        /\ git_Head w2 = (w3, inr head)
        /\ os_UserHomeDir w3 = (w4, inr home)
        /\ commands (calls (Setup release w))
             `prefix_of`
             [Run "cargo" (cargo_args release);
              Run (filepath_Join ["."; "target"; profile release; "neard"])
                ["--home=" +:+ filepath_Join [home; ".near"; "local"];
                 "--verbose=true"; "init"]]
        /\ (forall n, outcome (Setup release w) = Ok n ->
              commands (calls (Setup release w))
              = [Run "cargo" (cargo_args release);
                 Run (filepath_Join ["."; "target"; profile release; "neard"])
                   ["--home=" +:+ filepath_Join [home; ".near"; "local"];
                    "--verbose=true"; "init"]])).
Proof.
  destruct release; [explore (Setup true w) | explore (Setup false w)];
    (split; [intros n Hn; first [discriminate Hn | discriminate]|]);
    intros Hsome; try contradiction;
    do 7 eexists;
    (split; [first [eassumption | reflexivity]|]); (split; [eassumption|]);
    (split; [eassumption|]); (split; [eassumption|]);
    (split; [repeat first [apply prefix_nil | apply prefix_cons | reflexivity]
            | intros n Hn; first [discriminate Hn | reflexivity]]).
Qed.

(** X25.  [Setup] changes the directory at most twice: to the
    [nearcore] directory beside the one it was started in, and back;
    the change back is the last call of the run.  So a run that fails
    before that makes no change back.  A run that succeeds has made
    both changes, back to the directory [os.Getwd] reported, and
    returns the head [git] reported. *)
Theorem Setup_changes_back_last (release : bool) (w : World) :
  exists cwd,
    directory_changes (calls (Setup release w))
      `prefix_of` [Chdir (filepath_Join [cwd; ".."; "nearcore"]); Chdir cwd]
    /\ (directory_changes (calls (Setup release w))
        = [Chdir (filepath_Join [cwd; ".."; "nearcore"]); Chdir cwd] ->
        last (calls (Setup release w)) = Some (Chdir cwd))
    /\ (forall n, outcome (Setup release w) = Ok n ->
          directory_changes (calls (Setup release w))
          = [Chdir (filepath_Join [cwd; ".."; "nearcore"]); Chdir cwd]
          /\ (exists w1, os_Getwd w = (w1, inr cwd))
          /\ In Head (calls (Setup release w))
          /\ exists w1 w2, git_Head w1 = (w2, inr (head n))).
Proof.
  destruct release; [explore (Setup true w) | explore (Setup false w)];
    first [ match goal with
            | Hcwd : os_Getwd _ = (_, inr ?cwd) |- _ => exists cwd
            end
          | exists "" ];
    (split; [repeat first [apply prefix_nil | apply prefix_cons | reflexivity]|]);
    (split; [intros Hboth; first [discriminate Hboth | reflexivity]|]);
    intros n Hn; try discriminate Hn;
    injection Hn as <-;
    (split; [reflexivity|]); (split; [eauto|]);
    (split; [cbn; tauto | eauto]).
Qed.

(** X26.  [Setup] removes and renames nothing but the local directory
    of a former run.  A run that removes or renames anything has got,
    in this order, an answer from [os.Getwd], from the change to the
    [nearcore] directory, from [git] and from [os.UserHomeDir], and then
    the answer of [file.Exists] that [<home>/.near/local] exists, for the
    home just reported and on the system as it was then; the only removal
    is that of [<home>/.near/local_old], made on the system [file.Exists]
    left, and the only renaming that of [<home>/.near/local] to that
    name, in this order and at most once each. *)
Theorem Setup_moves_only_the_local_directory (release : bool) (w : World) :
  removals (calls (Setup release w)) <> [] ->
  exists w1 w2 w3 w4 w5 cwd head home,
    os_Getwd w = (w1, inr cwd)
    /\ os_Chdir w1 (filepath_Join [cwd; ".."; "nearcore"]) = (w2, None)
    /\ git_Head w2 = (w3, inr head)
    /\ os_UserHomeDir w3 = (w4, inr home)
    /\ file_Exists w4 (filepath_Join [home; ".near"; "local"]) = (w5, inr true)
    /\ removals (calls (Setup release w))
         `prefix_of`
         [RemoveAll (filepath_Join [home; ".near"; "local"] +:+ "_old");
          Rename (filepath_Join [home; ".near"; "local"])
            (filepath_Join [home; ".near"; "local"] +:+ "_old")]
    /\ (forall w6 err,
          os_RemoveAll w5 (filepath_Join [home; ".near"; "local"] +:+ "_old")
          = (w6, Some err) ->
          removals (calls (Setup release w))
          = [RemoveAll (filepath_Join [home; ".near"; "local"] +:+ "_old")]
          /\ outcome (Setup release w) = Fail err).
Proof.
  destruct release; [explore (Setup true w) | explore (Setup false w)];
    intros Hsome; try contradiction;
    do 8 eexists;
    (split; [first [eassumption | reflexivity]|]); (split; [eassumption|]);
    (split; [eassumption|]); (split; [eassumption|]); (split; [eassumption|]);
    (split; [repeat first [apply prefix_nil | apply prefix_cons | reflexivity]|]);
    intros left_by_removal err Hrm;
    first [congruence | split; [reflexivity | congruence]].
Qed.

End DaemonFacts.

(* ================================================================== *)
(** * The Chain Indexer feeds the generator *)

(** The hashes the Chain Indexer returns are stored under the heights
    they stand at in the list. *)
Lemma traverse_readable (db : Database) (b : Block) (H : Z) (hs : list Hash) :
  0 <= H < 2 ^ 64 ->
  snd (traverse db b H) = Ok hs ->
  forall j hash, hs !! j = Some hash ->
    is_Some (ReadBlock db hash (uint64_wrap (Z.of_nat j))).
Proof.
  intros HH Hok j hash Hj. unfold traverse in Hok.
  destruct (traverse_loop_outcome db (Z.to_nat H) b [] 0)
    as [(Hl & evs & total & Hrun)|(_ & evs & bad & Hrun & _)];
    rewrite Hrun in Hok; [|discriminate].
  simpl in Hok. injection Hok as <-.
  rewrite reverse_blocks_reverse in Hj.
  pose proof (parent_walk_length db _ b Hl) as Hlen.
  assert (Hjn : (j < Z.to_nat H)%nat).
  { apply lookup_lt_Some in Hj. rewrite length_reverse, Hlen in Hj. exact Hj. }
  rewrite reverse_lookup in Hj by (rewrite Hlen; exact Hjn). rewrite Hlen in Hj.
  destruct (parent_walk_stored db _ b _ hash Hl Hj) as [_ Hstored].
  replace (Z.to_nat H - 1 - (Z.to_nat H - S j))%nat with j in Hstored by lia.
  unfold uint64_wrap. rewrite Z.mod_small by lia. exact Hstored.
Qed.

Section IndexerFeedsGenerator.
Context `{Collaborators}.
Variables (r : Replayer) (a : Account) (evmContract : string).

(** X27.  The list the Chain Indexer returns is one the generator can
    read: each of its hashes is stored under the height it has in the
    list, so the generator never stops on a block it cannot read.  When
    its run on that list ends behind an error step, the error is one a
    collaborator returned for a block that was read. *)
Theorem indexer_feeds_generator (db : Database) (b : Block) (height : Z) (hs : list Hash) :
  0 <= height < 2 ^ 64 ->
  snd (traverse db b height) = Ok hs ->
  (forall j hash, hs !! j = Some hash ->
     is_Some (ReadBlock db hash (uint64_wrap (Z.of_nat j))))
  /\ (forall e, ~ unreadable r db hs e)
  /\ (snd (generate r a evmContract db hs) = Returned ->
      exists pre o e,
        fst (generate r a evmContract db hs) = pre ++ [(o, errorTx e)]
        /\ collaborator_failed r db hs e).
Proof.
  intros HH Hok. pose proof (traverse_readable db b height hs HH Hok) as Hread.
  assert (Hnever : forall e, ~ unreadable r db hs e).
  { intros e (j & hash & Hj & _ & Hnone & _).
    destruct (Hread j hash Hj) as [blk Hsome]. congruence. }
  split; [exact Hread|]. split; [exact Hnever|].
  unfold generate. cbn [send fst snd]. intros Hend.
  destruct (blockLoop_returned r a evmContract db hs 0 Hend)
    as (pre & o & e & Hsent & [Hcause|Hcause]).
  - destruct (Hnever e Hcause).
  - eexists (_ :: pre), o, e. rewrite Hsent. split; [reflexivity | exact Hcause].
Qed.

End IndexerFeedsGenerator.

(* ================================================================== *)
(** * The further theorems on the samples *)

(** On the chain with a gap the generator stops at height 1 and leaves
    the queue open behind the error step. *)
Lemma unclosed_queue_witness :
  exists pre o e,
    fst (@generate sample_collaborators (config false 1 0 0 0 0) tt "evm" gap_chain hashes3)
    = pre ++ [(o, errorTx e)]
    /\ o <> AtGenesis
    /\ (unreadable (config false 1 0 0 0 0) gap_chain hashes3 e
        \/ @collaborator_failed sample_collaborators (config false 1 0 0 0 0) gap_chain
             hashes3 e).
Proof.
  apply (proj1 (@unclosed_queue_ends_in_error sample_collaborators
                  (config false 1 0 0 0 0) tt "evm" gap_chain hashes3)).
  vm_compute. reflexivity.
Defined.

Example generate_gap_chain :
  map (fun s => (fst s, kind (snd s)))
    (fst (@generate sample_collaborators (config false 1 0 0 0 0) tt "evm" gap_chain hashes3))
  = [(AtGenesis, KSubmission); (AtBlock 0, KComment); (AtBlock 1, KError)].
Proof. vm_compute. reflexivity. Qed.

(** A batch size of -1 asks for a queue of size -10. *)
Lemma startTxGenerator_panics_witness :
  @startTxGenerator sample_collaborators (config false (-1) 0 0 0 0) tt "evm" chain3
    hashes3
  = Panic "makechan: size out of range".
Proof.
  apply (proj1 (@startTxGenerator_panics sample_collaborators (config false (-1) 0 0 0 0)
                  tt "evm" chain3 hashes3 ltac:(simpl; lia))).
  vm_compute. reflexivity.
Defined.

(** With batch size 0 the queue is made, unbuffered, and the goroutine
    panics. *)
Example startTxGenerator_zero_batch_size :
  exists ch,
    @startTxGenerator sample_collaborators (config false 0 0 0 0 0) tt "evm" chain3
      hashes3 = Ok ch
    /\ capacity ch = 0
    /\ ending ch = Crashed "runtime error: integer divide by zero".
Proof. eexists. split; [reflexivity|]. split; vm_compute; reflexivity. Qed.

(** Starting at block 1, the run does not notice that genesis is gone. *)
Lemma skipped_blocks_are_not_read_witness :
  @generate sample_collaborators (config false 1 1 0 0 0) tt "evm" chain3 hashes3
  = @generate sample_collaborators (config false 1 1 0 0 0) tt "evm" headless_chain hashes3.
Proof.
  apply (@skipped_blocks_are_not_read sample_collaborators).
  intros j hash Hj Hstart. simpl in Hstart.
  destruct j as [|[|[|j]]]; simpl in Hj; try discriminate; try lia;
    injection Hj as <-; vm_compute; reflexivity.
Defined.

Lemma block_submission_is_begin_block_witness :
  exists hash b ctx,
    hashes3 !! Z.to_nat 1 = Some hash
    /\ ReadBlock chain3 hash (uint64_wrap 1) = Some b
    /\ @getBlockContext sample_collaborators b = inr ctx
    /\ plain_tx "begin_block" "begin_block()"
       = @beginBlockTx sample_collaborators tt "evm" (Gas (config false 1 0 0 0 0)) ctx
    /\ StartBlock (config false 1 0 0 0 0) <= 1
    /\ (Skip (config false 1 0 0 0 0) = true -> Transactions b <> []).
Proof.
  apply (@block_submission_is_begin_block sample_collaborators (config false 1 0 0 0 0)
           tt "evm" chain3 hashes3 1 (plain_tx "begin_block" "begin_block()")).
  - vm_compute. tauto.
  - vm_compute. reflexivity.
Defined.

Lemma every_block_is_answered_witness :
  exists t,
    In (AtBlock (Z.of_nat 0), t)
      (fst (@generate sample_collaborators (config false 1 1 0 0 0) tt "evm" chain3 hashes3))
    /\ (Z.of_nat 0 < StartBlock (config false 1 1 0 0 0) ->
        t = commentTx (Sprintf "skipping block %d" [ArgInt (Z.of_nat 0)]))
    /\ (StartBlock (config false 1 1 0 0 0) <= Z.of_nat 0 ->
        exists b ctx,
          ReadBlock chain3 10%N (uint64_wrap (Z.of_nat 0)) = Some b
          /\ @getBlockContext sample_collaborators b = inr ctx
          /\ t = @blockStep sample_collaborators (config false 1 1 0 0 0) tt "evm"
                   (Z.of_nat 0) b ctx).
Proof.
  apply (@every_block_is_answered sample_collaborators (config false 1 1 0 0 0) tt "evm"
           chain3 hashes3 0 10%N).
  - reflexivity.
  - vm_compute. reflexivity.
  - reflexivity.
Defined.

Lemma sample_ledger_answers : @ledger_answers sample_collaborators sample_ledger "evm".
Proof.
  intros ledger method args gas deposit. exists (S ledger), ok_response.
  split; [reflexivity|]. intros batch tx. vm_compute. reflexivity.
Qed.

Lemma every_submission_is_called_witness :
  exists evs,
    @Replay sample_collaborators sample_ledger (config false 1 0 0 0 0) "evm"
      (received (fst (@generate sample_collaborators (config false 1 0 0 0 0) tt "evm"
                        chain3 hashes3))) 0%nat
    = (evs, Ok tt)
    /\ single_calls evs
       = map call_of
           (submissions
              (received (fst (@generate sample_collaborators (config false 1 0 0 0 0) tt
                                "evm" chain3 hashes3))))
    /\ sent_batches evs = [].
Proof.
  apply (@every_submission_is_called sample_collaborators sample_ledger).
  - reflexivity.
  - simpl. lia.
  - exact sample_ledger_answers.
  - vm_compute. repeat constructor.
Defined.

Example single_calls_chain3 :
  single_calls
    (fst (@Replay sample_collaborators sample_ledger (config false 1 0 0 0 0) "evm"
            (received (fst (@generate sample_collaborators (config false 1 0 0 0 0) tt
                              "evm" chain3 hashes3))) 0%nat))
  = [("begin_chain", []);
     ("begin_block", []); ("submit", [Byte.x60; Byte.x80]); ("submit", []);
     ("begin_block", []); ("submit", [Byte.x01])].
Proof. vm_compute. reflexivity. Qed.

Lemma ledger_error_is_returned_witness :
  @Replay_range sample_collaborators unreachable_ledger (config false 1 0 0 0 0) "evm"
    [plain_tx "begin_chain" "begin_chain()"; plain_tx "submit" "submit(1, tx=0)"] 0%nat []
  = ([Println "begin_chain()";
      CallFunction "evm" "begin_chain" [] (Gas (config false 1 0 0 0 0)) 0],
     Fail (external "connection refused")).
Proof.
  apply (proj1 (@ledger_error_is_returned sample_collaborators unreachable_ledger
                  (config false 1 0 0 0 0) "evm")
           (plain_tx "begin_chain" "begin_chain()") _ 0%nat [] 1%nat
           (external "connection refused"));
    reflexivity.
Defined.

Lemma comments_are_only_printed_witness :
  @Replay sample_collaborators unreachable_ledger (config true 4 0 0 0 0) "evm"
    [commentTx "skipping block 0"; commentTx ""; commentTx "breaking block 2"] 0%nat
  = (comment_lines
       [commentTx "skipping block 0"; commentTx ""; commentTx "breaking block 2"],
     Ok tt).
Proof.
  apply (@comments_are_only_printed sample_collaborators unreachable_ledger).
  - simpl. lia.
  - repeat constructor.
Defined.

Lemma zero_batch_size_panics_consumer_witness :
  @Replay sample_collaborators sample_ledger (config true 0 0 0 0 0) "evm"
    ([] ++ plain_tx "begin_chain" "begin_chain()" :: [plain_tx "submit" "submit(1, tx=0)"])
    0%nat
  = (comment_lines []
     ++ (if nonempty (Comment (plain_tx "begin_chain" "begin_chain()"))
         then [Println ("batching: " +:+ Comment (plain_tx "begin_chain" "begin_chain()"))]
         else []),
     Panic "runtime error: integer divide by zero").
Proof.
  apply (@zero_batch_size_panics_consumer sample_collaborators sample_ledger);
    [reflexivity | reflexivity | constructor | reflexivity].
Defined.

Lemma gap_chain_unlinked : ~ linked gap_chain block3 (Z.to_nat 3).
Proof.
  intros (parent & Hparent & (grand & Hgrand & _)).
  vm_compute in Hparent. injection Hparent as <-.
  vm_compute in Hgrand. discriminate.
Qed.

Lemma traverse_fails_on_missing_ancestor_witness :
  exists evs hash,
    traverse gap_chain block3 3
    = (evs, Fail (Errorf "cannot read block at height %d with hash %s"
                    [ArgInt (3 - len (parent_walk gap_chain block3 (Z.to_nat 3)));
                     ArgStr (Hash_Hex hash)]))
    /\ last (parent_walk gap_chain block3 (Z.to_nat 3)) = Some hash
    /\ ReadBlock gap_chain hash (3 - len (parent_walk gap_chain block3 (Z.to_nat 3)))
       = None
    /\ len evs = len (parent_walk gap_chain block3 (Z.to_nat 3)) - 1.
Proof.
  apply (proj2 (traverse_fails_on_missing_ancestor gap_chain block3 3)).
  exact gap_chain_unlinked.
Defined.

Example traverse_gap_chain :
  traverse gap_chain block3 3
  = ([LogInfo ("read block at height 2 with hash "
               +:+ "0x000000000000000000000000000000000000000000000000000000000000000c")],
     Fail (errorString
             ("cannot read block at height 1 with hash "
              +:+ "0x000000000000000000000000000000000000000000000000000000000000000b"))).
Proof. vm_compute. reflexivity. Qed.

Lemma traverse_log_witness :
  fst (traverse chain3 block3 3)
  = imap (fun j hash => read_line (3 - 1 - Z.of_nat j) hash)
      (parent_walk chain3 block3 (Z.to_nat 3))
    ++ [LogInfo (Sprintf "total number of transactions: %d"
                   [ArgInt (uint64_wrap
                              (transaction_count (ancestors chain3 block3 (Z.to_nat 3))))])]
  /\ (transaction_count (ancestors chain3 block3 (Z.to_nat 3)) < 2 ^ 64 ->
      uint64_wrap (transaction_count (ancestors chain3 block3 (Z.to_nat 3)))
      = transaction_count (ancestors chain3 block3 (Z.to_nat 3))).
Proof.
  apply (traverse_log chain3 block3 3). apply chain3_valid.
Defined.

Example traverse_chain3_total :
  last (fst (traverse chain3 block3 3))
  = Some (LogInfo "total number of transactions: 3").
Proof. vm_compute. reflexivity. Qed.

Lemma verifier_encoder_failures_witness :
  @procTxResult failing_status_encoder false (Some tx_a) failed_response
  = (transaction_id_line failed_response, Fail (external "json: unsupported value")).
Proof.
  apply (proj1 (@verifier_encoder_failures failing_status_encoder false (Some tx_a)
                  failed_response failure_status failed_response_status)).
  reflexivity.
Defined.

Example dump_panics :
  @procTxResult failing_tx_encoder false (Some tx_a) failed_response
  = ([Stdout ("{}" +:+ nl)], Panic "rlp: value too large").
Proof. vm_compute. reflexivity. Qed.

Lemma response_identifier_witness :
  PrettyPrintResponse ok_response = ([Stdout ("Transaction Id " +:+ "9xQn" +:+ nl)], Ok tt).
Proof.
  apply (proj1 (proj2 (response_identifier ok_response "9xQn" ltac:(discriminate)))).
  vm_compute. reflexivity.
Defined.

Example backoff_dead_read :
  @ExponentialBackoff dead_read 0 3 2%float 0%nat
  = (3%nat,
     ([Invoke; Stdout ("timeout" +:+ nl); Sleep 0;
       Invoke; Stdout ("timeout" +:+ nl); Sleep 0;
       Invoke; Stdout ("timeout" +:+ nl); Sleep 0],
      Fail RetryExhausted)).
Proof. vm_compute. reflexivity. Qed.

Lemma zero_wait_never_grows_witness :
  wait_at 5 0 1.5%float = 0 /\ Sleep (milliseconds (wait_at 5 0 1.5%float)) = Sleep 0.
Proof. apply (zero_wait_never_grows 1.5%float 5). vm_compute. exact I. Defined.

Example determineTestnet_samples :
  determineTestnet {| goerli := false; rinkeby := false; ropsten := true |} = inr "ropsten"
  /\ determineTestnet {| goerli := true; rinkeby := true; ropsten := true |}
     = inl (errors_New "the options -goerli and -rinkeby exclude each other").
Proof. split; reflexivity. Qed.

Lemma PublicKeyFromEd25519_keeps_key_witness :
  utils.Data (utils.PublicKeyFromEd25519 sample_key) = sample_key.
Proof.
  apply (proj1 (PublicKeyFromEd25519_keeps_key sample_key sample_key eq_refl)).
Defined.

Example short_key_is_padded :
  utils.Data (utils.PublicKeyFromEd25519 [Byte.x01; Byte.x02])
  = [Byte.x01; Byte.x02] ++ replicate 30 Byte.x00.
Proof. vm_compute. reflexivity. Qed.

Lemma MasterAccount_drops_first_label_witness :
  MasterAccount ("alice" +:+ "." +:+ "aurora.testnet") = Ok "aurora.testnet"
  /\ MasterAccount "alice" = Ok ""
  /\ forall accountID, exists master, MasterAccount accountID = Ok master.
Proof.
  apply (MasterAccount_drops_first_label "alice" "aurora.testnet").
  simpl. intros [H|[H|[H|[H|[H|[]]]]]]; discriminate H.
Defined.

Lemma editGenesis_raises_limits_witness :
  exists w1 w2 data jsn jsn' out,
    @neard.file_Copy (sample_host sample_genesis) sample_files
      (@neard.filepath_Join (sample_host sample_genesis)
         ["/home/near/.near/local"; "genesis.json"])
      (@neard.filepath_Join (sample_host sample_genesis)
         ["/home/near/.near/local"; "genesis_old.json"]) = (w1, None)
    /\ @neard.os_ReadFile (sample_host sample_genesis) w1
         (@neard.filepath_Join (sample_host sample_genesis)
            ["/home/near/.near/local"; "genesis.json"]) = (w2, inr data)
    /\ @neard.json_Unmarshal (sample_host sample_genesis) data = inr jsn
    /\ @neard.json_MarshalIndent (sample_host sample_genesis) jsn' = inr out
    /\ @neard.os_WriteFile (sample_host sample_genesis) w2
         (@neard.filepath_Join (sample_host sample_genesis)
            ["/home/near/.near/local"; "genesis.json"]) out 420
       = (<["/home/near/.near/local/genesis_old.json" := [Byte.x7b; Byte.x7d]]>
            sample_files, None)
    /\ [neard.Copy "/home/near/.near/local/genesis.json"
          "/home/near/.near/local/genesis_old.json";
        neard.ReadFile "/home/near/.near/local/genesis.json";
        neard.WriteFile "/home/near/.near/local/genesis.json" [Byte.x7b; Byte.x7d] 420]
       = [neard.Copy
            (@neard.filepath_Join (sample_host sample_genesis)
               ["/home/near/.near/local"; "genesis.json"])
            (@neard.filepath_Join (sample_host sample_genesis)
               ["/home/near/.near/local"; "genesis_old.json"]);
          neard.ReadFile
            (@neard.filepath_Join (sample_host sample_genesis)
               ["/home/near/.near/local"; "genesis.json"]);
          neard.WriteFile
            (@neard.filepath_Join (sample_host sample_genesis)
               ["/home/near/.near/local"; "genesis.json"]) out 420]
    /\ neard.get_path (neard.limit_config ++ ["max_gas_burnt"]) (neard.AMap jsn')
       = Some (neard.AInt 800000000000000)
    /\ neard.get_path (neard.limit_config ++ ["max_total_prepaid_gas"]) (neard.AMap jsn')
       = Some (neard.AInt 800000000000000)
    /\ forall path, neard.untouched path ->
         neard.get_path path (neard.AMap jsn') = neard.get_path path (neard.AMap jsn).
Proof.
  apply (@editGenesis_raises_limits (sample_host sample_genesis) sample_files).
  vm_compute. reflexivity.
Defined.

Lemma editGenesis_panics_without_limits_witness :
  exists msg,
    neard.outcome
      (@neard.editGenesis (sample_host bare_genesis) "/home/near/.near/local" sample_files)
    = Panic msg.
Proof.
  refine (proj2 (proj1 (@editGenesis_panics_without_limits (sample_host bare_genesis)
                          sample_files
                          (<["/home/near/.near/local/genesis_old.json" :=
                               [Byte.x7b; Byte.x7d]]> sample_files)
                          (<["/home/near/.near/local/genesis_old.json" :=
                               [Byte.x7b; Byte.x7d]]> sample_files)
                          "/home/near/.near/local" [Byte.x7b; Byte.x7d] bare_genesis
                          _ _ _)) _).
  - vm_compute. reflexivity.
  - vm_compute. reflexivity.
  - reflexivity.
  - intros limits. vm_compute. discriminate.
Defined.

Example editGenesis_bare_genesis :
  neard.outcome
    (@neard.editGenesis (sample_host bare_genesis) "/home/near/.near/local" sample_files)
  = Panic "interface conversion: interface {} is nil, not map[string]interface {}".
Proof. vm_compute. reflexivity. Qed.

Example Setup_sample :
  neard.calls (@neard.Setup (sample_host sample_genesis) true sample_files)
  = [neard.Info "setup neard";
     neard.Getwd;
     neard.Chdir "/home/near/nearcore";
     neard.Head;
     neard.Info "head=4f2c1a9";
     neard.UserHomeDir;
     neard.Exists "/home/near/.near/local";
     neard.Info "mv /home/near/.near/local /home/near/.near/local_old";
     neard.RemoveAll "/home/near/.near/local_old";
     neard.Rename "/home/near/.near/local" "/home/near/.near/local_old";
     neard.Run "cargo"
       ["build"; "--package"; "neard";
        "--features"; "protocol_feature_evm,nightly_protocol_features"; "--release"];
     neard.Run "target/release/neard"
       ["--home=/home/near/.near/local"; "--verbose=true"; "init"];
     neard.Copy "/home/near/.near/local/genesis.json"
       "/home/near/.near/local/genesis_old.json";
     neard.ReadFile "/home/near/.near/local/genesis.json";
     neard.WriteFile "/home/near/.near/local/genesis.json" [Byte.x7b; Byte.x7d] 420;
     neard.Chdir "/home/near/evm-bully"]
  /\ neard.outcome (@neard.Setup (sample_host sample_genesis) true sample_files)
     = Ok {| neard.head := "4f2c1a9" |}.
Proof. split; vm_compute; reflexivity. Qed.

Lemma Setup_runs_what_it_built_witness :
  exists w3 w4 home,
    @neard.os_UserHomeDir (sample_host sample_genesis) w3 = (w4, inr home)
    /\ commands
         (neard.calls (@neard.Setup (sample_host sample_genesis) true sample_files))
       = [neard.Run "cargo" (cargo_args true);
          neard.Run
            (@neard.filepath_Join (sample_host sample_genesis)
               ["."; "target"; neard.profile true; "neard"])
            ["--home=" +:+ @neard.filepath_Join (sample_host sample_genesis)
                             [home; ".near"; "local"];
             "--verbose=true"; "init"]].
Proof.
  destruct (proj2 (@Setup_runs_what_it_built (sample_host sample_genesis) true
                     sample_files) ltac:(vm_compute; discriminate))
    as (w1 & w2 & w3 & w4 & cwd & head & home & _ & _ & _ & Hhome & _ & Hboth).
  exists w3, w4, home. split; [exact Hhome|].
  apply (Hboth {| neard.head := "4f2c1a9" |}). vm_compute. reflexivity.
Defined.

(** The commands of the sample run, with the home the sample system
    reports. *)
Example Setup_sample_commands :
  commands (neard.calls (@neard.Setup (sample_host sample_genesis) false sample_files))
  = [neard.Run "cargo"
       ["build"; "--package"; "neard";
        "--features"; "protocol_feature_evm,nightly_protocol_features"];
     neard.Run "target/debug/neard"
       ["--home=/home/near/.near/local"; "--verbose=true"; "init"]].
Proof. vm_compute. reflexivity. Qed.

Lemma Setup_changes_back_last_witness :
  exists cwd,
    last (neard.calls (@neard.Setup (sample_host sample_genesis) false sample_files))
    = Some (neard.Chdir cwd).
Proof.
  destruct (@Setup_changes_back_last (sample_host sample_genesis) false sample_files)
    as (cwd & _ & Hlast & Hok).
  exists cwd. apply Hlast.
  apply (Hok {| neard.head := "4f2c1a9" |}). vm_compute. reflexivity.
Defined.

Lemma Setup_moves_only_the_local_directory_witness :
  exists w3 w4 w5 home,
    @neard.os_UserHomeDir (sample_host sample_genesis) w3 = (w4, inr home)
    /\ @neard.file_Exists (sample_host sample_genesis) w4
         (@neard.filepath_Join (sample_host sample_genesis) [home; ".near"; "local"])
       = (w5, inr true).
Proof.
  destruct (@Setup_moves_only_the_local_directory (sample_host sample_genesis) true
              sample_files ltac:(vm_compute; discriminate))
    as (w1 & w2 & w3 & w4 & w5 & cwd & head & home & _ & _ & _ & Hhome & Hexists & _).
  exists w3, w4, w5, home. split; [exact Hhome | exact Hexists].
Defined.

(** What the sample run removes and renames. *)
Example Setup_sample_removals :
  removals (neard.calls (@neard.Setup (sample_host sample_genesis) true sample_files))
  = [neard.RemoveAll "/home/near/.near/local_old";
     neard.Rename "/home/near/.near/local" "/home/near/.near/local_old"].
Proof. vm_compute. reflexivity. Qed.

(** [filepath.Join] as the sample system has it. *)
Example path_Join_samples :
  path_Join ["."; "target"; "release"; "neard"] = "target/release/neard"
  /\ path_Join ["/home/near/evm-bully"; ".."; "nearcore"] = "/home/near/nearcore"
  /\ path_Join ["/home/near"; ".near"; "local"] = "/home/near/.near/local"
  /\ path_Join [""; ""] = ""
  /\ path_Join [".."; ".."; "x"] = "../../x"
  /\ path_Join ["/"; ".."; "x//y/"] = "/x/y"
  /\ path_Join ["."; ""] = ".".
Proof. vm_compute. repeat split. Qed.

Lemma indexer_feeds_generator_witness :
  is_Some (ReadBlock chain3 11%N (uint64_wrap (Z.of_nat 1))).
Proof.
  apply (proj1 (@indexer_feeds_generator sample_collaborators (config false 1 0 0 0 0)
                  tt "evm" chain3 block3 3 hashes3 ltac:(lia) traverse_chain3)
           1%nat 11%N eq_refl).
Defined.
